(** * The number guessing game of [guessing.py]

    A shallow embedding of the console game: the guessing session
    ([get_user_guess], [generate_hint], [play_game]) and the leaderboard
    store kept in [high_scores.json] ([load_high_scores],
    [save_high_score]), followed by the properties proved about them.

    Python integers are [Z], floats are kept as far as comparisons tell
    them apart ([pyfloat]), text is [string] (the bytes of its UTF-8
    encoding).  Everything the program does to the outside (reading a line,
    printing, the leaderboard file, random draws, the date) goes through an
    explicit [world]; a function of the program is a computation [M A] that
    transforms the world and either returns, raises, or runs out of the
    step budget given to its loops. *)

From Stdlib Require Import ZArith String List Ascii Bool Lia.
From Stdlib Require Import DecimalString DecimalZ Sorted Permutation.
Import ListNotations.

Set Warnings "-register-all".

Local Open Scope string_scope.
Local Open Scope Z_scope.

(* ================================================================= *)
(** ** Text *)

(** The line feed that [print] arguments such as ["\nAttempts left"]
    start with. *)
Definition nl : string := String "010"%char EmptyString.

(** [str(n)] for an integer: decimal digits, with a minus sign when
    negative. *)
Definition str (n : Z) : string := NilZero.string_of_int (Z.to_int n).

(** [s * n] *)
Fixpoint repeat_str (s : string) (n : nat) : string :=
  match n with
  | O => ""
  | S k => s ++ repeat_str s k
  end.

(** Built-in text functions whose behaviour depends on the Unicode tables
    of the interpreter.  The development is parametric in them: a property
    proved below holds whatever they compute.
    - [py_int s] is [int(s)]: [None] stands for [ValueError];
    - [py_strip], [py_lower], [py_capitalize] are the [str] methods;
    - [py_len s] is [len(s)], the number of code points. *)
Class Builtins : Type := {
  py_int : string -> option Z;
  py_strip : string -> string;
  py_lower : string -> string;
  py_capitalize : string -> string;
  py_len : string -> nat
}.

(* ================================================================= *)
(** ** Values read from and written to the leaderboard file *)

(** A Python float, as far as comparisons can tell: not-a-number, an
    infinity, or the finite value [m * 2 ^ e] (every double is of this
    form).  [json.load] produces the three kinds: [NaN], [Infinity] and
    [-Infinity] are accepted as numbers. *)
Inductive pyfloat : Type :=
| FNan
| FInf (negative : bool)
| FFin (m e : Z).

(** What [json.load] returns and [json.dump] accepts.  An object is the
    [dict] in insertion order. *)
Inductive json : Type :=
| JNull
| JBool (b : bool)
| JInt (n : Z)
| JFloat (x : pyfloat)
| JStr (s : string)
| JArr (items : list json)
| JObj (fields : list (string * json)).

(** The exceptions the program can meet. *)
Inductive exn : Type :=
| EOFError
| ValueError
| KeyError
| TypeError
| AttributeError
| JSONDecodeError
| UnicodeDecodeError
| OSError (msg : string).

(** How a computation ends.  [OutOfFuel] is the model's own: a loop was
    cut after the number of rounds it was allowed.  [Unmodelled] marks the
    few places where the embedding does not follow the interpreter (the
    ordering of two arrays, a sort of keys with a NaN among them that are
    not already one ascending run, the formatting of cells that are
    neither text nor integers); nothing is claimed about a run that ends
    there. *)
Inductive result (A : Type) : Type :=
| Ret (a : A)
| Raise (e : exn)
| OutOfFuel
| Unmodelled.

Arguments Ret {A} a.
Arguments Raise {A} e.
Arguments OutOfFuel {A}.
Arguments Unmodelled {A}.

Definition rbind {A B : Type} (r : result A) (k : A -> result B) : result B :=
  match r with
  | Ret a => k a
  | Raise e => Raise e
  | OutOfFuel => OutOfFuel
  | Unmodelled => Unmodelled
  end.

(** [d[k]] on a dict held as an association list. *)
Fixpoint lookup (k : string) (fields : list (string * json)) : option json :=
  match fields with
  | [] => None
  | (k', v) :: rest => if String.eqb k k' then Some v else lookup k rest
  end.

(** [x[k]] for a text key [k]: only a dict can be indexed by text, and
    only at a key it holds. *)
Definition subscript (x : json) (k : string) : result json :=
  match x with
  | JObj fields =>
      match lookup k fields with
      | Some v => Ret v
      | None => Raise KeyError
      end
  | _ => Raise TypeError
  end.

(** [a < b] between two values.  Integers compare numerically ([bool] is a
    subclass of [int]: [False] is 0 and [True] is 1); a float compares with
    a float or an integer by exact value, and any comparison with NaN is
    false; text compares lexicographically by code point; [None], dicts and
    values of different kinds are unorderable. *)
Definition as_int (v : json) : option Z :=
  match v with
  | JInt n => Some n
  | JBool b => Some (if b then 1 else 0)
  | _ => None
  end.

Definition as_float (v : json) : option pyfloat :=
  match v with
  | JFloat x => Some x
  | _ =>
      match as_int v with
      | Some n => Some (FFin n 0)
      | None => None
      end
  end.

(** [x < y] on floats: the finite values are brought to a common
    exponent. *)
Definition float_lt (x y : pyfloat) : bool :=
  match x, y with
  | FNan, _ | _, FNan => false
  | FInf true, FInf true => false
  | FInf true, _ => true
  | _, FInf true => false
  | FInf false, _ => false
  | _, FInf false => true
  | FFin m1 e1, FFin m2 e2 =>
      let e := Z.min e1 e2 in
      m1 * 2 ^ (e1 - e) <? m2 * 2 ^ (e2 - e)
  end.

Definition py_lt (a b : json) : result bool :=
  match as_int a, as_int b with
  | Some m, Some n => Ret (m <? n)
  | _, _ =>
      match as_float a, as_float b with
      | Some x, Some y => Ret (float_lt x y)
      | _, _ =>
          match a, b with
          | JStr s, JStr t => Ret (String.ltb s t)
          | JArr _, JArr _ => Unmodelled
          | _, _ => Raise TypeError
          end
      end
  end.

(** The sort key of the leaderboard: [lambda x: x['attempts']]. *)
Definition attempts_key (x : json) : result json := subscript x "attempts".

(** [list.sort(key=...)] and [sorted(..., key=...)]: every key is computed
    first, in order, then the items are arranged by [<] on the keys.  The
    sort is stable, which fixes its result whenever [<] orders the keys; it
    is written here as an insertion sort on (key, item) pairs.

    With a NaN among the keys [<] is not an order, and what the sort
    returns depends on the steps of the interpreter's algorithm.  One case
    is fixed by the way that algorithm starts, in every version of it: it
    compares each key with the one before it, from the left, and a list in
    which no key is less than the key before it is one ascending run, which
    is returned as it is.  That case is followed ([ascending_run]); once a
    key is found less than the one before it, the outcome is
    [Unmodelled]. *)
Fixpoint compute_keys (key : json -> result json) (l : list json)
  : result (list (json * json)) :=
  match l with
  | [] => Ret []
  | x :: rest =>
      rbind (key x) (fun k =>
      rbind (compute_keys key rest) (fun ks => Ret ((k, x) :: ks)))
  end.

Fixpoint insert_keyed (p : json * json) (l : list (json * json))
  : result (list (json * json)) :=
  match l with
  | [] => Ret [p]
  | q :: rest =>
      rbind (py_lt (fst q) (fst p)) (fun b =>
      if b then rbind (insert_keyed p rest) (fun r => Ret (q :: r))
      else Ret (p :: q :: rest))
  end.

Fixpoint sort_keyed (l : list (json * json)) : result (list (json * json)) :=
  match l with
  | [] => Ret []
  | p :: rest => rbind (sort_keyed rest) (insert_keyed p)
  end.

Definition is_nan (v : json) : bool :=
  match v with
  | JFloat FNan => true
  | _ => false
  end.

Fixpoint ascending_run (l : list (json * json)) : result bool :=
  match l with
  | [] => Ret true
  | p :: rest =>
      match rest with
      | [] => Ret true
      | q :: _ =>
          rbind (py_lt (fst q) (fst p)) (fun b =>
          if b then Ret false else ascending_run rest)
      end
  end.

Definition arrange (ks : list (json * json)) : result (list (json * json)) :=
  if existsb (fun p => is_nan (fst p)) ks then
    rbind (ascending_run ks) (fun run => if run then Ret ks else Unmodelled)
  else sort_keyed ks.

Definition sorted_by (key : json -> result json) (l : list json)
  : result (list json) :=
  rbind (compute_keys key l) (fun ks =>
  rbind (arrange ks) (fun s => Ret (map snd s))).

(** [sorted(v, key=...)] for whatever value [json.load] produced:
    iterating an array yields its items, iterating a dict its keys,
    iterating text its characters; the other values are not iterable. *)
Fixpoint chars (s : string) : list json :=
  match s with
  | EmptyString => []
  | String c rest => JStr (String c EmptyString) :: chars rest
  end.

Definition iterate (v : json) : result (list json) :=
  match v with
  | JArr items => Ret items
  | JObj fields => Ret (map (fun kv => JStr (fst kv)) fields)
  | JStr s => Ret (chars s)
  | _ => Raise TypeError
  end.

Definition py_sorted (key : json -> result json) (v : json)
  : result (list json) :=
  rbind (iterate v) (sorted_by key).

(* ================================================================= *)
(** ** The world and the computations on it *)

(** What [high_scores.json] holds, as far as reading it goes:
    - text that [json.load] rejects with [JSONDecodeError];
    - a JSON document; [json.dump] followed by [json.load] gives back the
      value dumped;
    - a file that [open(..., 'r')] refuses with an [OSError] (permission
      denied, a directory in the file's place);
    - bytes that are not text in the encoding of [open], on which reading
      raises [UnicodeDecodeError]. *)
Inductive content : Type :=
| Undecodable
| Document (v : json)
| Forbidden (msg : string)
| Garbled.

(** What can go wrong while the file is rewritten: [open] fails and the
    file is left as it was (permission denied, ...), or the file was
    opened, hence truncated, and the write or the close fails (disk full,
    ...).  Either way an [OSError] carrying a message is raised. *)
Inductive fault : Type :=
| OpenFails (msg : string)
| DumpFails (msg : string).

Record world : Type := mkWorld {
  stdin : nat -> option string;   (* the lines typed; [None]: end of input *)
  cursor : nat;                   (* how many lines were read so far *)
  stdout : list string;           (* what was printed, oldest first *)
  file : option content;          (* [high_scores.json], if it exists *)
  faults : list (option fault);   (* fate of the coming write attempts *)
  rng : nat -> nat;               (* raw draws of the random generator *)
  rng_pos : nat;                  (* how many draws were used *)
  today : string                  (* the date, as [%Y-%m-%d] *)
}.

Definition M (A : Type) : Type := world -> result A * world.

Definition ret {A : Type} (a : A) : M A := fun w => (Ret a, w).

Definition bind {A B : Type} (m : M A) (k : A -> M B) : M B :=
  fun w =>
    match m w with
    | (Ret a, w') => k a w'
    | (Raise e, w') => (Raise e, w')
    | (OutOfFuel, w') => (OutOfFuel, w')
    | (Unmodelled, w') => (Unmodelled, w')
    end.

Declare Scope py_scope.
Delimit Scope py_scope with py.
Notation "x <- m ;; k" := (bind m (fun x => k))
  (at level 100, m at next level, right associativity) : py_scope.
Notation "m ;; k" := (bind m (fun _ => k))
  (at level 100, right associativity) : py_scope.
Local Open Scope py_scope.

(** A computation that does not touch the world. *)
Definition lift {A : Type} (r : result A) : M A := fun w => (r, w).

Definition raise {A : Type} (e : exn) : M A := lift (Raise e).

Definition out_of_fuel {A : Type} : M A := lift OutOfFuel.

(** [try: m except ...: handler]: [handler e] is [None] when no [except]
    clause matches [e]. *)
Definition try_except {A : Type} (m : M A) (handler : exn -> option (M A))
  : M A :=
  fun w =>
    match m w with
    | (Raise e, w') =>
        match handler e with
        | Some h => h w'
        | None => (Raise e, w')
        end
    | other => other
    end.

(** [print(s)] *)
Definition print (s : string) : M unit :=
  fun w => (Ret tt, mkWorld (stdin w) (cursor w) (stdout w ++ [s])%list (file w)
                            (faults w) (rng w) (rng_pos w) (today w)).

(** [input(prompt)]: shows the prompt, then takes the next line; at the
    end of the input it raises [EOFError]. *)
Definition read_line : M string :=
  fun w =>
    match stdin w (cursor w) with
    | Some line =>
        (Ret line, mkWorld (stdin w) (S (cursor w)) (stdout w) (file w)
                           (faults w) (rng w) (rng_pos w) (today w))
    | None => (Raise EOFError, w)
    end.

Definition input (prompt : string) : M string := print prompt ;; read_line.

(** [random]'s source of integers: the next raw draw, reduced to
    [0 <= r < n]. *)
Definition randbelow (n : Z) : M Z :=
  fun w =>
    (Ret (Z.of_nat (rng w (rng_pos w)) mod n),
     mkWorld (stdin w) (cursor w) (stdout w) (file w)
             (faults w) (rng w) (S (rng_pos w)) (today w)).

(** [random.randint(a, b)] *)
Definition randint (a b : Z) : M Z :=
  if b <? a then raise ValueError
  else (r <- randbelow (b - a + 1) ;; ret (a + r)).

(** [x[i], x[j] = x[j], x[i]] *)
Definition swap {A : Type} (i j : nat) (l : list A) : list A :=
  match nth_error l i, nth_error l j with
  | Some a, Some b =>
      let l1 := (firstn i l ++ b :: skipn (S i) l)%list in
      (firstn j l1 ++ a :: skipn (S j) l1)%list
  | _, _ => l
  end.

(** [random.shuffle(x)]:
    [for i in reversed(range(1, len(x))): j = randbelow(i + 1); swap]. *)
Fixpoint shuffle_from {A : Type} (i : nat) (l : list A) : M (list A) :=
  match i with
  | O => ret l
  | S k =>
      j <- randbelow (Z.of_nat (S i)) ;;
      shuffle_from k (swap i (Z.to_nat j) l)
  end.

Definition shuffle {A : Type} (l : list A) : M (list A) :=
  shuffle_from (length l - 1) l.

(** [datetime.now().strftime("%Y-%m-%d")] *)
Definition date_today : M string := fun w => (Ret (today w), w).

(** [os.path.exists(HIGH_SCORES_FILE)] *)
Definition file_exists : M bool :=
  fun w => (Ret (match file w with Some _ => true | None => false end), w).

(** [with open(HIGH_SCORES_FILE, 'r') as f: json.load(f)] on a file that
    exists. *)
Definition read_json : M json :=
  fun w =>
    match file w with
    | Some (Document v) => (Ret v, w)
    | Some Undecodable => (Raise JSONDecodeError, w)
    | Some (Forbidden msg) => (Raise (OSError msg), w)
    | Some Garbled => (Raise UnicodeDecodeError, w)
    | None => (Raise (OSError "No such file or directory"), w)
    end.

Definition set_file (c : option content) (rest : list (option fault))
  (w : world) : world :=
  mkWorld (stdin w) (cursor w) (stdout w) c rest (rng w) (rng_pos w) (today w).

(** What the file holds once it was opened for writing and [c] put in it.
    Writing does not change who may read the file: a file that refused to
    be read still does. *)
Definition replaced (c : content) (before : option content)
  : option content :=
  match before with
  | Some (Forbidden msg) => Some (Forbidden msg)
  | _ => Some c
  end.

(** [with open(HIGH_SCORES_FILE, 'w') as f: json.dump(v, f, indent=4)]:
    the file is replaced as a whole, unless the attempt meets a fault. A
    write that fails after the file was opened leaves a truncated text,
    which is not a JSON document. *)
Definition write_json (v : json) : M unit :=
  fun w =>
    match faults w with
    | Some (OpenFails msg) :: rest =>
        (Raise (OSError msg), set_file (file w) rest w)
    | Some (DumpFails msg) :: rest =>
        (Raise (OSError msg), set_file (replaced Undecodable (file w)) rest w)
    | None :: rest =>
        (Ret tt, set_file (replaced (Document v) (file w)) rest w)
    | [] => (Ret tt, set_file (replaced (Document v) (file w)) [] w)
    end.

(** [clear_screen()] runs the terminal's clear command; nothing the
    program reads or prints later depends on it. *)
Definition clear_screen : M unit := ret tt.

(* ================================================================= *)
(** ** The program *)

Record settings : Type := mkSettings { tries : Z; range : Z }.

(** The one file the leaderboard lives in; it is the [file] of the world. *)
Definition HIGH_SCORES_FILE : string := "high_scores.json".

Definition DIFFICULTIES : list (string * settings) :=
  [ ("easy", mkSettings 10 100);
    ("medium", mkSettings 7 100);
    ("hard", mkSettings 5 100) ].

Fixpoint difficulty (level : string) (table : list (string * settings))
  : option settings :=
  match table with
  | [] => None
  | (k, v) :: rest => if String.eqb level k then Some v else difficulty level rest
  end.

(** [DIFFICULTIES[level]] *)
Definition difficulty_settings (level : string) : M settings :=
  match difficulty level DIFFICULTIES with
  | Some v => ret v
  | None => raise KeyError
  end.

(** The state of a round: the local variables of [play_game] that change
    while the guesses are read. *)
Record session : Type := mkSession {
  attempts_made : Z;
  last_guess : option Z;
  game_won : bool
}.

(** The condition under which a round prints a hint (line 169). *)
Definition hint_due (attempts : Z) (won : bool) : bool :=
  (attempts >=? 3) && negb won &&
  ((attempts =? 3) || ((attempts >? 3) && (attempts mod 2 =? 1))).

(** The hints [generate_hint] chooses from, in the order it appends
    them: the parity of the secret number, at most one divisor, and how
    the last guess compares. *)
Definition parity_hint (secret_number : Z) : list string :=
  if secret_number mod 2 =? 0 then ["The number is even."]
  else ["The number is odd."].

Definition divisor_hint (secret_number : Z) : list string :=
  if secret_number >? 10 then
    if secret_number mod 3 =? 0 then ["It is divisible by 3."]
    else if secret_number mod 5 =? 0 then ["It is divisible by 5."]
    else if secret_number mod 7 =? 0 then ["It is divisible by 7."]
    else []
  else [].

Definition greater_msg (g : Z) : string := "It's greater than " ++ str g ++ ".".

Definition less_msg (g : Z) : string := "It's less than " ++ str g ++ ".".

Definition proximity_hint (secret_number : Z) (last_guess : option Z)
  : list string :=
  match last_guess with
  | Some g =>
      if g <? secret_number then [greater_msg g]
      else if g >? secret_number then [less_msg g]
      else []
  | None => []
  end.

Definition hint_candidates (secret_number : Z) (last_guess : option Z)
  : list string :=
  app (parity_hint secret_number)
      (app (divisor_hint secret_number)
           (proximity_hint secret_number last_guess)).

Section Game.

Context {py : Builtins}.

Definition get_player_name : M string :=
  line <- input "Enter your name (optional, press Enter to be Anonymous): " ;;
  let name := py_strip line in
  ret (if String.eqb name "" then "Anonymous" else name).

Fixpoint print_levels (table : list (string * settings)) : M unit :=
  match table with
  | [] => ret tt
  | (level, st) :: rest =>
      print ("  " ++ py_capitalize level ++ ": " ++ str (tries st)
             ++ " tries (1 - " ++ str (range st) ++ ")") ;;
      print_levels rest
  end.

Fixpoint get_difficulty_choice (fuel : nat) : M string :=
  match fuel with
  | O => out_of_fuel
  | S fuel' =>
      print (nl ++ "--- Choose Difficulty ---") ;;
      print_levels DIFFICULTIES ;;
      line <- input "Enter difficulty (Easy/Medium/Hard): " ;;
      let choice := py_lower line in
      match difficulty choice DIFFICULTIES with
      | Some _ => ret choice
      | None =>
          print "Invalid choice. Please choose Easy, Medium, or Hard." ;;
          get_difficulty_choice fuel'
      end
  end.

Definition generate_secret_number (difficulty_level : string) : M Z :=
  st <- difficulty_settings difficulty_level ;;
  let max_range := range st in
  randint 1 max_range.

Definition guess_prompt (max_range : Z) : string :=
  "Enter your guess (1 - " ++ str max_range ++ "): ".

Definition out_of_range_msg (max_range : Z) : string :=
  "Please enter a number within the range (1 - " ++ str max_range ++ ").".

Definition not_a_number_msg : string :=
  "Invalid input. Please enter a whole number.".

Fixpoint get_user_guess (fuel : nat) (max_range : Z) : M Z :=
  match fuel with
  | O => out_of_fuel
  | S fuel' =>
      line <- input (guess_prompt max_range) ;;
      match py_int line with
      | Some guess =>
          if (1 <=? guess) && (guess <=? max_range) then ret guess
          else (print (out_of_range_msg max_range) ;;
                get_user_guess fuel' max_range)
      | None =>
          print not_a_number_msg ;;
          get_user_guess fuel' max_range
      end
  end.

Definition generate_hint (secret_number attempts_made : Z)
  (last_guess : option Z) : M string :=
  let hints := hint_candidates secret_number last_guess in
  hints <- shuffle hints ;;
  ret (String.concat " " (firstn 2 hints)).

Definition warning_msg : string :=
  "Warning: Could not read " ++ HIGH_SCORES_FILE
    ++ ". Starting with empty scores.".

Definition load_high_scores : M (list json) :=
  present <- file_exists ;;
  if present then
    try_except
      (scores <- read_json ;;
       lift (py_sorted attempts_key scores))
      (fun e =>
         match e with
         | JSONDecodeError => Some (print warning_msg ;; ret [])
         | _ => None
         end)
  else ret [].

Definition save_error_msg (msg : string) : string :=
  "Error saving high score: " ++ msg.

Definition save_high_score (score : json) : M unit :=
  scores <- load_high_scores ;;
  let scores := (scores ++ [score])%list in
  scores <- lift (sorted_by attempts_key scores) ;;
  try_except
    (write_json (JArr scores))
    (fun e =>
       match e with
       | OSError msg => Some (print (save_error_msg msg))
       | _ => None
       end).

(** The format specification [:<w] on text: pad with spaces on the right
    up to [w] characters. *)
Definition ljust (w : nat) (s : string) : string :=
  s ++ repeat_str " " (w - py_len s).

(** [f"{v:<w}"] for a cell of the leaderboard table. *)
Definition format_cell (w : nat) (v : json) : result string :=
  match v with
  | JStr s => Ret (ljust w s)
  | JInt n => Ret (ljust w (str n))
  | _ => Unmodelled
  end.

(** [v.capitalize()] *)
Definition capitalize (v : json) : result json :=
  match v with
  | JStr s => Ret (JStr (py_capitalize s))
  | _ => Raise AttributeError
  end.

Definition leaderboard_header : string :=
  nl ++ ljust 5 "Rank" ++ " " ++ ljust 15 "Player" ++ " "
     ++ ljust 10 "Difficulty" ++ " " ++ ljust 10 "Attempts" ++ " "
     ++ ljust 12 "Date".

(** One row of the table; [i] is the index [enumerate] gives. *)
Definition leaderboard_row (i : nat) (score : json) : result string :=
  let rank := ljust 5 (str (Z.of_nat i + 1)) in
  rbind (subscript score "name") (fun v =>
  rbind (format_cell 15 v) (fun name =>
  rbind (subscript score "difficulty") (fun v =>
  rbind (capitalize v) (fun v =>
  rbind (format_cell 10 v) (fun level =>
  rbind (subscript score "attempts") (fun v =>
  rbind (format_cell 10 v) (fun attempts =>
  rbind (subscript score "date") (fun v =>
  rbind (format_cell 12 v) (fun date =>
  Ret (rank ++ " " ++ name ++ " " ++ level ++ " " ++ attempts ++ " " ++ date)
  ))))))))).

Fixpoint print_rows (i : nat) (scores : list json) : M unit :=
  match scores with
  | [] => ret tt
  | score :: rest =>
      row <- lift (leaderboard_row i score) ;;
      print row ;;
      print_rows (S i) rest
  end.

Definition display_leaderboard (scores : list json) : M unit :=
  clear_screen ;;
  print (nl ++ repeat_str "=" 30) ;;
  print "      🏆 HIGH SCORES 🏆" ;;
  print (repeat_str "=" 30) ;;
  (match scores with
   | [] => print (nl ++ "No scores recorded yet. Be the first to play!")
   | _ =>
       print leaderboard_header ;;
       print (repeat_str "-" 60) ;;
       print_rows 0 (firstn 10 scores)
   end) ;;
  print (nl ++ repeat_str "=" 30) ;;
  input "Press Enter to continue..." ;;
  ret tt.

(** How a pass through the body of a [while] loop is left. *)
Inductive signal : Type := Continue | Break.

Definition attempts_left_line (max_attempts attempts_made : Z) : string :=
  nl ++ "Attempts left: " ++ str (max_attempts - attempts_made).

Definition congratulations (player_name : string) (secret_number attempts : Z)
  : string :=
  nl ++ "🎉 Congratulations, " ++ player_name ++ "! You guessed the number "
     ++ str secret_number ++ " in " ++ str attempts ++ " attempts!".

(** What a wrong guess is answered with. *)
Definition verdict (guess secret_number : Z) : string :=
  if guess <? secret_number then "Too Low! Try again."
  else "Too High! Try again.".

Definition hint_line (hint : string) : string := "Hint: " ++ hint.

(** The body of the guessing loop of [play_game] (lines 154 to 170). *)
Definition guess_round (budget : nat) (player_name : string)
  (secret_number max_attempts max_range : Z) (st : session)
  : M (signal * session) :=
  print (attempts_left_line max_attempts (attempts_made st)) ;;
  guess <- get_user_guess budget max_range ;;
  let last_guess := Some guess in
  let attempts_made := attempts_made st + 1 in
  if guess =? secret_number then
    print (congratulations player_name secret_number attempts_made) ;;
    ret (Break, mkSession attempts_made last_guess true)
  else
    print (verdict guess secret_number) ;;
    (if hint_due attempts_made (game_won st) then
       hint <- generate_hint secret_number attempts_made last_guess ;;
       print (hint_line hint)
     else ret tt) ;;
    ret (Continue, mkSession attempts_made last_guess (game_won st)).

(** [while attempts_made < max_attempts: ...] *)
Fixpoint guess_loop (fuel budget : nat) (player_name : string)
  (secret_number max_attempts max_range : Z) (st : session) : M session :=
  if attempts_made st <? max_attempts then
    match fuel with
    | O => out_of_fuel
    | S fuel' =>
        r <- guess_round budget player_name secret_number max_attempts
                         max_range st ;;
        match r with
        | (Break, st') => ret st'
        | (Continue, st') =>
            guess_loop fuel' budget player_name secret_number max_attempts
                       max_range st'
        end
    end
  else ret st.

Definition make_score (name level : string) (attempts : Z) (date : string)
  : json :=
  JObj [ ("name", JStr name); ("difficulty", JStr level);
         ("attempts", JInt attempts); ("date", JStr date) ].

Definition play_game (budget : nat) : M unit :=
  clear_screen ;;
  print (repeat_str "=" 40) ;;
  print "    Welcome to the Number Guessing Game!" ;;
  print (repeat_str "=" 40) ;;
  player_name <- get_player_name ;;
  difficulty_choice <- get_difficulty_choice budget ;;
  st <- difficulty_settings difficulty_choice ;;
  secret_number <- generate_secret_number difficulty_choice ;;
  let max_attempts := tries st in
  let max_range := range st in
  print (nl ++ "Okay " ++ player_name
            ++ ", I'm thinking of a number between 1 and "
            ++ str max_range ++ ".") ;;
  print ("You have " ++ str max_attempts ++ " attempts to guess it.") ;;
  final <- guess_loop budget budget player_name secret_number max_attempts
                      max_range (mkSession 0 None false) ;;
  (if negb (game_won final) then
     print (nl ++ "Game Over! You ran out of attempts. The secret number was "
               ++ str secret_number ++ ".")
   else ret tt) ;;
  (if game_won final then
     date <- date_today ;;
     save_high_score
       (make_score player_name difficulty_choice (attempts_made final) date) ;;
     print "Your score has been saved to the leaderboard!"
   else ret tt) ;;
  input (nl ++ "Press Enter to continue...") ;;
  ret tt.

(** One pass through the loop of [main_menu]; [high_scores] is the
    leaderboard the menu holds in memory. *)
Definition menu_round (budget : nat) (high_scores : list json)
  : M (signal * list json) :=
  clear_screen ;;
  print (nl ++ "--- Main Menu ---") ;;
  print "1. Play Game" ;;
  print "2. View Leaderboard" ;;
  print "3. Exit" ;;
  choice <- input "Enter your choice (1-3): " ;;
  if String.eqb choice "1" then
    play_game budget ;;
    ret (Continue, high_scores)
  else if String.eqb choice "2" then
    display_leaderboard high_scores ;;
    high_scores <- load_high_scores ;;
    ret (Continue, high_scores)
  else if String.eqb choice "3" then
    print "Thanks for playing! Goodbye." ;;
    ret (Break, high_scores)
  else
    print "Invalid choice. Please enter 1, 2, or 3." ;;
    input "Press Enter to try again..." ;;
    ret (Continue, high_scores).

Fixpoint menu_loop (fuel budget : nat) (high_scores : list json) : M unit :=
  match fuel with
  | O => out_of_fuel
  | S fuel' =>
      r <- menu_round budget high_scores ;;
      match r with
      | (Break, _) => ret tt
      | (Continue, high_scores) => menu_loop fuel' budget high_scores
      end
  end.

Definition main_menu (budget : nat) : M unit :=
  high_scores <- load_high_scores ;;
  menu_loop budget budget high_scores.

End Game.

(* ================================================================= *)
(** ** The built-ins on ASCII text *)

(** An instance of [Builtins] that follows the interpreter on lines made
    of ASCII characters; it is the one the concrete runs below use. *)
Module AsciiText.

Definition code (c : ascii) : nat := nat_of_ascii c.

(** [str.isspace] on ASCII: tab to carriage return, the four separators
    [0x1c] to [0x1f], and the space. *)
Definition is_space (c : ascii) : bool :=
  let n := code c in
  ((9 <=? n) && (n <=? 13) || (28 <=? n) && (n <=? 32))%nat.

Definition is_digit (c : ascii) : bool :=
  let n := code c in ((48 <=? n) && (n <=? 57))%nat.

Fixpoint lstrip (s : string) : string :=
  match s with
  | String c rest => if is_space c then lstrip rest else s
  | EmptyString => EmptyString
  end.

Fixpoint rstrip (s : string) : string :=
  match s with
  | String c rest =>
      match rstrip rest with
      | EmptyString => if is_space c then EmptyString else String c EmptyString
      | kept => String c kept
      end
  | EmptyString => EmptyString
  end.

Definition strip (s : string) : string := rstrip (lstrip s).

(** Decimal digits, where one underscore may separate two digits. *)
Fixpoint digits (s : string) (acc : Z) (after_digit : bool) : option Z :=
  match s with
  | EmptyString => if after_digit then Some acc else None
  | String c rest =>
      if is_digit c then
        digits rest (10 * acc + Z.of_nat (code c - 48)) true
      else if Ascii.eqb c "_" then
        if after_digit then digits rest acc false else None
      else None
  end.

(** [int(s)]: surrounding white space, an optional sign, digits. *)
Definition int (s : string) : option Z :=
  match strip s with
  | String "-" rest => option_map Z.opp (digits rest 0 false)
  | String "+" rest => digits rest 0 false
  | body => digits body 0 false
  end.

Definition lower_char (c : ascii) : ascii :=
  let n := code c in
  if ((65 <=? n) && (n <=? 90))%nat then ascii_of_nat (n + 32) else c.

Definition upper_char (c : ascii) : ascii :=
  let n := code c in
  if ((97 <=? n) && (n <=? 122))%nat then ascii_of_nat (n - 32) else c.

Fixpoint lower (s : string) : string :=
  match s with
  | String c rest => String (lower_char c) (lower rest)
  | EmptyString => EmptyString
  end.

Definition capitalize (s : string) : string :=
  match s with
  | String c rest => String (upper_char c) (lower rest)
  | EmptyString => EmptyString
  end.

Definition builtins : Builtins :=
  {| py_int := int;
     py_strip := strip;
     py_lower := lower;
     py_capitalize := capitalize;
     py_len := String.length |}.

End AsciiText.

(** A world to run the program in: the lines typed, the file, the fate of
    the writes and the raw random draws; nothing read or printed yet. *)
Definition lines (l : list string) : nat -> option string :=
  fun i => nth_error l i.

Definition start (typed : list string) (f : option content)
  (fs : list (option fault)) (draws : list nat) : world :=
  mkWorld (lines typed) 0 [] f fs (fun i => nth i draws O) 0 "2024-01-01".

(* ================================================================= *)
(** * Vocabulary of the properties *)

(** The fixed hint texts, by kind. *)
Definition is_parity_hint (s : string) : bool :=
  String.eqb s "The number is even." || String.eqb s "The number is odd.".

Definition is_divisor_hint (s : string) : bool :=
  String.eqb s "It is divisible by 3." || String.eqb s "It is divisible by 5."
  || String.eqb s "It is divisible by 7.".

(** A printed line that is a hint. *)
Definition is_hint_line (s : string) : bool := prefix "Hint: " s.

(** [w] after [n] more lines were read, [d] more random draws were used and
    [out] was printed. *)
Definition after (n d : nat) (out : list string) (w : world) : world :=
  mkWorld (stdin w) (cursor w + n) (stdout w ++ out)%list (file w) (faults w)
          (rng w) (rng_pos w + d) (today w).

Section Vocabulary.

Context {py : Builtins}.

(** The guess a line stands for, when [get_user_guess] takes it. *)
Definition accepted (max_range : Z) (line : string) : option Z :=
  match py_int line with
  | Some guess =>
      if (1 <=? guess) && (guess <=? max_range) then Some guess else None
  | None => None
  end.

(** What [get_user_guess] prints for the lines it does not take: the
    prompt that was showing, then the complaint. *)
Definition complaint (max_range : Z) (line : string) : string :=
  match py_int line with
  | Some _ => out_of_range_msg max_range
  | None => not_a_number_msg
  end.

Fixpoint reprompts (max_range : Z) (rejected : list string) : list string :=
  match rejected with
  | [] => []
  | line :: rest =>
      guess_prompt max_range :: complaint max_range line
        :: reprompts max_range rest
  end.

(** The lines standard input delivers from the cursor on start with
    [typed]. *)
Definition next_lines (w : world) (typed : list string) : Prop :=
  forall i line, nth_error typed i = Some line ->
                 stdin w (cursor w + i) = Some line.

(** Every line still to be read is one [get_user_guess] takes. *)
Definition valid_guesses (max_range : Z) (w : world) : Prop :=
  forall i line, (cursor w <= i)%nat -> stdin w i = Some line ->
                 exists guess, accepted max_range line = Some guess.

(** The states in which the guessing loop tests its condition, from the
    state and world it was entered with. *)
Inductive visits (budget : nat) (player_name : string)
  (secret_number max_attempts max_range : Z) (st0 : session) (w0 : world)
  : session -> world -> Prop :=
| visits_entry :
    visits budget player_name secret_number max_attempts max_range st0 w0 st0 w0
| visits_round (st st' : session) (w w' : world) :
    visits budget player_name secret_number max_attempts max_range st0 w0 st w ->
    attempts_made st < max_attempts ->
    guess_round budget player_name secret_number max_attempts max_range st w
    = (Ret (Continue, st'), w') ->
    visits budget player_name secret_number max_attempts max_range st0 w0 st' w'.

End Vocabulary.

(** An endless input of valid guesses that never hit the secret number. *)
Definition fifties : world :=
  mkWorld (fun _ => Some "50") 0 [] None [] (fun _ => O) 0 "2024-01-01".

(** [x] is not after [y] in the order of their sort keys: [key y < key x]
    is false. *)
Definition key_le (x y : json) : Prop :=
  exists kx ky, attempts_key x = Ret kx /\ attempts_key y = Ret ky /\
                py_lt ky kx = Ret false.

(** A record whose ['attempts'] is an integer, and the order of two such
    records by it. *)
Definition int_keyed (x : json) : Prop :=
  exists n, attempts_key x = Ret (JInt n).

Definition attempts_le (x y : json) : Prop :=
  exists m n, attempts_key x = Ret (JInt m) /\ attempts_key y = Ret (JInt n) /\
              m <= n.

(** The same on (key, item) pairs. *)
Definition pair_le (p q : json * json) : Prop := py_lt (fst q) (fst p) = Ret false.

Definition keyed (p : json * json) : Prop := attempts_key (snd p) = Ret (fst p).

(** A pair whose key is the integer ['attempts'] of its item. *)
Definition int_pair (p : json * json) : Prop :=
  exists n, fst p = JInt n /\ attempts_key (snd p) = Ret (JInt n).

(** The message a fault carries. *)
Definition fault_msg (f : fault) : string :=
  match f with
  | OpenFails msg => msg
  | DumpFails msg => msg
  end.

(** What the file holds after a write attempt that met the fault [f]. *)
Definition file_after_fault (f : fault) (before : option content)
  : option content :=
  match f with
  | OpenFails _ => before
  | DumpFails _ => replaced Undecodable before
  end.

(** The next write attempt goes through. *)
Definition write_succeeds (w : world) : Prop :=
  faults w = [] \/ exists rest, faults w = None :: rest.

(** The leaderboard nothing was saved to yet: no file, or an empty array. *)
Definition empty_board (w : world) : Prop :=
  file w = None \/ file w = Some (Document (JArr [])).

(** A file the program copes with: absent, not decodable, or an array of
    records with integer ['attempts']. *)
Definition board_ok (f : option content) : Prop :=
  match f with
  | None => True
  | Some Undecodable => True
  | Some (Document v) => exists l, v = JArr l /\ Forall int_keyed l
  | Some (Forbidden _) => False
  | Some Garbled => False
  end.

(** [save_high_score] on each record of a list, in order. *)
Fixpoint save_each (scores : list json) : M unit :=
  match scores with
  | [] => ret tt
  | score :: rest => save_high_score score ;; save_each rest
  end.

(** An outcome that sorting the leaderboard can have: it is not the end of
    a step budget, and when it is an exception, the exception is
    [TypeError] or [KeyError]. *)
Definition sort_error {A : Type} (r : result A) : Prop :=
  r <> OutOfFuel /\ forall e, r = Raise e -> e = TypeError \/ e = KeyError.

(** The integer ['attempts'] of a record that has one. *)
Definition attempts_of (x : json) : Z :=
  match attempts_key x with
  | Ret (JInt n) => n
  | _ => 0
  end.

(** A record paired with its integer sort key, and the key of a pair. *)
Definition with_key (x : json) : json * json := (JInt (attempts_of x), x).

Definition pair_key (p : json * json) : Z :=
  match fst p with
  | JInt n => n
  | _ => 0
  end.

(** A record that has an ['attempts'] entry. *)
Definition has_attempts (x : json) : Prop :=
  exists k, attempts_key x = Ret k.

Section MoreVocabulary.

Context {py : Builtins}.

(** What [get_difficulty_choice] prints before it reads a line, and what it
    has printed for the lines it did not take. *)
Definition level_line (entry : string * settings) : string :=
  "  " ++ py_capitalize (fst entry) ++ ": " ++ str (tries (snd entry))
       ++ " tries (1 - " ++ str (range (snd entry)) ++ ")".

Definition difficulty_menu : list string :=
  (nl ++ "--- Choose Difficulty ---")
    :: app (map level_line DIFFICULTIES)
           ["Enter difficulty (Easy/Medium/Hard): "].

Definition invalid_choice_msg : string :=
  "Invalid choice. Please choose Easy, Medium, or Hard.".

Fixpoint rechoices (rejected : list string) : list string :=
  match rejected with
  | [] => []
  | _ :: rest => app difficulty_menu (invalid_choice_msg :: rechoices rest)
  end.

End MoreVocabulary.

(** A record as [play_game] makes them. *)
Definition displayable (x : json) : Prop :=
  exists name level attempts date, x = make_score name level attempts date.

Section TableVocabulary.

Context {py : Builtins}.

(** The row of the leaderboard table for a record of [play_game], at index
    [i] of the list shown. *)
Definition score_row (i : nat) (name level : string) (attempts : Z)
  (date : string) : string :=
  ljust 5 (str (Z.of_nat i + 1)) ++ " " ++ ljust 15 name ++ " "
    ++ ljust 10 (py_capitalize level) ++ " " ++ ljust 10 (str attempts) ++ " "
    ++ ljust 12 date.

(** The rows [print_rows] prints, up to the first record it cannot format,
    and how it ends. *)
Fixpoint row_texts (i : nat) (scores : list json) : list string :=
  match scores with
  | [] => []
  | score :: rest =>
      match leaderboard_row i score with
      | Ret row => row :: row_texts (S i) rest
      | _ => []
      end
  end.

Fixpoint rows_outcome (i : nat) (scores : list json) : result unit :=
  match scores with
  | [] => Ret tt
  | score :: rest =>
      rbind (leaderboard_row i score) (fun _ => rows_outcome (S i) rest)
  end.

Definition banner : list string :=
  [nl ++ repeat_str "=" 30; "      🏆 HIGH SCORES 🏆"; repeat_str "=" 30].

Definition no_scores_msg : string :=
  nl ++ "No scores recorded yet. Be the first to play!".

(** What [display_leaderboard] prints between the banner and the closing
    line. *)
Definition table (scores : list json) : list string :=
  match scores with
  | [] => [no_scores_msg]
  | _ => leaderboard_header :: repeat_str "-" 60
           :: row_texts 0 (firstn 10 scores)
  end.

Definition closing : list string :=
  [nl ++ repeat_str "=" 30; "Press Enter to continue..."].

End TableVocabulary.

(** ** Frames of a run *)

(** The input ends at line [n], which was not read yet. *)
Definition eof_at (n : nat) (w : world) : Prop :=
  stdin w n = None /\ (cursor w <= n)%nat.

(** [w'] comes after [w] in a run that left the file alone: lines that were
    there were read, draws were used and text was printed, nothing else. *)
Definition later (w w' : world) : Prop :=
  exists k d out,
    w' = after k d out w /\
    forall i, (i < k)%nat -> stdin w (cursor w + i) <> None.

(** The input is the one of [w], read further or as far. *)
Definition same_input (w w' : world) : Prop :=
  stdin w' = stdin w /\ today w' = today w /\ (cursor w <= cursor w')%nat /\
  forall n, eof_at n w -> (cursor w' <= n)%nat.

(** An outcome that is not an exception other than [EOFError]. *)
Definition mild {A : Type} (r : result A) : Prop :=
  match r with
  | Raise e => e = EOFError
  | Unmodelled => False
  | _ => True
  end.

(** A mild outcome, where the step budget [b] is not used up when the
    input ends within [b] lines. *)
Definition calm {A : Type} (n b : nat) (w : world) (r : result A) : Prop :=
  mild r /\ (r = OutOfFuel -> ~ (eof_at n w /\ (n - cursor w < b)%nat)).

(** A computation that is calm, leaves the file alone, and returns only
    values in [P]. *)
Definition tame {A : Type} (n b : nat) (P : A -> Prop) (m : M A) : Prop :=
  forall w,
    calm n b w (fst (m w)) /\ later w (snd (m w)) /\
    forall a, fst (m w) = Ret a -> P a.

(** A session in which the secret number was not guessed yet. *)
Definition open_session (secret_number : Z) (st : session) : Prop :=
  game_won st = false /\ last_guess st <> Some secret_number.

(** What a pass of the guessing loop and the whole loop hand over. *)
Definition round_post (secret_number : Z) (st : session)
  (r : signal * session) : Prop :=
  attempts_made (snd r) = attempts_made st + 1 /\
  ((fst r = Break /\ game_won (snd r) = true /\
    last_guess (snd r) = Some secret_number) \/
   (fst r = Continue /\ game_won (snd r) = game_won st /\
    exists g, last_guess (snd r) = Some g /\ g <> secret_number)).

Definition loop_post (secret_number max_attempts : Z) (st final : session)
  : Prop :=
  (game_won final = true /\ last_guess final = Some secret_number /\
   attempts_made st < attempts_made final <= max_attempts) \/
  (game_won final = false /\ attempts_made final = max_attempts /\
   (final = st \/
    exists g, last_guess final = Some g /\ g <> secret_number)).

(** A leaderboard file that holds nothing but records of [play_game], if it
    holds any. *)
Definition board_made (f : option content) : Prop :=
  match f with
  | None => True
  | Some Undecodable => True
  | Some (Document v) => exists l, v = JArr l /\ Forall displayable l
  | Some (Forbidden _) => False
  | Some Garbled => False
  end.

(** What a game comes to: either the file was left alone, or one record
    was handed to [save_high_score], and the file was left alone before
    and after that. *)
Definition play_outcome (n b : nat) (w : world) (r : result unit)
  (w' : world) : Prop :=
  (later w w' /\ calm n b w r) \/
  (exists name level st attempts w1,
     name <> ""%string /\ difficulty level DIFFICULTIES = Some st /\
     1 <= attempts <= tries st /\ later w w1 /\
     let s := save_high_score (make_score name level attempts (today w)) w1 in
     later (snd s) w' /\
     match fst s with
     | Ret _ => calm n b w r
     | f => r = f
     end).

(** A computation whose runs from the worlds after [w0] come to that. *)
Definition ends_game (n b : nat) (w0 : world) (m : M unit) : Prop :=
  forall w, later w0 w -> play_outcome n b w0 (fst (m w)) (snd (m w)).

(** A computation that keeps the input, and does not use up the step
    budget [b] when the input ends within [b] lines. *)
Definition steady {A : Type} (n b : nat) (m : M A) : Prop :=
  forall w,
    same_input w (snd (m w)) /\
    (fst (m w) = OutOfFuel -> ~ (eof_at n w /\ (n - cursor w < b)%nat)).

(** A computation that, on a leaderboard of records of [play_game], ends
    mildly, leaves such a leaderboard, and returns only values in [P]. *)
Definition keeps_board {A : Type} (P : A -> Prop) (m : M A) : Prop :=
  forall w, board_made (file w) ->
    mild (fst (m w)) /\ board_made (file (snd (m w))) /\
    forall a, fst (m w) = Ret a -> P a.

(** What [main_menu] prints before it reads the choice. *)
Definition menu_lines : list string :=
  [nl ++ "--- Main Menu ---"; "1. Play Game"; "2. View Leaderboard";
   "3. Exit"; "Enter your choice (1-3): "].

(* ================================================================= *)
(** * Properties *)

(** ** Text *)

Lemma length_append (s t : string) :
  String.length (s ++ t) = (String.length s + String.length t)%nat.
Proof. induction s as [|c s IH]; simpl; [reflexivity | now rewrite IH]. Qed.

Lemma append_cancel_r (s t u : string) : s ++ u = t ++ u -> s = t.
Proof.
  revert t; induction s as [|c s IH]; intros [|d t] H; simpl in H.
  - reflexivity.
  - apply (f_equal String.length) in H; simpl in H.
    rewrite length_append in H; exfalso; lia.
  - apply (f_equal String.length) in H; simpl in H.
    rewrite length_append in H; exfalso; lia.
  - injection H as -> H. now rewrite (IH t H).
Qed.

Lemma to_int_proper (n : Z) :
  Z.to_int n <> Decimal.Pos Decimal.Nil /\ Z.to_int n <> Decimal.Neg Decimal.Nil.
Proof.
  destruct n as [|p|p]; simpl; split; try discriminate;
    intros H; injection H as H;
    exact (DecimalPos.Unsigned.to_uint_nonnil p H).
Qed.

Lemma str_inj (m n : Z) : str m = str n -> m = n.
Proof.
  unfold str; intros H.
  apply to_int_inj.
  destruct (to_int_proper m) as [Hm1 Hm2], (to_int_proper n) as [Hn1 Hn2].
  pose proof (NilZero.isi _ Hm1 Hm2) as Em.
  pose proof (NilZero.isi _ Hn1 Hn2) as En.
  rewrite H in Em; rewrite Em in En; now injection En.
Qed.

Lemma greater_msg_inj (g h : Z) : greater_msg g = greater_msg h -> g = h.
Proof.
  unfold greater_msg; intros H.
  apply str_inj, (append_cancel_r _ _ ".").
  simpl in H. repeat (injection H as H). exact H.
Qed.

Lemma less_msg_inj (g h : Z) : less_msg g = less_msg h -> g = h.
Proof.
  unfold less_msg; intros H.
  apply str_inj, (append_cancel_r _ _ ".").
  simpl in H. repeat (injection H as H). exact H.
Qed.

(** ** The hints *)

Lemma mod2_cases (n : Z) : n mod 2 = 0 \/ n mod 2 = 1.
Proof. pose proof (Z.mod_pos_bound n 2); lia. Qed.
Lemma in_parity_hint (s : string) (n : Z) :
  In s (parity_hint n) <->
  (s = "The number is even." /\ n mod 2 = 0) \/
  (s = "The number is odd." /\ n mod 2 = 1).
Proof.
  unfold parity_hint. destruct (mod2_cases n) as [E|E]; rewrite E; simpl;
    intuition (try discriminate; try lia; auto).
Qed.

Lemma in_divisor_hint (s : string) (n : Z) :
  In s (divisor_hint n) <->
  n > 10 /\
  ((s = "It is divisible by 3." /\ n mod 3 = 0) \/
   (s = "It is divisible by 5." /\ n mod 3 <> 0 /\ n mod 5 = 0) \/
   (s = "It is divisible by 7." /\ n mod 3 <> 0 /\ n mod 5 <> 0 /\ n mod 7 = 0)).
Proof.
  unfold divisor_hint.
  destruct (Z.gtb_spec n 10); [|simpl; intuition lia].
  destruct (Z.eqb_spec (n mod 3) 0); [simpl; intuition (try lia; auto)|].
  destruct (Z.eqb_spec (n mod 5) 0); [simpl; intuition (try lia; auto)|].
  destruct (Z.eqb_spec (n mod 7) 0); simpl; intuition (try lia; auto).
Qed.

Lemma in_proximity_hint (s : string) (n : Z) (last : option Z) :
  In s (proximity_hint n last) <->
  exists g, last = Some g /\
            ((s = greater_msg g /\ g < n) \/ (s = less_msg g /\ g > n)).
Proof.
  unfold proximity_hint. destruct last as [g|]; simpl.
  - destruct (Z.ltb_spec g n); [|destruct (Z.gtb_spec g n)]; simpl; split.
    + intros [<-|[]]. exists g; auto.
    + intros (h & [= <-] & [[-> _]|[_ ?]]); [auto | lia].
    + intros [<-|[]]. exists g; auto with zarith.
    + intros (h & [= <-] & [[_ ?]|[-> _]]); [lia | auto].
    + intros [].
    + intros (h & [= <-] & [[_ ?]|[_ ?]]); lia.
  - split; [intros [] | intros (g & [=] & _)].
Qed.

Lemma parity_hint_one (n : Z) :
  exists s, parity_hint n = [s] /\ is_parity_hint s = true.
Proof.
  unfold parity_hint; destruct (n mod 2 =? 0); eexists; split; reflexivity.
Qed.

Lemma divisor_hint_short (n : Z) :
  divisor_hint n = [] \/
  exists s, divisor_hint n = [s] /\ is_divisor_hint s = true
            /\ is_parity_hint s = false.
Proof.
  unfold divisor_hint.
  destruct (n >? 10); [|now left].
  destruct (n mod 3 =? 0); [right; eexists; repeat split; reflexivity|].
  destruct (n mod 5 =? 0); [right; eexists; repeat split; reflexivity|].
  destruct (n mod 7 =? 0); [right; eexists; repeat split; reflexivity|].
  now left.
Qed.

Lemma proximity_hint_short (n : Z) (last : option Z) :
  proximity_hint n last = [] \/
  exists s, proximity_hint n last = [s] /\ is_divisor_hint s = false
            /\ is_parity_hint s = false.
Proof.
  unfold proximity_hint. destruct last as [g|]; [|now left].
  destruct (g <? n); [right; eexists; repeat split; reflexivity|].
  destruct (g >? n); [right; eexists; repeat split; reflexivity|].
  now left.
Qed.

Lemma in_hint_candidates (s : string) (n : Z) (last : option Z) :
  In s (hint_candidates n last) <->
  ((s = "The number is even." /\ n mod 2 = 0) \/
   (s = "The number is odd." /\ n mod 2 = 1)) \/
  (n > 10 /\
   ((s = "It is divisible by 3." /\ n mod 3 = 0) \/
    (s = "It is divisible by 5." /\ n mod 3 <> 0 /\ n mod 5 = 0) \/
    (s = "It is divisible by 7." /\ n mod 3 <> 0 /\ n mod 5 <> 0
     /\ n mod 7 = 0))) \/
  (exists g, last = Some g /\
             ((s = greater_msg g /\ g < n) \/ (s = less_msg g /\ g > n))).
Proof.
  unfold hint_candidates.
  now rewrite !in_app_iff, in_parity_hint, in_divisor_hint, in_proximity_hint.
Qed.

(** Case analysis on a hint known to be among the candidates; the cases in
    which two different texts would be equal are closed. *)
Ltac hint_inv H :=
  apply in_hint_candidates in H; decompose [ex or and] H; clear H;
  try (exfalso; unfold greater_msg, less_msg in *; simpl in *; discriminate).

Lemma hint_counts (n : Z) (last : option Z) :
  length (filter is_parity_hint (hint_candidates n last)) = 1%nat /\
  (length (filter is_divisor_hint (hint_candidates n last)) <= 1)%nat.
Proof.
  unfold hint_candidates.
  destruct (parity_hint_one n) as (s & -> & Hs).
  assert (Hs' : is_divisor_hint s = false).
  { unfold is_parity_hint in Hs.
    apply orb_true_iff in Hs as [Hs|Hs]; apply String.eqb_eq in Hs;
      subst s; reflexivity. }
  destruct (divisor_hint_short n) as [->|(d & -> & Hd & Hd')];
    destruct (proximity_hint_short n last) as [->|(p & -> & Hp & Hp')];
    simpl; rewrite Hs, Hs', ?Hd, ?Hd', ?Hp, ?Hp'; simpl; split; lia.
Qed.

(** C5. The candidate list of [generate_hint], for every secret number and
    optional last guess: exactly one parity hint, the one that matches the
    secret number; at most one divisibility hint, present only above 10 and
    then for the first of 3, 5, 7 that divides the secret number; a
    proximity hint exactly when a last guess is given and differs from the
    secret number, "greater than" that guess when it is below and "less
    than" when it is above; and nothing else.  For the secret number 12 and
    the last guess 5 the list holds the even hint and "greater than 5". *)
Theorem hint_candidates_spec :
  (forall (secret_number : Z) (last_guess : option Z),
     let hints := hint_candidates secret_number last_guess in
     length (filter is_parity_hint hints) = 1%nat /\
     (In "The number is even." hints <-> secret_number mod 2 = 0) /\
     (In "The number is odd." hints <-> secret_number mod 2 = 1) /\
     (length (filter is_divisor_hint hints) <= 1)%nat /\
     (In "It is divisible by 3." hints <->
        secret_number > 10 /\ secret_number mod 3 = 0) /\
     (In "It is divisible by 5." hints <->
        secret_number > 10 /\ secret_number mod 3 <> 0 /\
        secret_number mod 5 = 0) /\
     (In "It is divisible by 7." hints <->
        secret_number > 10 /\ secret_number mod 3 <> 0 /\
        secret_number mod 5 <> 0 /\ secret_number mod 7 = 0) /\
     (forall g, In (greater_msg g) hints <->
        last_guess = Some g /\ g < secret_number) /\
     (forall g, In (less_msg g) hints <->
        last_guess = Some g /\ g > secret_number) /\
     (forall s, In s hints ->
        is_parity_hint s = true \/ is_divisor_hint s = true \/
        exists g, last_guess = Some g /\ g <> secret_number /\
                  (s = greater_msg g \/ s = less_msg g)))
  /\ In "The number is even." (hint_candidates 12 (Some 5))
  /\ In "It's greater than 5." (hint_candidates 12 (Some 5)).
Proof.
  split; [|split; vm_compute; tauto].
  intros n last hints; subst hints.
  destruct (hint_counts n last) as [Hp Hd].
  repeat apply conj; try assumption.
  - intros H; hint_inv H; assumption.
  - intros E; apply in_hint_candidates; auto.
  - intros H; hint_inv H; assumption.
  - intros E; apply in_hint_candidates; auto.
  - intros H; hint_inv H; auto.
  - intros [? ?]; apply in_hint_candidates; right; left; intuition auto.
  - intros H; hint_inv H; auto.
  - intros (? & ? & ?); apply in_hint_candidates; right; left; intuition auto.
  - intros H; hint_inv H; auto.
  - intros (? & ? & ? & ?); apply in_hint_candidates; right; left;
      intuition auto.
  - intros g; split.
    + intros H; hint_inv H.
      match goal with E : greater_msg _ = greater_msg _ |- _ =>
        apply greater_msg_inj in E; subst; auto end.
    + intros [-> ?]; apply in_hint_candidates; right; right; eauto.
  - intros g; split.
    + intros H; hint_inv H.
      match goal with E : less_msg _ = less_msg _ |- _ =>
        apply less_msg_inj in E; subst; auto end.
    + intros [-> ?]; apply in_hint_candidates; right; right; eauto.
  - intros s H. apply in_hint_candidates in H.
    destruct H as [[[-> _]|[-> _]]|[(_ & [[-> _]|[[-> _]|[-> _]]])
                                   |(g & -> & [[-> ?]|[-> ?]])]];
      auto; right; right; exists g; repeat split; auto; lia.
Qed.
(** ** Computations *)

Lemma after_0 (w : world) : after 0 0 [] w = w.
Proof.
  destruct w; unfold after; simpl.
  now rewrite !Nat.add_0_r, app_nil_r.
Qed.

Lemma after_after (n1 d1 n2 d2 : nat) (o1 o2 : list string) (w : world) :
  after n2 d2 o2 (after n1 d1 o1 w) = after (n1 + n2) (d1 + d2) (o1 ++ o2) w.
Proof.
  unfold after; simpl. now rewrite !Nat.add_assoc, app_assoc.
Qed.

Lemma bind_ret {A B : Type} (m : M A) (k : A -> M B) (w w1 : world) (a : A) :
  m w = (Ret a, w1) -> bind m k w = k a w1.
Proof. unfold bind; now intros ->. Qed.

Lemma bind_ret_inv {A B : Type} (m : M A) (k : A -> M B) (w w' : world) (b : B) :
  bind m k w = (Ret b, w') ->
  exists a w1, m w = (Ret a, w1) /\ k a w1 = (Ret b, w').
Proof.
  unfold bind. destruct (m w) as [[a| | |] w1]; try discriminate.
  intros H; now exists a, w1.
Qed.

Lemma print_after (s : string) (w : world) :
  print s w = (Ret tt, after 0 0 [s] w).
Proof. unfold print, after; now rewrite !Nat.add_0_r. Qed.

Lemma input_line (prompt line : string) (w : world) :
  stdin w (cursor w) = Some line ->
  input prompt w = (Ret line, after 1 0 [prompt] w).
Proof.
  intros H. unfold input, bind, print, read_line, after; simpl; rewrite H.
  now rewrite Nat.add_1_r, Nat.add_0_r.
Qed.

Lemma input_eof (prompt : string) (w : world) :
  stdin w (cursor w) = None ->
  input prompt w = (Raise EOFError, after 0 0 [prompt] w).
Proof.
  intros H. unfold input, bind, print, read_line, after; simpl; rewrite H.
  now rewrite !Nat.add_0_r.
Qed.

Lemma next_lines_cons (w : world) (line : string) (typed : list string)
  (d : nat) (out : list string) :
  next_lines w (line :: typed) ->
  stdin w (cursor w) = Some line /\ next_lines (after 1 d out w) typed.
Proof.
  intros H; split.
  - specialize (H 0%nat line eq_refl). now rewrite Nat.add_0_r in H.
  - intros i l Hi. simpl. specialize (H (S i) l Hi).
    now replace (cursor w + 1 + i)%nat with (cursor w + S i)%nat by lia.
Qed.

Section GuessInput.

Context {py : Builtins}.

Lemma get_user_guess_take (fuel : nat) (max_range guess : Z) (line : string)
  (w : world) :
  stdin w (cursor w) = Some line ->
  accepted max_range line = Some guess ->
  get_user_guess (S fuel) max_range w
  = (Ret guess, after 1 0 [guess_prompt max_range] w).
Proof.
  intros Hl Ha. simpl.
  rewrite (bind_ret _ _ _ _ _ (input_line _ _ _ Hl)).
  unfold accepted in Ha. destruct (py_int line) as [g|]; [|discriminate].
  destruct ((1 <=? g) && (g <=? max_range)); [|discriminate].
  now injection Ha as ->.
Qed.

Lemma get_user_guess_again (fuel : nat) (max_range : Z) (line : string)
  (w : world) :
  stdin w (cursor w) = Some line ->
  accepted max_range line = None ->
  get_user_guess (S fuel) max_range w
  = get_user_guess fuel max_range
      (after 1 0 [guess_prompt max_range; complaint max_range line] w).
Proof.
  intros Hl Ha. simpl.
  rewrite (bind_ret _ _ _ _ _ (input_line _ _ _ Hl)).
  unfold accepted in Ha; unfold complaint.
  destruct (py_int line) as [g|].
  - destruct ((1 <=? g) && (g <=? max_range)); [discriminate|].
    rewrite (bind_ret _ _ _ _ _ (print_after _ _)).
    now rewrite after_after.
  - rewrite (bind_ret _ _ _ _ _ (print_after _ _)).
    now rewrite after_after.
Qed.

Lemma get_user_guess_eof (fuel : nat) (max_range : Z) (w : world) :
  stdin w (cursor w) = None ->
  get_user_guess (S fuel) max_range w
  = (Raise EOFError, after 0 0 [guess_prompt max_range] w).
Proof.
  intros Hl. simpl. unfold bind. now rewrite (input_eof _ _ Hl).
Qed.

Lemma accepted_range (max_range guess : Z) (line : string) :
  accepted max_range line = Some guess <->
  py_int line = Some guess /\ 1 <= guess <= max_range.
Proof.
  unfold accepted. destruct (py_int line) as [g|].
  - destruct (Z.leb_spec 1 g), (Z.leb_spec g max_range); simpl;
      split; try discriminate;
      try (intros [= <-]; split; [reflexivity|lia]);
      intros [[= ->] ?]; try reflexivity; lia.
  - split; [discriminate|intros [[=] _]].
Qed.

(** What a call that returns has done: it skipped a run of lines it does
    not take, each answered by a complaint and a new prompt, and took the
    line after them. *)
Lemma get_user_guess_returns (fuel : nat) (max_range guess : Z) (w w' : world) :
  get_user_guess fuel max_range w = (Ret guess, w') ->
  exists (rejected : list string) (line : string),
    next_lines w (rejected ++ [line])%list /\
    Forall (fun l => accepted max_range l = None) rejected /\
    accepted max_range line = Some guess /\
    (length rejected < fuel)%nat /\
    w' = after (S (length rejected)) 0
               (reprompts max_range rejected ++ [guess_prompt max_range]) w.
Proof.
  revert w; induction fuel as [|fuel IH]; intros w H; [discriminate|].
  destruct (stdin w (cursor w)) as [l|] eqn:Hl.
  - destruct (accepted max_range l) as [g|] eqn:Ha.
    + rewrite (get_user_guess_take _ _ _ _ _ Hl Ha) in H.
      injection H as -> <-.
      exists [], l; repeat split; auto with arith.
      intros [|i] line Hi; simpl in Hi.
      * injection Hi as <-. now rewrite Nat.add_0_r.
      * now destruct i.
    + rewrite (get_user_guess_again _ _ _ _ Hl Ha) in H.
      destruct (IH _ H) as (rej & line & Hn & Hr & Hacc & Hlen & ->).
      exists (l :: rej), line; repeat split; auto with arith.
      * intros [|i] x Hi; simpl in Hi.
        -- injection Hi as <-. now rewrite Nat.add_0_r.
        -- specialize (Hn i x Hi). simpl in Hn.
           now replace (cursor w + S i)%nat with (cursor w + 1 + i)%nat by lia.
      * rewrite after_after. reflexivity.
  - rewrite (get_user_guess_eof _ _ _ Hl) in H. discriminate.
Qed.

(** Conversely, a line that can be taken is reached whenever the lines
    before it are there and the budget covers them. *)
Lemma get_user_guess_reaches (fuel : nat) (max_range guess : Z) (w : world)
  (rejected : list string) (line : string) :
  next_lines w (rejected ++ [line])%list ->
  Forall (fun l => accepted max_range l = None) rejected ->
  accepted max_range line = Some guess ->
  (length rejected < fuel)%nat ->
  get_user_guess fuel max_range w
  = (Ret guess, after (S (length rejected)) 0
                      (reprompts max_range rejected ++ [guess_prompt max_range])
                      w).
Proof.
  revert w fuel; induction rejected as [|l rej IH]; intros w fuel Hn Hr Ha Hf;
    (destruct fuel as [|fuel]; [simpl in Hf; lia|]).
  - destruct (next_lines_cons w line [] 0 [] Hn) as [Hl _].
    now rewrite (get_user_guess_take _ _ _ _ _ Hl Ha).
  - simpl app in Hn.
    destruct (next_lines_cons w l _ 0 [guess_prompt max_range; complaint max_range l] Hn)
      as [Hl Hn'].
    inversion Hr as [|? ? Hrl Hr']; subst.
    rewrite (get_user_guess_again _ _ _ _ Hl Hrl).
    rewrite (IH _ fuel Hn' Hr' Ha) by (simpl in Hf; lia).
    now rewrite after_after.
Qed.

End GuessInput.

(** ** The random draws *)

Lemma randbelow_after (n : Z) (w : world) :
  randbelow n w = (Ret (Z.of_nat (rng w (rng_pos w)) mod n), after 0 1 [] w).
Proof.
  unfold randbelow, after; now rewrite Nat.add_0_r, Nat.add_1_r, app_nil_r.
Qed.

Lemma shuffle_from_returns {A : Type} (i : nat) (l : list A) (w : world) :
  exists l', shuffle_from i l w = (Ret l', after 0 i [] w).
Proof.
  revert l w; induction i as [|i IH]; intros l w.
  - exists l. simpl. unfold ret. now rewrite after_0.
  - simpl shuffle_from.
    rewrite (bind_ret _ _ _ _ _ (randbelow_after _ _)).
    match goal with
    | |- exists l', shuffle_from i ?x ?v = _ => destruct (IH x v) as (l' & E)
    end.
    rewrite E.
    exists l'. now rewrite after_after.
Qed.

Lemma bind_assoc {A B C : Type} (m : M A) (k : A -> M B) (k' : B -> M C)
  (w : world) :
  bind (bind m k) k' w = bind m (fun a => bind (k a) k') w.
Proof. unfold bind. now destruct (m w) as [[a| | |] w1]. Qed.

Lemma after_eq (n n' d d' : nat) (o o' : list string) (w : world) :
  n = n' -> d = d' -> o = o' -> after n d o w = after n' d' o' w.
Proof. now intros -> -> ->. Qed.

Section Rounds.

Context {py : Builtins}.

Lemma generate_hint_returns (secret_number attempts : Z) (last : option Z)
  (w : world) :
  exists hint,
    generate_hint secret_number attempts last w
    = (Ret hint,
       after 0 (length (hint_candidates secret_number last) - 1) [] w).
Proof.
  unfold generate_hint, shuffle.
  destruct (shuffle_from_returns
              (length (hint_candidates secret_number last) - 1)
              (hint_candidates secret_number last) w) as (l' & E).
  rewrite (bind_ret _ _ _ _ _ E). eexists; reflexivity.
Qed.

Lemma next_lines_after_0 (w : world) (d : nat) (out typed : list string) :
  next_lines (after 0 d out w) typed -> next_lines w typed.
Proof.
  intros H i line Hi. specialize (H i line Hi). simpl in H.
  now rewrite Nat.add_0_r in H.
Qed.

(** A pass through the loop body that ends normally: some lines were
    turned down, one was taken as the guess; the counter went up by one;
    the pass ends the loop exactly on a right guess, and prints a hint
    exactly when [hint_due] says so after a wrong one. *)
Lemma guess_round_returns (budget : nat) (player_name : string)
  (secret_number max_attempts max_range : Z) (st st' : session)
  (sig : signal) (w w' : world) :
  guess_round budget player_name secret_number max_attempts max_range st w
  = (Ret (sig, st'), w') ->
  exists (rejected : list string) (line : string) (guess : Z)
         (draws : nat) (tail : list string),
    next_lines w (rejected ++ [line])%list /\
    Forall (fun l => accepted max_range l = None) rejected /\
    accepted max_range line = Some guess /\
    attempts_made st' = attempts_made st + 1 /\
    last_guess st' = Some guess /\
    w' = after (S (length rejected)) draws
               (attempts_left_line max_attempts (attempts_made st)
                  :: reprompts max_range rejected
                  ++ guess_prompt max_range :: tail) w /\
    ((guess = secret_number /\ sig = Break /\ game_won st' = true /\
      tail = [congratulations player_name secret_number (attempts_made st')])
     \/
     (guess <> secret_number /\ sig = Continue /\ game_won st' = game_won st /\
      exists hint,
        tail = verdict guess secret_number ::
               (if hint_due (attempts_made st') (game_won st)
                then [hint_line hint] else []))).
Proof.
  unfold guess_round. intros H.
  rewrite (bind_ret _ _ _ _ _ (print_after _ _)) in H.
  apply bind_ret_inv in H as (guess & w1 & Hg & H).
  apply get_user_guess_returns in Hg
    as (rejected & line & Hn & Hr & Ha & _ & ->).
  apply next_lines_after_0 in Hn.
  rewrite after_after in H.
  exists rejected, line, guess.
  destruct (Z.eqb_spec guess secret_number) as [E|E].
  - rewrite (bind_ret _ _ _ _ _ (print_after _ _)) in H.
    rewrite after_after in H. injection H as <- <- <-.
    exists 0%nat,
      [congratulations player_name secret_number (attempts_made st + 1)].
    repeat split; auto.
    apply after_eq; [lia | lia |].
    cbn [app]. now rewrite <- app_assoc.
  - rewrite (bind_ret _ _ _ _ _ (print_after _ _)) in H.
    rewrite after_after in H.
    destruct (hint_due (attempts_made st + 1) (game_won st)) eqn:Hd.
    + rewrite bind_assoc in H.
      match type of H with
      | bind (generate_hint ?s ?a ?l) _ ?v = _ =>
          destruct (generate_hint_returns s a l v) as (hint & Eh)
      end.
      rewrite (bind_ret _ _ _ _ _ Eh) in H.
      rewrite (bind_ret _ _ _ _ _ (print_after _ _)) in H.
      unfold ret in H.
      rewrite !after_after in H. injection H as <- <- <-.
      eexists _, [verdict guess secret_number; hint_line hint].
      repeat split; auto.
      * apply after_eq; [lia | reflexivity |].
        cbn [app]. now rewrite <- !app_assoc.
      * right; repeat split; auto. exists hint.
        cbn [attempts_made]. now rewrite Hd.
    + unfold ret at 1 in H. cbv beta iota in H.
      unfold bind at 1, ret at 1 in H. injection H as <- <- <-.
      exists 0%nat, [verdict guess secret_number].
      repeat split; auto.
      * apply after_eq; [lia | lia |].
        cbn [app]. now rewrite <- !app_assoc.
      * right; repeat split; auto. exists "".
        cbn [attempts_made]. now rewrite Hd.
Qed.

End Rounds.

Section Sessions.

Context {py : Builtins}.

(** *** The hint cadence *)

Lemma hint_due_iff (attempts : Z) (won : bool) :
  hint_due attempts won = true <->
  won = false /\ exists k, 1 <= k /\ attempts = 2 * k + 1.
Proof.
  unfold hint_due.
  rewrite !andb_true_iff, orb_true_iff, andb_true_iff, negb_true_iff.
  rewrite Z.geb_le, Z.gtb_lt, !Z.eqb_eq.
  split.
  - intros [[? ?] [->|[? Hm]]]; split; auto.
    + exists 1; lia.
    + exists (attempts / 2). pose proof (Z.div_mod attempts 2). lia.
  - intros [? (k & ? & ->)]. repeat split; auto; try lia.
    destruct (Z.eq_dec k 1) as [->|]; [left; lia|right; split; [lia|]].
    rewrite Z.add_comm, Z.mul_comm, Z.mod_add; [reflexivity|lia].
Qed.

Lemma hint_line_is_hint (h : string) : is_hint_line (hint_line h) = true.
Proof. unfold is_hint_line, hint_line; cbn. now destruct h. Qed.

Lemma reprompts_no_hint (max_range : Z) (rejected : list string) :
  filter is_hint_line (reprompts max_range rejected) = [].
Proof.
  induction rejected as [|l r IH]; [reflexivity|].
  cbn [reprompts filter]. rewrite IH.
  unfold complaint; destruct (py_int l); reflexivity.
Qed.

(** C4. A pass through the guessing loop prints at most one hint, and it
    prints one exactly when the guess was wrong, the round was not won, and
    the attempt count it has just reached is one of 3, 5, 7, 9, ...; so no
    hint comes at an even count, nor at the first or the second attempt. *)
Theorem hint_cadence (budget : nat) (player_name : string)
  (secret_number max_attempts max_range : Z) (st st' : session)
  (sig : signal) (w w' : world) :
  guess_round budget player_name secret_number max_attempts max_range st w
  = (Ret (sig, st'), w') ->
  exists printed,
    stdout w' = (stdout w ++ printed)%list /\
    ((exists hint, filter is_hint_line printed = [hint_line hint]) \/
     filter is_hint_line printed = []) /\
    (filter is_hint_line printed <> [] <->
     last_guess st' <> Some secret_number /\ game_won st = false /\
     exists k, 1 <= k /\ attempts_made st' = 2 * k + 1) /\
    (attempts_made st' mod 2 = 0 \/ attempts_made st' = 1 ->
     filter is_hint_line printed = []).
Proof.
  intros H.
  apply guess_round_returns in H
    as (rejected & line & guess & draws & tail & _ & _ & _ & Ha & Hl & -> & Ht).
  eexists; split; [reflexivity|].
  assert (Hf : filter is_hint_line
                 (attempts_left_line max_attempts (attempts_made st)
                    :: reprompts max_range rejected
                    ++ guess_prompt max_range :: tail)
               = filter is_hint_line tail).
  { change (attempts_left_line max_attempts (attempts_made st)
              :: reprompts max_range rejected
              ++ guess_prompt max_range :: tail)
      with ([attempts_left_line max_attempts (attempts_made st)]
              ++ reprompts max_range rejected
              ++ [guess_prompt max_range] ++ tail)%list.
    rewrite !filter_app, reprompts_no_hint. reflexivity. }
  rewrite Hf, Hl.
  destruct Ht as [(-> & _ & _ & ->)|(Hw & _ & _ & hint & ->)].
  - assert (Hc : filter is_hint_line
                   [congratulations player_name secret_number (attempts_made st')]
                 = []) by reflexivity.
    rewrite Hc. split; [now right|]. split; [|reflexivity].
    split; [intros []; reflexivity|intros (Hn & _); now destruct Hn].
  - assert (Hv : is_hint_line (verdict guess secret_number) = false)
      by (unfold verdict; destruct (guess <? secret_number); reflexivity).
    cbn [filter]. rewrite Hv.
    destruct (hint_due (attempts_made st') (game_won st)) eqn:Hd.
    + cbn [filter]. rewrite hint_line_is_hint.
      apply hint_due_iff in Hd as [Hwon Hk].
      split; [left; now exists hint|]. split; [split|].
      * intros _. repeat split; auto. congruence.
      * discriminate.
      * destruct Hk as (k & ? & E); rewrite E. intros [Hm|Hm]; exfalso.
        -- rewrite Z.add_comm, Z.mul_comm, Z.mod_add in Hm by lia.
           discriminate.
        -- lia.
    + cbn [filter]. split; [now right|]. split; [split|reflexivity].
      * intros []; reflexivity.
      * intros (_ & Hwon & Hk).
        assert (hint_due (attempts_made st') (game_won st) = true)
          by (apply hint_due_iff; auto).
        congruence.
Qed.

(** *** Reading a guess *)

Lemma accepted_none (max_range : Z) (line : string) :
  accepted max_range line = None <->
  py_int line = None \/
  exists n, py_int line = Some n /\ (n < 1 \/ max_range < n).
Proof.
  unfold accepted. destruct (py_int line) as [g|].
  - destruct (Z.leb_spec 1 g), (Z.leb_spec g max_range); simpl; split;
      try discriminate; try (intros _; reflexivity);
      try (intros _; right; exists g; split; auto; lia).
    intros [[=]|(n & [= <-] & ?)]; lia.
  - split; auto.
Qed.

(** C8. [get_user_guess] returns only after it has read a line that [int]
    parses to an integer between 1 and the range, and it returns that
    integer; every line before it was not an integer or was out of range,
    and was answered by a complaint and a new prompt.  Such a line is
    always reached when the lines before it are there to be read.  In a
    pass through the guessing loop the lines turned down leave the attempt
    counter alone: it goes up by exactly one, for the guess taken. *)
Theorem guess_input_validation :
  (forall (fuel : nat) (max_range guess : Z) (w w' : world),
     get_user_guess fuel max_range w = (Ret guess, w') ->
     exists (rejected : list string) (line : string),
       next_lines w (rejected ++ [line])%list /\
       cursor w' = (cursor w + length rejected + 1)%nat /\
       Forall (fun l => py_int l = None \/
                        exists n, py_int l = Some n /\ (n < 1 \/ max_range < n))
              rejected /\
       py_int line = Some guess /\ 1 <= guess <= max_range /\
       stdout w' = (stdout w ++ reprompts max_range rejected
                             ++ [guess_prompt max_range])%list) /\
  (forall (fuel : nat) (max_range guess : Z) (w : world)
          (rejected : list string) (line : string),
     next_lines w (rejected ++ [line])%list ->
     Forall (fun l => accepted max_range l = None) rejected ->
     py_int line = Some guess -> 1 <= guess <= max_range ->
     (length rejected < fuel)%nat ->
     fst (get_user_guess fuel max_range w) = Ret guess) /\
  (forall (budget : nat) (player_name : string)
          (secret_number max_attempts max_range : Z) (st st' : session)
          (sig : signal) (w w' : world),
     guess_round budget player_name secret_number max_attempts max_range st w
     = (Ret (sig, st'), w') ->
     exists (rejected : list string) (line : string) (guess : Z),
       next_lines w (rejected ++ [line])%list /\
       cursor w' = (cursor w + length rejected + 1)%nat /\
       Forall (fun l => accepted max_range l = None) rejected /\
       accepted max_range line = Some guess /\
       last_guess st' = Some guess /\
       attempts_made st' = attempts_made st + 1).
Proof.
  repeat apply conj.
  - intros fuel max_range guess w w' H.
    apply get_user_guess_returns in H as (rej & line & Hn & Hr & Ha & _ & ->).
    apply accepted_range in Ha as [Hp Hrange].
    exists rej, line; repeat split; auto; try lia.
    + cbn. lia.
    + eapply Forall_impl; [|exact Hr]. intros l. apply accepted_none.
  - intros fuel max_range guess w rej line Hn Hr Hp Hrange Hf.
    rewrite (get_user_guess_reaches fuel max_range guess w rej line); auto.
    apply accepted_range; auto.
  - intros budget name secret max_attempts max_range st st' sig w w' H.
    apply guess_round_returns in H
      as (rej & line & guess & d & tail & Hn & Hr & Ha & Hc & Hl & -> & _).
    exists rej, line, guess; repeat split; auto.
    cbn. lia.
Qed.

(** *** The guessing loop ends *)

Lemma valid_guesses_after (max_range : Z) (w : world) (n d : nat)
  (out : list string) :
  valid_guesses max_range w -> valid_guesses max_range (after n d out w).
Proof.
  intros H i line Hi Hs. apply (H i line); [cbn in Hi; lia|exact Hs].
Qed.

Lemma guess_round_valid (budget : nat) (player_name : string)
  (secret_number max_attempts max_range : Z) (st : session) (w : world) :
  (0 < budget)%nat -> valid_guesses max_range w ->
  (exists w',
     guess_round budget player_name secret_number max_attempts max_range st w
     = (Raise EOFError, w') /\ cursor w' = cursor w) \/
  (exists sig st' w',
     guess_round budget player_name secret_number max_attempts max_range st w
     = (Ret (sig, st'), w') /\ cursor w' = S (cursor w) /\
     attempts_made st' = attempts_made st + 1 /\
     valid_guesses max_range w').
Proof.
  intros Hb Hv. destruct budget as [|budget]; [lia|].
  unfold guess_round.
  rewrite (bind_ret _ _ _ _ _ (print_after _ _)).
  set (w1 := after 0 0 [attempts_left_line max_attempts (attempts_made st)] w).
  assert (Hc : cursor w1 = cursor w) by (cbn; lia).
  assert (Hv1 : valid_guesses max_range w1) by now apply valid_guesses_after.
  destruct (stdin w1 (cursor w1)) as [line|] eqn:Hl.
  - destruct (Hv (cursor w1) line) as (guess & Ha); [lia | exact Hl |].
    rewrite (bind_ret _ _ _ _ _ (get_user_guess_take _ _ _ _ _ Hl Ha)).
    right.
    destruct (Z.eqb_spec guess secret_number).
    + rewrite (bind_ret _ _ _ _ _ (print_after _ _)). unfold ret.
      do 3 eexists; repeat split; [cbn in *; lia|].
      now repeat apply valid_guesses_after.
    + rewrite (bind_ret _ _ _ _ _ (print_after _ _)).
      destruct (hint_due (attempts_made st + 1) (game_won st)).
      * rewrite bind_assoc.
        match goal with
        | |- context [bind (generate_hint ?s ?a ?l) _ ?v] =>
            destruct (generate_hint_returns s a l v) as (hint & Eh)
        end.
        rewrite (bind_ret _ _ _ _ _ Eh).
        rewrite (bind_ret _ _ _ _ _ (print_after _ _)). unfold ret.
        do 3 eexists; repeat split; [cbn in *; lia|].
        now repeat apply valid_guesses_after.
      * unfold bind at 1, ret.
        do 3 eexists; repeat split; [cbn in *; lia|].
        now repeat apply valid_guesses_after.
  - left. unfold bind at 1.
    rewrite (get_user_guess_eof _ _ _ Hl).
    eexists; split; [reflexivity|]. cbn in *; lia.
Qed.

Lemma guess_loop_done (fuel budget : nat) (player_name : string)
  (secret_number max_attempts max_range : Z) (st : session) (w : world) :
  max_attempts <= attempts_made st ->
  guess_loop fuel budget player_name secret_number max_attempts max_range st w
  = (Ret st, w).
Proof.
  intros H. destruct fuel; simpl;
    destruct (Z.ltb_spec (attempts_made st) max_attempts); try lia; reflexivity.
Qed.

Lemma guess_loop_step (fuel budget : nat) (player_name : string)
  (secret_number max_attempts max_range : Z) (st : session) (w : world) :
  attempts_made st < max_attempts ->
  guess_loop (S fuel) budget player_name secret_number max_attempts max_range
             st w
  = bind (guess_round budget player_name secret_number max_attempts max_range
                      st)
         (fun r =>
            match r with
            | (Break, st') => ret st'
            | (Continue, st') =>
                guess_loop fuel budget player_name secret_number max_attempts
                           max_range st'
            end) w.
Proof.
  intros H. simpl.
  destruct (Z.ltb_spec (attempts_made st) max_attempts); [reflexivity|lia].
Qed.

Lemma guess_loop_bounded (fuel budget : nat) (player_name : string)
  (secret_number max_attempts max_range : Z) (st : session) (w : world) :
  (0 < budget)%nat -> valid_guesses max_range w ->
  attempts_made st <= max_attempts ->
  (Z.to_nat (max_attempts - attempts_made st) <= fuel)%nat ->
  (exists w',
     guess_loop fuel budget player_name secret_number max_attempts max_range
                st w = (Raise EOFError, w') /\
     (cursor w' < cursor w + Z.to_nat (max_attempts - attempts_made st))%nat)
  \/
  (exists st' w',
     guess_loop fuel budget player_name secret_number max_attempts max_range
                st w = (Ret st', w') /\
     attempts_made st <= attempts_made st' <= max_attempts /\
     cursor w' = (cursor w + Z.to_nat (attempts_made st' - attempts_made st))%nat).
Proof.
  intros Hb. revert st w.
  induction fuel as [|fuel IH]; intros st w Hv Hle Hf.
  - right. exists st, w. rewrite guess_loop_done by lia.
    repeat split; lia.
  - destruct (Z.lt_ge_cases (attempts_made st) max_attempts) as [Hlt|Hge].
    + rewrite guess_loop_step by assumption.
      destruct (guess_round_valid budget player_name secret_number max_attempts
                  max_range st w Hb Hv)
        as [(w' & E & Hc)|(sig & st' & w' & E & Hc & Ha & Hv')].
      * left. exists w'. unfold bind; rewrite E. split; [reflexivity|lia].
      * rewrite (bind_ret _ _ _ _ _ E). destruct sig.
        -- destruct (IH st' w' Hv') as [(w2 & E2 & Hc2)|(st2 & w2 & E2 & Ha2 & Hc2)];
             try lia.
           ++ left. exists w2. split; [exact E2|lia].
           ++ right. exists st2, w2. split; [exact E2|]. split; [lia|].
              rewrite Hc2, Hc. lia.
        -- right. exists st', w'. split; [reflexivity|]. split; [lia|].
           rewrite Hc, Ha. replace (attempts_made st + 1 - attempts_made st)
             with 1 by lia. simpl. lia.
    + right. exists st, w. rewrite guess_loop_done by lia.
      repeat split; lia.
Qed.

Lemma visits_bounded (budget : nat) (player_name : string)
  (secret_number max_attempts max_range : Z) (st0 st : session)
  (w0 w : world) :
  attempts_made st0 <= max_attempts ->
  visits budget player_name secret_number max_attempts max_range st0 w0 st w ->
  attempts_made st0 <= attempts_made st <= max_attempts.
Proof.
  intros H0 Hv. induction Hv as [|st st' w w' _ IH Hlt E]; [lia|].
  apply guess_round_returns in E
    as (_ & _ & _ & _ & _ & _ & _ & _ & Ha & _).
  lia.
Qed.

(** The state a run of the loop returns is one the loop visited and left
    because the tries were used up, or the one a winning pass made. *)
Lemma guess_loop_final (fuel budget : nat) (player_name : string)
  (secret_number max_attempts max_range : Z) (st0 st1 final : session)
  (w0 w1 w' : world) :
  visits budget player_name secret_number max_attempts max_range st0 w0 st1 w1 ->
  guess_loop fuel budget player_name secret_number max_attempts max_range st1 w1
  = (Ret final, w') ->
  (visits budget player_name secret_number max_attempts max_range st0 w0
          final w' /\ max_attempts <= attempts_made final) \/
  (exists st2 w2,
     visits budget player_name secret_number max_attempts max_range st0 w0
            st2 w2 /\
     attempts_made st2 < max_attempts /\
     guess_round budget player_name secret_number max_attempts max_range st2 w2
     = (Ret (Break, final), w')).
Proof.
  revert st1 w1. induction fuel as [|fuel IH]; intros st1 w1 Hv H.
  - destruct (Z.lt_ge_cases (attempts_made st1) max_attempts) as [Hlt|Hge].
    + simpl in H. destruct (Z.ltb_spec (attempts_made st1) max_attempts);
        [discriminate|lia].
    + rewrite guess_loop_done in H by lia. injection H as <- <-. now left.
  - destruct (Z.lt_ge_cases (attempts_made st1) max_attempts) as [Hlt|Hge].
    + rewrite guess_loop_step in H by assumption.
      apply bind_ret_inv in H as ([[|] st2] & w2 & E & H).
      * apply (IH st2 w2); [|exact H]. now apply (visits_round _ _ _ _ _ _ _ st1 st2 w1 w2).
      * injection H as <- <-. right. now exists st1, w1.
    + rewrite guess_loop_done in H by lia. injection H as <- <-. now left.
Qed.

(** C6. With a positive number of tries and only valid guesses to read
    (finitely many, or without end), the guessing loop is over after at most
    [max_attempts] passes: it never needs more than that many rounds, and it
    reads one guess per pass.  It ends by returning, or, when the guesses
    run out first, at the end of the input.  The attempt counter stays
    between 0 and [max_attempts] in every state the loop passes through and
    in the state a pass leaves it in; the state a run returns is one of
    these. *)
Theorem guess_loop_terminates (budget : nat) (player_name : string)
  (secret_number max_attempts max_range : Z) (w : world) :
  0 < max_attempts -> (0 < budget)%nat -> valid_guesses max_range w ->
  let entry := mkSession 0 None false in
  let run :=
    guess_loop (Z.to_nat max_attempts) budget player_name secret_number
               max_attempts max_range entry w in
  ((exists w', run = (Raise EOFError, w') /\
               (cursor w' < cursor w + Z.to_nat max_attempts)%nat) \/
   (exists final w',
      run = (Ret final, w') /\
      0 <= attempts_made final <= max_attempts /\
      cursor w' = (cursor w + Z.to_nat (attempts_made final))%nat)) /\
  (forall st1 w1,
     visits budget player_name secret_number max_attempts max_range entry w
            st1 w1 ->
     0 <= attempts_made st1 <= max_attempts /\
     forall sig st2 w2,
       attempts_made st1 < max_attempts ->
       guess_round budget player_name secret_number max_attempts max_range
                   st1 w1 = (Ret (sig, st2), w2) ->
       0 <= attempts_made st2 <= max_attempts) /\
  (forall fuel final w',
     guess_loop fuel budget player_name secret_number max_attempts max_range
                entry w = (Ret final, w') ->
     visits budget player_name secret_number max_attempts max_range entry w
            final w' \/
     exists st1 w1,
       visits budget player_name secret_number max_attempts max_range entry w
              st1 w1 /\
       attempts_made st1 < max_attempts /\
       guess_round budget player_name secret_number max_attempts max_range
                   st1 w1 = (Ret (Break, final), w')).
Proof.
  intros Hmax Hb Hv entry run. repeat apply conj.
  - destruct (guess_loop_bounded (Z.to_nat max_attempts) budget player_name
                secret_number max_attempts max_range entry w Hb Hv)
      as [(w' & E & Hc)|(final & w' & E & Ha & Hc)];
      try (cbn; lia).
    + left. exists w'. split; [exact E|].
      cbn in Hc. now rewrite Z.sub_0_r in Hc.
    + right. exists final, w'. split; [exact E|]. cbn in Ha, Hc.
      rewrite Z.sub_0_r in Hc. auto.
  - intros st1 w1 Hvis.
    apply visits_bounded in Hvis; [|cbn; lia]. cbn in Hvis.
    split; [exact Hvis|].
    intros sig st2 w2 Hlt E.
    apply guess_round_returns in E
      as (_ & _ & _ & _ & _ & _ & _ & _ & Ha & _).
    lia.
  - intros fuel final w' H.
    destruct (guess_loop_final fuel budget player_name secret_number
                max_attempts max_range entry entry final w w w'
                (visits_entry _ _ _ _ _ _ _) H) as [[Hvis _]|Hbreak].
    + now left.
    + now right.
Qed.

End Sessions.

(** ** Sorting by key *)

Lemma rbind_ret_inv {A B : Type} (r : result A) (k : A -> result B) (b : B) :
  rbind r k = Ret b -> exists a, r = Ret a /\ k a = Ret b.
Proof. destruct r as [a| | |]; try discriminate. intros H; now exists a. Qed.

Lemma string_ltb_asym (s t : string) :
  String.ltb s t = true -> String.ltb t s = false.
Proof.
  unfold String.ltb. rewrite (String.compare_antisym t s).
  now destruct (String.compare s t).
Qed.

Lemma float_lt_asym (x y : pyfloat) :
  float_lt x y = true -> float_lt y x = false.
Proof.
  destruct x as [|[|]|m1 e1], y as [|[|]|m2 e2]; cbn [float_lt];
    try discriminate; try reflexivity.
  cbv zeta. rewrite (Z.min_comm e2 e1). intros H.
  apply Z.ltb_lt in H. apply Z.ltb_ge. lia.
Qed.

Lemma py_lt_asym (a b : json) : py_lt a b = Ret true -> py_lt b a = Ret false.
Proof.
  unfold py_lt.
  destruct (as_int a) as [m|] eqn:Ea, (as_int b) as [n|] eqn:Eb;
    [intros [= H]; f_equal; apply Z.ltb_lt in H; apply Z.ltb_ge; lia|..];
    (destruct (as_float a) as [x|] eqn:Fa, (as_float b) as [y|] eqn:Fb;
     [intros [= H]; f_equal; now apply float_lt_asym|..]);
    destruct a, b; try discriminate;
    intros [= H]; f_equal; now apply string_ltb_asym.
Qed.

Lemma py_lt_int (m n : Z) : py_lt (JInt m) (JInt n) = Ret (m <? n).
Proof. reflexivity. Qed.

Lemma insert_keyed_sorted (p : json * json) (l l' : list (json * json)) :
  Sorted pair_le l -> insert_keyed p l = Ret l' ->
  Sorted pair_le l' /\ (forall q, HdRel pair_le q l -> pair_le q p ->
                                  HdRel pair_le q l').
Proof.
  revert l'; induction l as [|q rest IH]; intros l' Hs H; simpl in H.
  - injection H as <-. split; [repeat constructor|]. intros; now constructor.
  - apply rbind_ret_inv in H as (b & Hb & H).
    apply Sorted_inv in Hs as [Hs Hh].
    destruct b.
    + apply rbind_ret_inv in H as (r & Hr & [= <-]).
      destruct (IH r Hs Hr) as [Hsr Hhd].
      split.
      * constructor; [exact Hsr|]. apply Hhd; [exact Hh|].
        unfold pair_le. now apply py_lt_asym.
      * intros q0 Hq0 _. constructor. now apply HdRel_inv in Hq0.
    + injection H as <-. split.
      * repeat constructor; auto.
      * intros q0 _ Hq0. now constructor.
Qed.

Lemma sort_keyed_sorted (l l' : list (json * json)) :
  sort_keyed l = Ret l' -> Sorted pair_le l'.
Proof.
  revert l'; induction l as [|p rest IH]; intros l' H; simpl in H.
  - injection H as <-. constructor.
  - apply rbind_ret_inv in H as (s & Hs & H).
    exact (proj1 (insert_keyed_sorted p s l' (IH s Hs) H)).
Qed.

Lemma insert_keyed_perm (p : json * json) (l l' : list (json * json)) :
  insert_keyed p l = Ret l' -> Permutation (p :: l) l'.
Proof.
  revert l'; induction l as [|q rest IH]; intros l' H; simpl in H.
  - now injection H as <-.
  - apply rbind_ret_inv in H as ([|] & _ & H).
    + apply rbind_ret_inv in H as (r & Hr & [= <-]).
      rewrite perm_swap. constructor. now apply IH.
    + now injection H as <-.
Qed.

Lemma sort_keyed_perm (l l' : list (json * json)) :
  sort_keyed l = Ret l' -> Permutation l l'.
Proof.
  revert l'; induction l as [|p rest IH]; intros l' H; simpl in H.
  - now injection H as <-.
  - apply rbind_ret_inv in H as (s & Hs & H).
    rewrite (IH s Hs). now apply insert_keyed_perm.
Qed.

Lemma ascending_run_cons (p q : json * json) (rest : list (json * json)) :
  ascending_run (p :: q :: rest)
  = rbind (py_lt (fst q) (fst p)) (fun b =>
    if b then Ret false else ascending_run (q :: rest)).
Proof. reflexivity. Qed.

Lemma ascending_run_sorted (l : list (json * json)) :
  ascending_run l = Ret true -> Sorted pair_le l.
Proof.
  induction l as [|p rest IH]; intros H; [constructor|].
  destruct rest as [|q rest]; [repeat constructor|].
  rewrite ascending_run_cons in H.
  apply rbind_ret_inv in H as ([|] & Hb & H); [discriminate|].
  constructor; [now apply IH|]. constructor. exact Hb.
Qed.

(** However the keys were arranged, the result is in order and holds the
    same pairs. *)
Lemma arrange_sorted (ks s : list (json * json)) :
  arrange ks = Ret s -> Sorted pair_le s /\ Permutation ks s.
Proof.
  unfold arrange. destruct (existsb _ ks); intros H.
  - apply rbind_ret_inv in H as ([|] & Hr & H); [|discriminate].
    injection H as <-. split; [now apply ascending_run_sorted|reflexivity].
  - split; [now apply sort_keyed_sorted with ks|now apply sort_keyed_perm].
Qed.

Lemma compute_keys_keyed (l : list json) (ks : list (json * json)) :
  compute_keys attempts_key l = Ret ks ->
  map snd ks = l /\ Forall keyed ks.
Proof.
  revert ks; induction l as [|x rest IH]; intros ks H; simpl in H.
  - injection H as <-. split; constructor.
  - apply rbind_ret_inv in H as (k & Hk & H).
    apply rbind_ret_inv in H as (ks' & Hks & [= <-]).
    destruct (IH ks' Hks) as [Hm Hf]. split.
    + simpl. now rewrite Hm.
    + constructor; [exact Hk|exact Hf].
Qed.

Lemma sorted_pairs_items (ks : list (json * json)) :
  Forall keyed ks -> Sorted pair_le ks -> Sorted key_le (map snd ks).
Proof.
  intros Hk Hs. induction Hs as [|p l Hs IH Hh]; [constructor|].
  apply Forall_cons_iff in Hk as [Hp Hl].
  simpl. constructor; [now apply IH|].
  destruct Hh as [|q l Hpq]; simpl; constructor.
  apply Forall_cons_iff in Hl as [Hq _].
  exists (fst p), (fst q). auto.
Qed.

(** What [sorted] and [list.sort] return is in order and holds the same
    items. *)
Lemma sorted_by_sorted (l l' : list json) :
  sorted_by attempts_key l = Ret l' ->
  Sorted key_le l' /\ Permutation l l'.
Proof.
  unfold sorted_by. intros H.
  apply rbind_ret_inv in H as (ks & Hks & H).
  apply rbind_ret_inv in H as (s & Hs & [= <-]).
  destruct (compute_keys_keyed l ks Hks) as [Hm Hk].
  destruct (arrange_sorted ks s Hs) as [Hsorted Hperm].
  split.
  - apply sorted_pairs_items; [|exact Hsorted].
    eapply Permutation_Forall; [|exact Hk]. exact Hperm.
  - rewrite <- Hm. now apply Permutation_map.
Qed.

Lemma compute_keys_int (l : list json) :
  Forall int_keyed l ->
  exists ks, compute_keys attempts_key l = Ret ks /\ Forall int_pair ks.
Proof.
  induction 1 as [|x rest (n & Hx) _ (ks & Hks & Hf)]; simpl.
  - exists []. split; constructor.
  - rewrite Hx, Hks. simpl. eexists; split; [reflexivity|].
    constructor; [exists n; auto|exact Hf].
Qed.

Lemma insert_keyed_int (p : json * json) (l : list (json * json)) :
  int_pair p -> Forall int_pair l -> exists l', insert_keyed p l = Ret l'.
Proof.
  intros (n & Hn & _). induction 1 as [|q rest (m & Hm & _) _ (r & Hr)]; simpl.
  - eexists; reflexivity.
  - rewrite Hn, Hm, py_lt_int. simpl.
    destruct (m <? n); [rewrite Hr; simpl|]; eexists; reflexivity.
Qed.

Lemma sort_keyed_int (l : list (json * json)) :
  Forall int_pair l -> exists l', sort_keyed l = Ret l'.
Proof.
  induction 1 as [|p rest Hp Hrest (s & Hs)]; simpl.
  - eexists; reflexivity.
  - rewrite Hs. simpl. apply insert_keyed_int; [exact Hp|].
    eapply Permutation_Forall; [|exact Hrest]. now apply sort_keyed_perm.
Qed.

(** Integer keys hold no NaN: they are arranged by the stable sort. *)
Lemma arrange_int (ks : list (json * json)) :
  Forall int_pair ks -> arrange ks = sort_keyed ks.
Proof.
  intros H. unfold arrange.
  replace (existsb (fun p => is_nan (fst p)) ks) with false; [reflexivity|].
  symmetry. induction H as [|p rest (n & Hn & _) _ IH]; [reflexivity|].
  cbn [existsb]. now rewrite Hn, IH.
Qed.

Lemma attempts_le_trans : Relations_1.Transitive attempts_le.
Proof.
  intros x y z (m & n & Hx & Hy & Hmn) (n' & p & Hy' & Hz & Hnp).
  rewrite Hy in Hy'. injection Hy' as <-.
  exists m, p. repeat split; auto. lia.
Qed.

Lemma key_le_int (x y : json) :
  int_keyed x -> int_keyed y -> key_le x y -> attempts_le x y.
Proof.
  intros (m & Hm) (n & Hn) (kx & ky & Hx & Hy & Hlt).
  rewrite Hm in Hx; rewrite Hn in Hy.
  injection Hx as <-; injection Hy as <-.
  exists m, n. repeat split; auto.
  rewrite py_lt_int in Hlt. injection Hlt as Hlt. apply Z.ltb_ge in Hlt. lia.
Qed.

Lemma sorted_int_keyed (l : list json) :
  Forall int_keyed l -> Sorted key_le l -> StronglySorted attempts_le l.
Proof.
  intros Hk Hs. apply Sorted_StronglySorted; [exact attempts_le_trans|].
  induction Hs as [|x l Hs IH Hh]; [constructor|].
  apply Forall_cons_iff in Hk as [Hx Hl].
  constructor; [now apply IH|].
  destruct Hh as [|y l Hxy]; constructor.
  apply Forall_cons_iff in Hl as [Hy _]. now apply key_le_int.
Qed.

Lemma sorted_by_int (l : list json) :
  Forall int_keyed l ->
  exists l', sorted_by attempts_key l = Ret l' /\
             Permutation l l' /\ Forall int_keyed l' /\
             StronglySorted attempts_le l'.
Proof.
  intros Hl.
  destruct (compute_keys_int l Hl) as (ks & Hks & Hf).
  destruct (sort_keyed_int ks Hf) as (s & Hs).
  assert (E : sorted_by attempts_key l = Ret (map snd s))
    by (unfold sorted_by; rewrite Hks; cbn [rbind];
        now rewrite (arrange_int ks Hf), Hs).
  destruct (sorted_by_sorted _ _ E) as [Hsorted Hperm].
  assert (Hl' : Forall int_keyed (map snd s))
    by (eapply Permutation_Forall; eauto).
  exists (map snd s); repeat split; auto.
  now apply sorted_int_keyed.
Qed.

Lemma rbind_sort_error {A B : Type} (r : result A) (k : A -> result B) :
  sort_error r -> (forall a, sort_error (k a)) -> sort_error (rbind r k).
Proof.
  unfold sort_error. intros [Hf Hr] Hk.
  destruct r as [a|e| |]; simpl.
  - apply Hk.
  - split; [discriminate|]. intros e' [= <-]. now apply Hr.
  - now destruct Hf.
  - split; discriminate.
Qed.

Lemma ret_sort_error {A : Type} (a : A) : sort_error (Ret a).
Proof. split; discriminate. Qed.

Lemma py_lt_sort_error (a b : json) : sort_error (py_lt a b).
Proof.
  unfold sort_error, py_lt.
  destruct (as_int a), (as_int b); [split; discriminate|..];
    (destruct (as_float a), (as_float b); [split; discriminate|..]);
    destruct a, b; split; try discriminate; intros e [= <-]; auto.
Qed.

Lemma attempts_key_sort_error (x : json) : sort_error (attempts_key x).
Proof.
  unfold sort_error, attempts_key, subscript.
  destruct x; try (split; [discriminate|]; intros e [= <-]; auto).
  destruct (lookup _ _); split; try discriminate. intros e [= <-]; auto.
Qed.

Lemma sorted_by_sort_error (l : list json) :
  sort_error (sorted_by attempts_key l).
Proof.
  unfold sorted_by. apply rbind_sort_error.
  - induction l as [|x rest IH]; simpl; [apply ret_sort_error|].
    apply rbind_sort_error; [apply attempts_key_sort_error|].
    intros k. apply rbind_sort_error; [exact IH|intros; apply ret_sort_error].
  - intros ks. apply rbind_sort_error; [|intros; apply ret_sort_error].
    unfold arrange. destruct (existsb _ ks).
    + apply rbind_sort_error;
        [|intros [|]; [apply ret_sort_error|split; discriminate]].
      induction ks as [|p rest IH]; [apply ret_sort_error|].
      destruct rest as [|q rest]; [apply ret_sort_error|].
      rewrite ascending_run_cons.
      apply rbind_sort_error; [apply py_lt_sort_error|].
      intros [|]; [apply ret_sort_error|exact IH].
    + induction ks as [|p rest IH]; simpl; [apply ret_sort_error|].
      apply rbind_sort_error; [exact IH|]. clear IH. intros s.
      induction s as [|q s IH]; simpl; [apply ret_sort_error|].
      apply rbind_sort_error; [apply py_lt_sort_error|].
      intros [|]; [|apply ret_sort_error].
      apply rbind_sort_error; [exact IH|intros; apply ret_sort_error].
Qed.

Lemma py_sorted_sort_error (v : json) : sort_error (py_sorted attempts_key v).
Proof.
  unfold py_sorted. apply rbind_sort_error.
  - destruct v; try apply ret_sort_error;
      (split; [discriminate|]; intros e [= <-]; auto).
  - apply sorted_by_sort_error.
Qed.

(** ** Loading and saving *)

Lemma load_absent (w : world) :
  file w = None -> load_high_scores w = (Ret [], w).
Proof.
  intros H. unfold load_high_scores, bind, file_exists. now rewrite H.
Qed.

Lemma load_undecodable (w : world) :
  file w = Some Undecodable ->
  load_high_scores w = (Ret [], after 0 0 [warning_msg] w).
Proof.
  intros H. unfold load_high_scores, bind, file_exists. rewrite H.
  unfold try_except, bind, read_json. rewrite H.
  now rewrite print_after.
Qed.

Lemma load_document (w : world) (v : json) :
  file w = Some (Document v) ->
  load_high_scores w = (py_sorted attempts_key v, w).
Proof.
  intros H. unfold load_high_scores, bind, file_exists. rewrite H.
  unfold try_except, bind, read_json, lift. rewrite H.
  destruct (py_sorted_sort_error v) as [_ Hn].
  destruct (py_sorted attempts_key v) as [l|e| |]; try reflexivity.
  destruct e; try reflexivity.
  now destruct (Hn JSONDecodeError eq_refl).
Qed.

(** A file that cannot be read: the error of [open] or of the decoding of
    the bytes is not the one the handler names, and leaves the load. *)
Lemma load_forbidden (w : world) (msg : string) :
  file w = Some (Forbidden msg) ->
  load_high_scores w = (Raise (OSError msg), w).
Proof.
  intros H. unfold load_high_scores, bind, file_exists. rewrite H.
  unfold try_except, bind, read_json. now rewrite H.
Qed.

Lemma load_garbled (w : world) :
  file w = Some Garbled ->
  load_high_scores w = (Raise UnicodeDecodeError, w).
Proof.
  intros H. unfold load_high_scores, bind, file_exists. rewrite H.
  unfold try_except, bind, read_json. now rewrite H.
Qed.

(** Loading leaves the file and the coming faults as they are. *)
Lemma load_frame (w w' : world) (r : result (list json)) :
  load_high_scores w = (r, w') ->
  file w' = file w /\ faults w' = faults w /\
  exists out, w' = after 0 0 out w.
Proof.
  intros H.
  assert (E : exists out, w' = after 0 0 out w).
  { destruct (file w) as [[|v|msg|]|] eqn:Hf.
    - rewrite (load_undecodable w Hf) in H. injection H as _ <-. now eexists.
    - rewrite (load_document w v Hf) in H. injection H as _ <-.
      exists []. now rewrite after_0.
    - rewrite (load_forbidden w msg Hf) in H. injection H as _ <-.
      exists []. now rewrite after_0.
    - rewrite (load_garbled w Hf) in H. injection H as _ <-.
      exists []. now rewrite after_0.
    - rewrite (load_absent w Hf) in H. injection H as _ <-.
      exists []. now rewrite after_0. }
  destruct E as (out & ->). repeat split. now exists out.
Qed.

(** A load that returns has read the file: a write replaces its content. *)
Lemma load_readable (w w' : world) (l : list json) (c : content) :
  load_high_scores w = (Ret l, w') -> replaced c (file w) = Some c.
Proof.
  intros H. destruct (file w) as [[|v|msg|]|] eqn:Hf; try reflexivity.
  now rewrite (load_forbidden w msg Hf) in H.
Qed.

Lemma load_ok (w : world) :
  board_ok (file w) ->
  exists l w',
    load_high_scores w = (Ret l, w') /\ Forall int_keyed l /\
    StronglySorted attempts_le l.
Proof.
  intros Hb. destruct (file w) as [[|v|msg|]|] eqn:Hf; try now destruct Hb.
  - rewrite (load_undecodable w Hf). do 2 eexists; repeat split; constructor.
  - destruct Hb as (l & -> & Hl).
    destruct (sorted_by_int l Hl) as (l' & E & _ & Hk & Hs).
    rewrite (load_document w _ Hf). unfold py_sorted; cbn [iterate rbind].
    rewrite E.
    do 2 eexists; repeat split; auto.
  - rewrite (load_absent w Hf). do 2 eexists; repeat split; constructor.
Qed.

(** The three ways a write attempt can go. *)
Lemma write_ok (v : json) (w : world) :
  write_succeeds w ->
  write_json v w
  = (Ret tt, set_file (replaced (Document v) (file w)) (tl (faults w)) w).
Proof.
  unfold write_json. intros [H|(rest & H)]; now rewrite H.
Qed.

Lemma write_fault (v : json) (w : world) (f : fault) (rest : list (option fault)) :
  faults w = Some f :: rest ->
  write_json v w
  = (Raise (OSError (fault_msg f)),
     set_file (file_after_fault f (file w)) rest w).
Proof. unfold write_json. intros ->. now destruct f. Qed.

(** [save_high_score] once the leaderboard was read and the new record
    merged in. *)
Lemma save_merged (score : json) (w w1 : world) (scores merged : list json) :
  load_high_scores w = (Ret scores, w1) ->
  sorted_by attempts_key (scores ++ [score]) = Ret merged ->
  save_high_score score w
  = try_except (write_json (JArr merged))
      (fun e => match e with
                | OSError msg => Some (print (save_error_msg msg))
                | _ => None
                end) w1.
Proof.
  intros Hl Hs. unfold save_high_score.
  rewrite (bind_ret _ _ _ _ _ Hl). unfold bind at 1, lift. now rewrite Hs.
Qed.

Lemma save_written (score : json) (w w1 : world) (scores merged : list json) :
  load_high_scores w = (Ret scores, w1) ->
  sorted_by attempts_key (scores ++ [score]) = Ret merged ->
  write_succeeds w ->
  save_high_score score w
  = (Ret tt, set_file (Some (Document (JArr merged))) (tl (faults w)) w1).
Proof.
  intros Hl Hs Hw. rewrite (save_merged _ _ _ _ _ Hl Hs).
  destruct (load_frame _ _ _ Hl) as (Hfile & Hf & _).
  unfold try_except. rewrite write_ok by (unfold write_succeeds; now rewrite Hf).
  now rewrite Hf, Hfile, (load_readable _ _ _ _ Hl).
Qed.

Lemma save_faulted (score : json) (w w1 : world) (scores merged : list json)
  (f : fault) (rest : list (option fault)) :
  load_high_scores w = (Ret scores, w1) ->
  sorted_by attempts_key (scores ++ [score]) = Ret merged ->
  faults w = Some f :: rest ->
  save_high_score score w
  = (Ret tt,
     after 0 0 [save_error_msg (fault_msg f)]
           (set_file (file_after_fault f (file w)) rest w1)).
Proof.
  intros Hl Hs Hw. rewrite (save_merged _ _ _ _ _ Hl Hs).
  destruct (load_frame _ _ _ Hl) as (Hfile & Hf & _).
  unfold try_except. rewrite (write_fault _ _ f rest) by now rewrite Hf.
  now rewrite print_after, Hfile.
Qed.

Lemma make_score_int_keyed (name level : string) (attempts : Z) (date : string) :
  int_keyed (make_score name level attempts date).
Proof. now exists attempts. Qed.

(** A save leaves a file the program copes with, whatever the write met. *)
Lemma save_ok (score : json) (w : world) :
  board_ok (file w) -> int_keyed score ->
  exists w', save_high_score score w = (Ret tt, w') /\ board_ok (file w').
Proof.
  intros Hb Hk.
  destruct (load_ok w Hb) as (scores & w1 & Hl & Hscores & _).
  destruct (sorted_by_int (scores ++ [score])) as (merged & Hs & _ & Hm & _).
  { apply Forall_app; split; [exact Hscores|now constructor]. }
  destruct (load_frame _ _ _ Hl) as (Hfile & _ & _).
  destruct (faults w) as [|[f|] rest] eqn:Hf.
  - rewrite (save_written _ _ _ _ _ Hl Hs) by now left.
    eexists; split; [reflexivity|]. simpl. eauto.
  - rewrite (save_faulted _ _ _ _ _ f rest Hl Hs Hf).
    eexists; split; [reflexivity|]. simpl.
    destruct f; simpl; [exact Hb|].
    now rewrite (load_readable _ _ _ _ Hl).
  - rewrite (save_written _ _ _ _ _ Hl Hs) by (right; eauto).
    eexists; split; [reflexivity|]. simpl. eauto.
Qed.

Lemma save_each_ok (scores : list json) (w : world) :
  board_ok (file w) -> Forall int_keyed scores ->
  exists w', save_each scores w = (Ret tt, w') /\ board_ok (file w').
Proof.
  intros Hb Hs. revert w Hb.
  induction Hs as [|score rest Hscore _ IH]; intros w Hb; simpl.
  - now exists w.
  - destruct (save_ok score w Hb Hscore) as (w1 & E & Hb1).
    rewrite (bind_ret _ _ _ _ _ E). now apply IH.
Qed.

Lemma load_no_fuel (w : world) : fst (load_high_scores w) <> OutOfFuel.
Proof.
  destruct (file w) as [[|v|msg|]|] eqn:Hf.
  - now rewrite (load_undecodable w Hf).
  - rewrite (load_document w v Hf). apply py_sorted_sort_error.
  - now rewrite (load_forbidden w msg Hf).
  - now rewrite (load_garbled w Hf).
  - now rewrite (load_absent w Hf).
Qed.

(** How [save_high_score] ends: where the load or the sort does, when
    these do not return; normally otherwise, whatever the write meets. *)
Lemma save_outcome (score : json) (w : world) :
  (exists scores w1 merged,
     load_high_scores w = (Ret scores, w1) /\
     sorted_by attempts_key (scores ++ [score]) = Ret merged /\
     fst (save_high_score score w) = Ret tt) \/
  (exists scores w1,
     load_high_scores w = (Ret scores, w1) /\
     save_high_score score w
     = (rbind (sorted_by attempts_key (scores ++ [score]))
              (fun _ => Unmodelled), w1) /\
     forall merged,
       sorted_by attempts_key (scores ++ [score]) <> Ret merged) \/
  (exists w1,
     save_high_score score w
     = (rbind (fst (load_high_scores w)) (fun _ => Unmodelled), w1) /\
     forall scores, fst (load_high_scores w) <> Ret scores).
Proof.
  destruct (load_high_scores w) as [r w1] eqn:El.
  destruct r as [scores|e| |].
  - destruct (sorted_by attempts_key (scores ++ [score])) as [merged|e| |] eqn:Es.
    + left. exists scores, w1, merged.
      split; [reflexivity|]. split; [exact Es|].
      destruct (faults w) as [|[f|] rest] eqn:Ef.
      * now rewrite (save_written _ _ _ _ _ El Es) by now left.
      * now rewrite (save_faulted _ _ _ _ _ f rest El Es Ef).
      * now rewrite (save_written _ _ _ _ _ El Es) by (right; eauto).
    + right; left. exists scores, w1.
      split; [reflexivity|]. split; [|rewrite Es; discriminate].
      unfold save_high_score. rewrite (bind_ret _ _ _ _ _ El).
      unfold bind, lift. now rewrite Es.
    + right; left. exists scores, w1.
      split; [reflexivity|]. split; [|rewrite Es; discriminate].
      unfold save_high_score. rewrite (bind_ret _ _ _ _ _ El).
      unfold bind, lift. now rewrite Es.
    + right; left. exists scores, w1.
      split; [reflexivity|]. split; [|rewrite Es; discriminate].
      unfold save_high_score. rewrite (bind_ret _ _ _ _ _ El).
      unfold bind, lift. now rewrite Es.
  - right; right. exists w1. split; [|discriminate].
    unfold save_high_score, bind. now rewrite El.
  - right; right. exists w1. split; [|discriminate].
    unfold save_high_score, bind. now rewrite El.
  - right; right. exists w1. split; [|discriminate].
    unfold save_high_score, bind. now rewrite El.
Qed.

Lemma save_no_fuel (score : json) (w : world) :
  fst (save_high_score score w) <> OutOfFuel.
Proof.
  destruct (save_outcome score w)
    as [(scores & w1 & merged & _ & _ & E)
       |[(scores & w1 & _ & E & _)|(w1 & E & _)]]; rewrite E; cbn [fst].
  - discriminate.
  - destruct (sorted_by_sort_error (scores ++ [score])) as [Hf _].
    now destruct (sorted_by attempts_key (scores ++ [score])).
  - pose proof (load_no_fuel w) as Hf.
    now destruct (fst (load_high_scores w)).
Qed.

(** ** The leaderboard store *)

(** A save that returns has read and merged the leaderboard. *)
Lemma save_returns (score : json) (w w' : world) :
  save_high_score score w = (Ret tt, w') ->
  exists scores w1 merged,
    load_high_scores w = (Ret scores, w1) /\
    sorted_by attempts_key (scores ++ [score]) = Ret merged.
Proof.
  unfold save_high_score. intros H.
  apply bind_ret_inv in H as (scores & w1 & Hl & H).
  apply bind_ret_inv in H as (merged & w2 & Hs & _).
  unfold lift in Hs.
  destruct (sorted_by attempts_key (scores ++ [score])) as [m| | |] eqn:E;
    try discriminate.
  injection Hs as <- _. now exists scores, w1, m.
Qed.

(** C1, as the program has it.  On a leaderboard file the program copes
    with (none, one that cannot be decoded, or an array of records whose
    attempts are integers) and for records whose attempts are integers,
    every save returns, also when its write fails, and the load after them
    returns a list in non-decreasing order of attempts: every record has
    at most the attempts of each record after it.  A save whose write goes
    through leaves such a list in the file, made of the records it loaded
    and the new one.  Saving records with 5, 3 and 8 attempts, in that
    order, to an empty leaderboard and loading gives them back in the
    order 3, 5, 8. *)
Theorem leaderboard_sorted :
  (forall (scores : list json) (w : world),
     board_ok (file w) -> Forall int_keyed scores ->
     exists l w',
       bind (save_each scores) (fun _ => load_high_scores) w = (Ret l, w') /\
       Forall int_keyed l /\ StronglySorted attempts_le l) /\
  (forall (score : json) (w : world),
     board_ok (file w) -> int_keyed score -> write_succeeds w ->
     exists old w1 w' l,
       load_high_scores w = (Ret old, w1) /\
       save_high_score score w = (Ret tt, w') /\
       file w' = Some (Document (JArr l)) /\
       Permutation (old ++ [score]) l /\ StronglySorted attempts_le l) /\
  (forall (w : world) (n1 l1 d1 n2 l2 d2 n3 l3 d3 : string),
     empty_board w -> faults w = [] ->
     exists w',
       bind (save_each [make_score n1 l1 5 d1; make_score n2 l2 3 d2;
                        make_score n3 l3 8 d3])
            (fun _ => load_high_scores) w
       = (Ret [make_score n2 l2 3 d2; make_score n1 l1 5 d1;
               make_score n3 l3 8 d3], w')).
Proof.
  repeat apply conj.
  - intros scores w Hb Hs.
    destruct (save_each_ok scores w Hb Hs) as (w1 & E & Hb1).
    rewrite (bind_ret _ _ _ _ _ E).
    destruct (load_ok w1 Hb1) as (l & w' & El & Hk & Hsorted).
    now exists l, w'.
  - intros score w Hb Hk Hw.
    destruct (load_ok w Hb) as (old & w1 & Hl & Hold & _).
    destruct (sorted_by_int (old ++ [score])) as (l & Hs & Hp & _ & Hsorted).
    { apply Forall_app; split; [exact Hold|now constructor]. }
    exists old, w1. eexists; exists l.
    split; [exact Hl|].
    split; [exact (save_written score w w1 old l Hl Hs Hw)|].
    repeat split; assumption.
  - intros [si c so f fs r rp t] n1 l1 d1 n2 l2 d2 n3 l3 d3 He Hf.
    simpl in Hf; subst fs.
    destruct He as [He|He]; simpl in He; subst f;
      eexists; vm_compute; reflexivity.
Qed.

Lemma leaderboard_sorted_witness :
  exists w',
    bind (save_each [make_score "ann" "easy" 5 "2024-01-01";
                     make_score "bob" "hard" 3 "2024-01-02";
                     make_score "cy" "medium" 8 "2024-01-03"])
         (fun _ => load_high_scores) (start [] None [] [])
    = (Ret [make_score "bob" "hard" 3 "2024-01-02";
            make_score "ann" "easy" 5 "2024-01-01";
            make_score "cy" "medium" 8 "2024-01-03"], w').
Proof.
  apply (proj2 (proj2 leaderboard_sorted)); [now left|reflexivity].
Defined.

(** C1 does not hold from any file state.  [json.load] accepts [NaN] as a
    number, and no number is less than NaN or NaN less than it: a file
    whose records have 2, NaN and 1 attempts, in that order, is one
    ascending run for the sort, which returns it as it is.  The list
    loaded has the record with 2 attempts before the one with 1, and a
    save with 3 attempts writes 2, NaN, 1, 3 back. *)
Lemma load_unsorted_with_nan :
  let two := make_score "ann" "easy" 2 "2024-01-01" in
  let nan := JObj [("name", JStr "bob"); ("difficulty", JStr "easy");
                   ("attempts", JFloat FNan); ("date", JStr "2024-01-02")] in
  let one := make_score "cy" "easy" 1 "2024-01-03" in
  let three := make_score "di" "easy" 3 "2024-01-04" in
  let w := start [] (Some (Document (JArr [two; nan; one]))) [] [] in
  load_high_scores w = (Ret [two; nan; one], w) /\
  py_lt (JInt 1) (JInt 2) = Ret true /\
  ~ StronglySorted key_le [two; nan; one] /\
  file (snd (save_high_score three w))
  = Some (Document (JArr [two; nan; one; three])).
Proof.
  repeat apply conj; try reflexivity.
  intros H. apply StronglySorted_inv in H as [_ H].
  apply Forall_inv_tail, Forall_inv in H.
  destruct H as (kx & ky & Hx & Hy & H).
  injection Hx as <-. injection Hy as <-. discriminate.
Qed.

(** C2. Saving a record to an empty leaderboard (no file, or a file that
    holds an empty array) and loading gives back exactly that record, when
    the write goes through. *)
Theorem save_load_roundtrip (name level : string) (attempts : Z)
  (date : string) (w : world) :
  empty_board w -> write_succeeds w ->
  exists w',
    bind (save_high_score (make_score name level attempts date))
         (fun _ => load_high_scores) w
    = (Ret [make_score name level attempts date], w').
Proof.
  intros He Hw.
  assert (Hl : load_high_scores w = (Ret [], w)).
  { destruct He as [He|He]; [now apply load_absent|].
    now rewrite (load_document w _ He). }
  rewrite (bind_ret _ _ _ _ _
             (save_written (make_score name level attempts date) w w []
                           [make_score name level attempts date]
                           Hl eq_refl Hw)).
  eexists. erewrite load_document by reflexivity. reflexivity.
Qed.

Lemma save_load_roundtrip_witness :
  exists w',
    bind (save_high_score (make_score "ann" "easy" 4 "2024-01-01"))
         (fun _ => load_high_scores) (start [] None [] [])
    = (Ret [make_score "ann" "easy" 4 "2024-01-01"], w').
Proof.
  apply save_load_roundtrip; [now left | now left].
Defined.

(** C3, as the program has it.  [load_high_scores] returns the empty list
    when there is no file, and returns the empty list after printing a
    warning when the file cannot be decoded as JSON; it raises in neither
    case. *)
Theorem load_recovers (w : world) :
  (file w = None -> load_high_scores w = (Ret [], w)) /\
  (file w = Some Undecodable ->
   load_high_scores w = (Ret [], after 0 0 [warning_msg] w)).
Proof. split; [apply load_absent|apply load_undecodable]. Qed.

Lemma load_recovers_witness :
  load_high_scores (start [] (Some Undecodable) [] [])
  = (Ret [], after 0 0 [warning_msg] (start [] (Some Undecodable) [] [])).
Proof.
  apply (proj2 (load_recovers (start [] (Some Undecodable) [] []))).
  reflexivity.
Defined.

(** C3 does not hold for every malformed content: the handler names
    [JSONDecodeError] alone.  On the JSON text [[1]], which decodes, the
    load raises [TypeError], prints no warning and returns nothing; a file
    that cannot be opened for reading lets the [OSError] of [open] through,
    and one whose bytes are not text the [UnicodeDecodeError]. *)
Lemma load_raises_on_other_json :
  let w := start [] (Some (Document (JArr [JInt 1]))) [] [] in
  let denied := start [] (Some (Forbidden "Permission denied")) [] [] in
  let bytes := start [] (Some Garbled) [] [] in
  load_high_scores w = (Raise TypeError, w) /\
  fst (load_high_scores w) <> Ret [] /\
  load_high_scores denied = (Raise (OSError "Permission denied"), denied) /\
  load_high_scores bytes = (Raise UnicodeDecodeError, bytes).
Proof. repeat apply conj; try reflexivity. discriminate. Qed.

(** C10. When the file cannot be decoded, a save whose write goes through
    replaces it by an array that holds the new record alone, after the
    warning of the failed load; nothing of the old content is kept. *)
Theorem save_after_corruption (name level : string) (attempts : Z)
  (date : string) (w : world) :
  file w = Some Undecodable -> write_succeeds w ->
  exists w',
    save_high_score (make_score name level attempts date) w = (Ret tt, w') /\
    file w' = Some (Document (JArr [make_score name level attempts date])) /\
    stdout w' = (stdout w ++ [warning_msg])%list /\
    fst (load_high_scores w') = Ret [make_score name level attempts date].
Proof.
  intros Hf Hw.
  rewrite (save_written (make_score name level attempts date) w _ []
                        [make_score name level attempts date]
                        (load_undecodable w Hf) eq_refl Hw).
  eexists; split; [reflexivity|]. repeat split.
Qed.

Lemma save_after_corruption_witness :
  exists w',
    save_high_score (make_score "ann" "easy" 4 "2024-01-01")
                    (start [] (Some Undecodable) [] [])
    = (Ret tt, w') /\
    file w' = Some (Document (JArr [make_score "ann" "easy" 4 "2024-01-01"])) /\
    stdout w' = (stdout (start [] (Some Undecodable) [] []) ++ [warning_msg])%list /\
    fst (load_high_scores w') = Ret [make_score "ann" "easy" 4 "2024-01-01"].
Proof.
  apply save_after_corruption; [reflexivity | now left].
Defined.

Lemma randint_returns (a b : Z) (w : world) :
  a <= b ->
  exists r, 0 <= r < b - a + 1 /\
            randint a b w = (Ret (a + r), after 0 1 [] w).
Proof.
  intros H. unfold randint.
  destruct (Z.ltb_spec b a); [lia|].
  rewrite (bind_ret _ _ _ _ _ (randbelow_after _ _)).
  eexists; split; [|reflexivity]. apply Z.mod_pos_bound. lia.
Qed.

Lemma difficulty_known (level : string) :
  In level ["easy"; "medium"; "hard"] ->
  exists st, difficulty level DIFFICULTIES = Some st /\ range st = 100.
Proof. intros [<-|[<-|[<-|[]]]]; eexists; split; reflexivity. Qed.

(** C9. For each of the three difficulties and whatever the random
    generator draws, [generate_secret_number] returns an integer between 1
    and the range of that difficulty. *)
Theorem secret_number_in_range (level : string) (w : world) :
  In level ["easy"; "medium"; "hard"] ->
  exists st n w',
    difficulty level DIFFICULTIES = Some st /\
    generate_secret_number level w = (Ret n, w') /\
    1 <= n <= range st.
Proof.
  intros H. destruct (difficulty_known level H) as (st & Hst & Hr).
  destruct (randint_returns 1 (range st) w) as (r & Hb & E); [lia|].
  exists st, (1 + r), (after 0 1 [] w). split; [exact Hst|]. split; [|lia].
  unfold generate_secret_number, difficulty_settings. rewrite Hst.
  exact E.
Qed.

Lemma secret_number_in_range_witness :
  exists st n w',
    difficulty "hard" DIFFICULTIES = Some st /\
    generate_secret_number "hard" (start [] None [] [41%nat]) = (Ret n, w') /\
    1 <= n <= range st.
Proof.
  apply secret_number_in_range. simpl; tauto.
Defined.

(** ** Write failures *)

Section Menu.

Context {py : Builtins}.

Lemma menu_round_play (budget : nat) (high_scores hs' : list json)
  (sig : signal) (w w' : world) :
  stdin w (cursor w) = Some "1" ->
  menu_round budget high_scores w = (Ret (sig, hs'), w') ->
  sig = Continue /\ hs' = high_scores.
Proof.
  intros Hl H. unfold menu_round, clear_screen in H.
  unfold bind at 1, ret at 1 in H.
  rewrite (bind_ret _ _ _ _ _ (print_after _ _)) in H.
  rewrite (bind_ret _ _ _ _ _ (print_after _ _)) in H.
  rewrite (bind_ret _ _ _ _ _ (print_after _ _)) in H.
  rewrite (bind_ret _ _ _ _ _ (print_after _ _)) in H.
  rewrite !after_after in H.
  match type of H with
  | bind (input _) _ ?v = _ =>
      assert (Hin : stdin v (cursor v) = Some "1")
        by (cbn; now rewrite Nat.add_0_r)
  end.
  rewrite (bind_ret _ _ _ _ _ (input_line _ _ _ Hin)) in H.
  cbn [String.eqb Ascii.eqb Bool.eqb] in H.
  apply bind_ret_inv in H as ([] & w1 & _ & H).
  now injection H as <- <- _.
Qed.

End Menu.

(** C7, as the program has it.  When the write of [save_high_score] fails,
    at opening the file or while dumping into it, the [OSError] is caught:
    the call returns normally after printing "Error saving high score: "
    and the error's message.  Whatever the write meets, a save whose load
    and sort returned returns; an exception that leaves [save_high_score]
    is one of the load or of the sort, raised before any write is
    attempted (the [OSError] of a file that cannot be opened for reading
    is among them: it is not caught). *)
Theorem write_failure_caught :
  (forall (score : json) (w w1 : world) (scores merged : list json)
          (f : fault) (rest : list (option fault)),
     load_high_scores w = (Ret scores, w1) ->
     sorted_by attempts_key (scores ++ [score]) = Ret merged ->
     faults w = Some f :: rest ->
     save_high_score score w
     = (Ret tt,
        after 0 0 [save_error_msg (fault_msg f)]
              (set_file (file_after_fault f (file w)) rest w1))) /\
  (forall (score : json) (w : world) (scores merged : list json),
     fst (load_high_scores w) = Ret scores ->
     sorted_by attempts_key (scores ++ [score]) = Ret merged ->
     fst (save_high_score score w) = Ret tt) /\
  (forall (score : json) (w : world) (e : exn),
     fst (save_high_score score w) = Raise e ->
     fst (load_high_scores w) = Raise e \/
     exists scores,
       fst (load_high_scores w) = Ret scores /\
       sorted_by attempts_key (scores ++ [score]) = Raise e).
Proof.
  repeat apply conj.
  - intros score w w1 scores merged f rest Hl Hs Hf.
    exact (save_faulted score w w1 scores merged f rest Hl Hs Hf).
  - intros score w scores merged Hl Hs.
    destruct (save_outcome score w)
      as [(scores' & w1 & merged' & _ & _ & E)
         |[(scores' & w1 & El & _ & Hn)|(w1 & _ & Hn)]].
    + exact E.
    + rewrite El in Hl. injection Hl as ->. now destruct (Hn merged).
    + now destruct (Hn scores).
  - intros score w e H.
    destruct (save_outcome score w)
      as [(scores & w1 & merged & _ & _ & E)
         |[(scores & w1 & El & E & _)|(w1 & E & _)]].
    + rewrite E in H. discriminate.
    + right. exists scores. rewrite El. split; [reflexivity|].
      rewrite E in H. cbn [fst] in H.
      destruct (sorted_by attempts_key (scores ++ [score]));
        cbn [rbind] in H; try discriminate; now injection H as ->.
    + left. rewrite E in H. cbn [fst] in H.
      destruct (fst (load_high_scores w));
        cbn [rbind] in H; try discriminate; now injection H as ->.
Qed.

Lemma write_failure_caught_witness :
  let w := start [] (Some (Document (JArr [make_score "ann" "easy" 4 "2024-01-01"])))
                 [Some (OpenFails "[Errno 13] Permission denied: 'high_scores.json'")]
                 [] in
  save_high_score (make_score "bob" "hard" 2 "2024-01-02") w
  = (Ret tt,
     after 0 0 [save_error_msg "[Errno 13] Permission denied: 'high_scores.json'"]
           (set_file (file w) [] w)).
Proof.
  intros w.
  apply (proj1 write_failure_caught
           (make_score "bob" "hard" 2 "2024-01-02") w w
           [make_score "ann" "easy" 4 "2024-01-01"]
           [make_score "bob" "hard" 2 "2024-01-02";
            make_score "ann" "easy" 4 "2024-01-01"]
           (OpenFails "[Errno 13] Permission denied: 'high_scores.json'") []);
    reflexivity.
Defined.

(** C7 does not hold where it says that nothing is lost.  The merged list
    is a local of [save_high_score] and the menu keeps the list it loaded
    before the game: after a failed write the record just won is in no
    list and in no file.  When the write fails after the file was opened,
    the file is left truncated, and the records saved earlier go too.
    Here a game is won on a leaderboard that holds one record and the dump
    fails: the first view still shows the list loaded at the start, the
    load after it warns and returns nothing, and the second view has no
    scores to show. *)
Lemma failed_dump_loses_records :
  let ann := make_score "ann" "easy" 4 "2024-01-01" in
  let w := start ["1"; "bob"; "easy"; "50"; ""; "2"; ""; "2"; ""; "3"]
                 (Some (Document (JArr [ann])))
                 [Some (DumpFails "[Errno 28] No space left on device")]
                 [49%nat] in
  let r := main_menu (py := AsciiText.builtins) 10 w in
  fst r = Ret tt /\
  In (congratulations "bob" 50 1) (stdout (snd r)) /\
  In (save_error_msg "[Errno 28] No space left on device") (stdout (snd r)) /\
  In (score_row (py := AsciiText.builtins) 0 "ann" "easy" 4 "2024-01-01")
     (stdout (snd r)) /\
  In warning_msg (stdout (snd r)) /\
  In no_scores_msg (stdout (snd r)) /\
  file (snd r) = Some Undecodable.
Proof. vm_compute. repeat split; repeat (first [left; reflexivity | right]). Qed.

(** ** Concrete runs *)

Lemma hint_cadence_witness :
  let w := start ["90"] None [] [] in
  let st := mkSession 2 (Some 50) false in
  let st' := mkSession 3 (Some 90) false in
  let w' := snd (guess_round (py := AsciiText.builtins) 5 "bob" 7 5 100 st w) in
  exists printed,
    stdout w' = (stdout w ++ printed)%list /\
    ((exists hint, filter is_hint_line printed = [hint_line hint]) \/
     filter is_hint_line printed = []) /\
    (filter is_hint_line printed <> [] <->
     last_guess st' <> Some 7 /\ game_won st = false /\
     exists k, 1 <= k /\ attempts_made st' = 2 * k + 1) /\
    (attempts_made st' mod 2 = 0 \/ attempts_made st' = 1 ->
     filter is_hint_line printed = []).
Proof.
  intros w st st' w'.
  apply (hint_cadence (py := AsciiText.builtins) 5 "bob" 7 5 100 st st'
                      Continue w w').
  vm_compute. reflexivity.
Defined.

Lemma fifties_valid : valid_guesses (py := AsciiText.builtins) 100 fifties.
Proof. intros i line _ [= <-]. now exists 50. Qed.

Lemma guess_loop_terminates_witness :
  let entry := mkSession 0 None false in
  let run :=
    guess_loop (py := AsciiText.builtins) (Z.to_nat 5) 1 "bob" 7 5 100 entry
               fifties in
  (exists w', run = (Raise EOFError, w') /\
              (cursor w' < cursor fifties + Z.to_nat 5)%nat) \/
  (exists final w',
     run = (Ret final, w') /\
     0 <= attempts_made final <= 5 /\
     cursor w' = (cursor fifties + Z.to_nat (attempts_made final))%nat).
Proof.
  apply (guess_loop_terminates (py := AsciiText.builtins) 1 "bob" 7 5 100
                               fifties); [lia | lia | exact fifties_valid].
Defined.

Lemma guess_input_validation_witness :
  fst (get_user_guess (py := AsciiText.builtins) 3 100
                      (start ["abc"; "101"; " 42 "] None [] []))
  = Ret 42.
Proof.
  apply (proj1 (proj2 (guess_input_validation (py := AsciiText.builtins)))
           3%nat 100 42 (start ["abc"; "101"; " 42 "] None [] [])
           ["abc"; "101"] " 42 ").
  - intros i line H. exact H.
  - repeat constructor.
  - reflexivity.
  - lia.
  - simpl; lia.
Defined.

Ltac in_list := repeat (first [left; reflexivity | right]).

(** Secret number 50, the guesses 10, 90, 50 at the easy level: won at the
    third attempt, and the record is saved. *)
Example play_game_won :
  let w := start ["ann"; "easy"; "10"; "90"; "50"; ""] None [] [49%nat] in
  let r := play_game (py := AsciiText.builtins) 10 w in
  fst r = Ret tt /\
  In (congratulations "ann" 50 3) (stdout (snd r)) /\
  file (snd r)
  = Some (Document (JArr [make_score "ann" "easy" 3 "2024-01-01"])).
Proof. vm_compute. repeat split; in_list. Qed.

(** Secret number 7 and five wrong guesses at the hard level: lost, the
    message tells the number, hints came after the third and the fifth
    guess, and nothing is saved. *)
Example play_game_lost :
  let w := start ["ann"; "hard"; "1"; "2"; "3"; "4"; "5"; ""] None []
                 [6; 0; 0; 0; 0]%nat in
  let r := play_game (py := AsciiText.builtins) 10 w in
  fst r = Ret tt /\
  In (nl ++ "Game Over! You ran out of attempts. The secret number was 7.")
     (stdout (snd r)) /\
  length (filter is_hint_line (stdout (snd r))) = 2%nat /\
  file (snd r) = None.
Proof. vm_compute. repeat split; in_list. Qed.

(** A won game whose score cannot be written: the error is shown, the game
    goes on to its last prompt and the program leaves through the menu. *)
Example main_menu_write_denied :
  let w := start ["1"; "ann"; "easy"; "50"; ""; "3"] None
                 [Some (OpenFails "Permission denied")] [49%nat] in
  let r := main_menu (py := AsciiText.builtins) 10 w in
  fst r = Ret tt /\
  In (save_error_msg "Permission denied") (stdout (snd r)) /\
  In "Thanks for playing! Goodbye." (stdout (snd r)) /\
  file (snd r) = None.
Proof. vm_compute. repeat split; in_list. Qed.

(** ** More on the leaderboard store *)

Lemma insert_keyed_front (p : json * json) (l : list (json * json)) :
  HdRel pair_le p l -> insert_keyed p l = Ret (p :: l).
Proof.
  intros [|q rest H]; [reflexivity|]. simpl. unfold pair_le in H.
  rewrite H. reflexivity.
Qed.

(** Sorting a list that is in order gives it back. *)
Lemma sort_keyed_in_order (l : list (json * json)) :
  Sorted pair_le l -> sort_keyed l = Ret l.
Proof.
  induction 1 as [|p l Hs IH Hh]; [reflexivity|].
  simpl. rewrite IH. simpl. now apply insert_keyed_front.
Qed.

Lemma compute_keys_of_keyed (s : list (json * json)) :
  Forall keyed s -> compute_keys attempts_key (map snd s) = Ret s.
Proof.
  induction 1 as [|[k x] s Hk _ IH]; [reflexivity|].
  simpl. unfold keyed in Hk; simpl in Hk. rewrite Hk. simpl. now rewrite IH.
Qed.

Lemma ascending_run_in_order (l : list (json * json)) :
  Sorted pair_le l -> ascending_run l = Ret true.
Proof.
  induction 1 as [|p l Hs IH Hh]; [reflexivity|].
  destruct Hh as [|q rest H]; [reflexivity|].
  rewrite ascending_run_cons. unfold pair_le in H. now rewrite H.
Qed.

Lemma arrange_in_order (l : list (json * json)) :
  Sorted pair_le l -> arrange l = Ret l.
Proof.
  intros H. unfold arrange. destruct (existsb _ l).
  - now rewrite (ascending_run_in_order l H).
  - now apply sort_keyed_in_order.
Qed.

Lemma sorted_by_again (l l' : list json) :
  sorted_by attempts_key l = Ret l' -> sorted_by attempts_key l' = Ret l'.
Proof.
  unfold sorted_by. intros H.
  apply rbind_ret_inv in H as (ks & Hks & H).
  apply rbind_ret_inv in H as (s & Hs & [= <-]).
  destruct (compute_keys_keyed l ks Hks) as [_ Hk].
  destruct (arrange_sorted ks s Hs) as [Hsorted Hperm].
  assert (Hk' : Forall keyed s)
    by (eapply Permutation_Forall; [|exact Hk]; exact Hperm).
  rewrite (compute_keys_of_keyed s Hk'). cbn [rbind].
  now rewrite (arrange_in_order s Hsorted).
Qed.

(** X1. A save whose write goes through loses nothing that the load before it
    saw: the file then holds an array that is a rearrangement of the loaded
    records with the new one added, and loading it again returns exactly
    that array, without a warning and without touching the file.  When the
    attempts in it are all integers, the array is in non-decreasing order
    of them. *)
Theorem save_keeps_records (score : json) (w w' : world) :
  write_succeeds w ->
  save_high_score score w = (Ret tt, w') ->
  exists old w1 new,
    load_high_scores w = (Ret old, w1) /\
    Permutation (old ++ [score])%list new /\
    file w' = Some (Document (JArr new)) /\
    load_high_scores w' = (Ret new, w') /\
    (Forall int_keyed new -> StronglySorted attempts_le new).
Proof.
  intros Hw H.
  destruct (save_returns score w w' H) as (old & w1 & new & Hl & Hs).
  rewrite (save_written score w w1 old new Hl Hs Hw) in H.
  injection H as <-.
  exists old, w1, new. destruct (sorted_by_sorted _ _ Hs) as [Hsorted Hperm].
  repeat split; auto.
  - erewrite load_document by reflexivity.
    unfold py_sorted; cbn [iterate rbind]. now rewrite (sorted_by_again _ _ Hs).
  - intros Hk. now apply sorted_int_keyed.
Qed.

Lemma save_keeps_records_witness :
  exists old w1 new,
    load_high_scores
      (start [] (Some (Document (JArr [make_score "ann" "easy" 4 "2024-01-01"])))
             [] [])
    = (Ret old, w1) /\
    Permutation (old ++ [make_score "bob" "hard" 2 "2024-01-02"])%list new /\
    file (snd (save_high_score (make_score "bob" "hard" 2 "2024-01-02")
                 (start [] (Some (Document (JArr [make_score "ann" "easy" 4 "2024-01-01"])))
                        [] [])))
    = Some (Document (JArr new)) /\
    load_high_scores
      (snd (save_high_score (make_score "bob" "hard" 2 "2024-01-02")
              (start [] (Some (Document (JArr [make_score "ann" "easy" 4 "2024-01-01"])))
                     [] [])))
    = (Ret new,
       snd (save_high_score (make_score "bob" "hard" 2 "2024-01-02")
              (start [] (Some (Document (JArr [make_score "ann" "easy" 4 "2024-01-01"])))
                     [] []))) /\
    (Forall int_keyed new -> StronglySorted attempts_le new).
Proof.
  apply (save_keeps_records (make_score "bob" "hard" 2 "2024-01-02")).
  - now left.
  - reflexivity.
Defined.

(** *** Where the new record goes *)

Lemma filter_all {A : Type} (f : A -> bool) (l : list A) :
  Forall (fun x => f x = true) l -> filter f l = l.
Proof. induction 1 as [|x l Hx _ IH]; simpl; [|rewrite Hx, IH]; reflexivity. Qed.

Lemma filter_none {A : Type} (f : A -> bool) (l : list A) :
  Forall (fun x => f x = false) l -> filter f l = [].
Proof. induction 1 as [|x l Hx _ IH]; simpl; [|rewrite Hx, IH]; reflexivity. Qed.

Lemma int_pair_lt (p q : json * json) :
  int_pair p -> int_pair q ->
  py_lt (fst p) (fst q) = Ret (pair_key p <? pair_key q).
Proof.
  intros (m & Hm & _) (n & Hn & _). unfold pair_key. now rewrite Hm, Hn.
Qed.

Lemma sort_keyed_append (ks : list (json * json)) (p : json * json) :
  Forall int_pair ks -> int_pair p ->
  StronglySorted (fun a b => pair_key a <= pair_key b) ks ->
  sort_keyed (ks ++ [p])%list
  = Ret (filter (fun q => pair_key q <=? pair_key p) ks
         ++ p :: filter (fun q => pair_key p <? pair_key q) ks)%list.
Proof.
  intros Hk Hp Hs. induction Hs as [|q ks Hs IH Hq]; [reflexivity|].
  apply Forall_cons_iff in Hk as [Hqi Hk].
  simpl. rewrite (IH Hk). simpl.
  destruct (Z.leb_spec (pair_key q) (pair_key p)) as [Hle|Hgt].
  - replace (pair_key p <? pair_key q) with false
      by (symmetry; apply Z.ltb_ge; lia).
    apply insert_keyed_front.
    destruct (filter (fun q0 => pair_key q0 <=? pair_key p) ks) as [|h t] eqn:E;
      simpl; constructor; unfold pair_le.
    + rewrite (int_pair_lt p q Hp Hqi). f_equal. apply Z.ltb_ge. lia.
    + assert (Hin : In h (filter (fun q0 => pair_key q0 <=? pair_key p) ks))
        by (rewrite E; now left).
      apply filter_In in Hin as [Hin _].
      rewrite (int_pair_lt h q (proj1 (Forall_forall _ _) Hk h Hin) Hqi).
      f_equal. apply Z.ltb_ge.
      exact (proj1 (Forall_forall _ _) Hq h Hin).
  - replace (pair_key p <? pair_key q) with true
      by (symmetry; apply Z.ltb_lt; lia).
    assert (Hall : Forall (fun x => (pair_key p <? pair_key x) = true) ks).
    { eapply Forall_impl; [|exact Hq]. intros a Ha. cbv beta in Ha. apply Z.ltb_lt. lia. }
    assert (Hnone : Forall (fun x => (pair_key x <=? pair_key p) = false) ks).
    { eapply Forall_impl; [|exact Hq]. intros a Ha. cbv beta in Ha. apply Z.leb_gt. lia. }
    rewrite (filter_none _ _ Hnone), (filter_all _ _ Hall). simpl.
    rewrite (int_pair_lt p q Hp Hqi).
    replace (pair_key p <? pair_key q) with true
      by (symmetry; apply Z.ltb_lt; lia).
    rewrite insert_keyed_front; [reflexivity|].
    destruct Hq as [|h t Hh _]; constructor. unfold pair_le.
    apply Forall_cons_iff in Hk as [Hhi _].
    rewrite (int_pair_lt h q Hhi Hqi). f_equal. apply Z.ltb_ge. lia.
Qed.

Lemma with_key_int_pair (x : json) : int_keyed x -> int_pair (with_key x).
Proof.
  intros (n & Hn). exists n. unfold with_key, attempts_of. rewrite Hn. auto.
Qed.

Lemma compute_keys_with_key (l : list json) :
  Forall int_keyed l -> compute_keys attempts_key l = Ret (map with_key l).
Proof.
  induction 1 as [|x l (n & Hn) _ IH]; [reflexivity|].
  simpl. rewrite Hn, IH. simpl. unfold with_key, attempts_of. now rewrite Hn.
Qed.

Lemma attempts_le_of (x y : json) :
  attempts_le x y -> attempts_of x <= attempts_of y.
Proof.
  intros (m & n & Hx & Hy & H). unfold attempts_of. now rewrite Hx, Hy.
Qed.

(** What the sort of [save_high_score] does to a leaderboard in order: the
    new record goes behind the records with as many or fewer attempts and
    before those with more, and the others stay as they were. *)
Lemma sorted_by_append (old : list json) (score : json) :
  Forall int_keyed old -> int_keyed score ->
  StronglySorted attempts_le old ->
  sorted_by attempts_key (old ++ [score])%list
  = Ret (filter (fun x => attempts_of x <=? attempts_of score) old
         ++ score :: filter (fun x => attempts_of score <? attempts_of x) old)%list.
Proof.
  intros Hk Hs Ho. unfold sorted_by.
  rewrite compute_keys_with_key by (apply Forall_app; split; auto).
  cbn [rbind]. rewrite arrange_int.
  2: { apply Forall_map.
       eapply Forall_impl; [intros x; apply with_key_int_pair|].
       apply Forall_app; split; [exact Hk|now constructor]. }
  rewrite map_app. simpl.
  rewrite sort_keyed_append.
  - simpl. rewrite map_app. simpl.
    rewrite !filter_map_swap, !map_map. simpl. now rewrite !map_id.
  - apply Forall_map. eapply Forall_impl; [|exact Hk].
    intros x. apply with_key_int_pair.
  - now apply with_key_int_pair.
  - clear Hk Hs. induction Ho as [|x l _ IH Hx]; simpl; constructor; auto.
    apply Forall_map. eapply Forall_impl; [|exact Hx].
    intros y Hy. simpl. now apply attempts_le_of.
Qed.

(** X2. On a leaderboard the program copes with, a save whose write goes
    through stores the new record behind every record with the same or
    fewer attempts and before every record with more, and leaves the order
    of the others as the load gave it: a tie is won by the older record. *)
Theorem new_record_rank (score : json) (w : world) :
  board_ok (file w) -> int_keyed score -> write_succeeds w ->
  exists old w1 w',
    load_high_scores w = (Ret old, w1) /\
    save_high_score score w = (Ret tt, w') /\
    file w'
    = Some (Document (JArr
        (filter (fun x => attempts_of x <=? attempts_of score) old
         ++ score :: filter (fun x => attempts_of score <? attempts_of x) old)%list)).
Proof.
  intros Hb Hs Hw.
  destruct (load_ok w Hb) as (old & w1 & Hl & Hk & Ho).
  exists old, w1. eexists. split; [exact Hl|].
  rewrite (save_written score w w1 old _ Hl (sorted_by_append old score Hk Hs Ho) Hw).
  split; reflexivity.
Qed.

Lemma new_record_rank_witness :
  exists old w1 w',
    load_high_scores
      (start [] (Some (Document (JArr [make_score "ann" "easy" 2 "2024-01-01";
                                       make_score "cy" "hard" 4 "2024-01-01"])))
             [] [])
    = (Ret old, w1) /\
    save_high_score (make_score "bob" "hard" 2 "2024-01-02")
      (start [] (Some (Document (JArr [make_score "ann" "easy" 2 "2024-01-01";
                                       make_score "cy" "hard" 4 "2024-01-01"])))
             [] [])
    = (Ret tt, w') /\
    file w'
    = Some (Document (JArr
        (filter (fun x => attempts_of x <=?
                          attempts_of (make_score "bob" "hard" 2 "2024-01-02")) old
         ++ make_score "bob" "hard" 2 "2024-01-02"
         :: filter (fun x => attempts_of (make_score "bob" "hard" 2 "2024-01-02")
                             <? attempts_of x) old)%list)).
Proof.
  apply new_record_rank.
  - simpl. eexists; split; [reflexivity|].
    repeat constructor; apply make_score_int_keyed.
  - apply make_score_int_keyed.
  - now left.
Defined.

(** X3. [load_high_scores] changes nothing but the output: the file is left
    as it is (a text that cannot be decoded is neither repaired nor
    removed), no line is read and no random draw is used; it prints one
    line, the warning, exactly when the file cannot be decoded, and nothing
    otherwise, also when it raises. *)
Theorem load_only_warns (w : world) :
  snd (load_high_scores w)
  = match file w with
    | Some Undecodable => after 0 0 [warning_msg] w
    | _ => w
    end.
Proof.
  destruct (file w) as [[|v|msg|]|] eqn:Hf.
  - now rewrite (load_undecodable w Hf).
  - now rewrite (load_document w v Hf).
  - now rewrite (load_forbidden w msg Hf).
  - now rewrite (load_garbled w Hf).
  - now rewrite (load_absent w Hf).
Qed.

Lemma compute_keys_stops (good rest : list json) (bad : json) (e : exn) :
  Forall has_attempts good -> attempts_key bad = Raise e ->
  compute_keys attempts_key (good ++ bad :: rest) = Raise e.
Proof.
  intros Hg Hb. induction Hg as [|x good (k & Hk) _ IH]; simpl.
  - now rewrite Hb.
  - rewrite Hk, IH. reflexivity.
Qed.

Lemma attempts_key_raises (x : json) (e : exn) :
  attempts_key x = Raise e ->
  (e = TypeError \/ e = KeyError) /\
  (e = KeyError <->
   exists fields, x = JObj fields /\ lookup "attempts" fields = None).
Proof.
  unfold attempts_key, subscript.
  destruct x as [| | | | | |fields]; try (intros [= <-]; split; [now left|];
    split; [discriminate|intros (f & [=] & _)]).
  destruct (lookup "attempts" fields) eqn:E; [discriminate|].
  intros [= <-]. split; [now right|]. split; eauto.
Qed.

Section BadFile.

Context {py : Builtins}.

(** X4. When the file holds an array in which some item has no ['attempts']
    to take (it is not an object, or it is an object without that key),
    and every item before it has one, loading raises, [KeyError] for the
    object and [TypeError] otherwise.  Nothing catches it: a save raises
    the same before writing anything, and the program ends at the first
    load of [main_menu], before the menu is shown.  The world is left as it
    was; in particular there is no warning. *)
Theorem item_without_attempts (good rest : list json) (bad score : json)
  (e : exn) (budget : nat) (w : world) :
  file w = Some (Document (JArr (good ++ bad :: rest))) ->
  Forall has_attempts good ->
  attempts_key bad = Raise e ->
  load_high_scores w = (Raise e, w) /\
  save_high_score score w = (Raise e, w) /\
  main_menu budget w = (Raise e, w) /\
  (e = TypeError \/ e = KeyError) /\
  (e = KeyError <->
   exists fields, bad = JObj fields /\ lookup "attempts" fields = None).
Proof.
  intros Hf Hg Hb.
  assert (Hl : load_high_scores w = (Raise e, w)).
  { rewrite (load_document w _ Hf). unfold py_sorted, sorted_by; simpl.
    now rewrite (compute_keys_stops good rest bad e Hg Hb). }
  split; [exact Hl|].
  split; [unfold save_high_score, bind; now rewrite Hl|].
  split; [unfold main_menu, bind; now rewrite Hl|].
  now apply attempts_key_raises.
Qed.

End BadFile.

Lemma item_without_attempts_witness :
  let w := start ["3"]
             (Some (Document (JArr [make_score "ann" "easy" 4 "2024-01-01";
                                    JObj [("name", JStr "bob")]])))
             [] [] in
  load_high_scores w = (Raise KeyError, w) /\
  save_high_score (make_score "cy" "hard" 2 "2024-01-02") w
  = (Raise KeyError, w) /\
  main_menu (py := AsciiText.builtins) 5 w = (Raise KeyError, w) /\
  (KeyError = TypeError \/ KeyError = KeyError) /\
  (KeyError = KeyError <->
   exists fields, JObj [("name", JStr "bob")] = JObj fields /\
                  lookup "attempts" fields = None).
Proof.
  intros w.
  apply (item_without_attempts (py := AsciiText.builtins)
           [make_score "ann" "easy" 4 "2024-01-01"] []
           (JObj [("name", JStr "bob")])).
  - reflexivity.
  - repeat constructor. now exists (JInt 4).
  - reflexivity.
Defined.

(** ** What a hint is made of *)

Lemma replace_at_split {A : Type} (l1 l2 : list A) (x y : A) (k : nat) :
  length l1 = k ->
  (firstn k (l1 ++ y :: l2) ++ x :: skipn (S k) (l1 ++ y :: l2))%list
  = (l1 ++ x :: l2)%list.
Proof.
  intros <-. induction l1 as [|a l1 IH]; simpl; [reflexivity|].
  simpl in IH. now rewrite IH.
Qed.

Lemma nth_error_replaced {A : Type} (l1 l2 : list A) (x y : A) (j : nat) :
  j <> length l1 ->
  nth_error (l1 ++ x :: l2) j = nth_error (l1 ++ y :: l2) j.
Proof.
  revert j; induction l1 as [|a l1 IH]; intros [|j] H; simpl in *;
    try reflexivity; try lia.
  apply IH. lia.
Qed.

Lemma nth_error_middle {A : Type} (l1 l2 : list A) (x : A) :
  nth_error (l1 ++ x :: l2) (length l1) = Some x.
Proof. induction l1; simpl; auto. Qed.

(** Exchanging two items rearranges the list. *)
Lemma swap_perm {A : Type} (i j : nat) (l : list A) : Permutation l (swap i j l).
Proof.
  unfold swap.
  destruct (nth_error l i) as [a|] eqn:Ea; [|reflexivity].
  destruct (nth_error l j) as [b|] eqn:Eb; [|reflexivity].
  destruct (nth_error_split l i Ea) as (l1 & l2 & -> & Hi).
  rewrite (replace_at_split l1 l2 b a i Hi).
  assert (Ej : nth_error (l1 ++ b :: l2) j = Some b).
  { destruct (Nat.eq_dec j (length l1)) as [->|Hne].
    - apply nth_error_middle.
    - rewrite (nth_error_replaced l1 l2 b a j Hne). exact Eb. }
  destruct (nth_error_split _ j Ej) as (m1 & m2 & Em & Hj).
  rewrite Em, (replace_at_split m1 m2 a b j Hj).
  apply (Permutation_cons_inv (a := b)).
  transitivity (a :: l1 ++ b :: l2)%list.
  - rewrite <- !Permutation_middle. apply perm_swap.
  - rewrite Em, <- !Permutation_middle. apply perm_swap.
Qed.

Lemma shuffle_from_perm {A : Type} (i : nat) (l l' : list A) (w w' : world) :
  shuffle_from i l w = (Ret l', w') -> Permutation l l'.
Proof.
  revert l w; induction i as [|i IH]; intros l w H; simpl in H.
  - now injection H as <- _.
  - rewrite (bind_ret _ _ _ _ _ (randbelow_after _ _)) in H.
    apply IH in H. now rewrite <- H, <- swap_perm.
Qed.

Lemma hint_candidates_nodup (n : Z) (last : option Z) :
  NoDup (hint_candidates n last).
Proof.
  unfold hint_candidates.
  destruct (parity_hint_one n) as (s & -> & Hs).
  assert (Hne : forall a b, is_parity_hint a = true -> is_parity_hint b = false ->
                            a <> b) by (intros a b Ha Hb ->; congruence).
  assert (Hne' : forall a b, is_divisor_hint a = true ->
                             is_divisor_hint b = false -> a <> b)
    by (intros a b Ha Hb ->; congruence).
  destruct (divisor_hint_short n) as [->|(d & -> & Hd & Hd')];
    destruct (proximity_hint_short n last) as [->|(p & -> & Hp & Hp')];
    simpl; repeat constructor; simpl; intuition eauto.
Qed.

(** X5. [generate_hint] always returns, whatever the random generator
    draws, and it touches nothing but the generator.  The hint is made of
    two different statements from the candidate list, joined by a space;
    it is one statement alone only when the list has no second one, which
    does not happen after a wrong guess. *)
Theorem generate_hint_shape (secret_number attempts : Z)
  (last_guess : option Z) (w : world) :
  let hints := hint_candidates secret_number last_guess in
  exists hint,
    generate_hint secret_number attempts last_guess w
    = (Ret hint, after 0 (length hints - 1) [] w) /\
    ((exists a b, hint = a ++ " " ++ b /\ a <> b /\ In a hints /\ In b hints)
     \/ hints = [hint]) /\
    (forall g, last_guess = Some g -> g <> secret_number ->
               exists a b, hint = a ++ " " ++ b /\ a <> b /\
                           In a hints /\ In b hints).
Proof.
  intros hints.
  destruct (generate_hint_returns secret_number attempts last_guess w)
    as (hint & E).
  exists hint. split; [exact E|].
  pose proof E as E'. unfold generate_hint, shuffle in E'.
  apply bind_ret_inv in E' as (l' & w1 & Hsh & Hret).
  injection Hret as Hhint _.
  pose proof (shuffle_from_perm _ _ _ _ _ Hsh) as Hperm. fold hints in Hperm.
  pose proof (Permutation_NoDup Hperm (hint_candidates_nodup _ _)) as Hnd.
  assert (Htwo : (2 <= length hints)%nat ->
                 exists a b, hint = a ++ " " ++ b /\ a <> b /\
                             In a hints /\ In b hints).
  { intros Hlen. rewrite (Permutation_length Hperm) in Hlen.
    destruct l' as [|a [|b rest]]; simpl in Hlen; try lia.
    exists a, b. simpl in Hhint.
    split; [now destruct rest|].
    apply NoDup_cons_iff in Hnd as [Hna _].
    split; [intros ->; apply Hna; now left|].
    split; apply (Permutation_in _ (Permutation_sym Hperm)); simpl; auto. }
  split.
  - destruct (le_lt_dec 2 (length hints)) as [Hlen|Hlen]; [left; auto|right].
    assert (Hone : length hints = 1%nat).
    { unfold hints, hint_candidates in *.
      destruct (parity_hint_one secret_number) as (s & Es & _).
      rewrite Es in *. simpl in *. lia. }
    rewrite (Permutation_length Hperm) in Hone.
    destruct l' as [|a [|b rest]]; simpl in Hone; try lia.
    simpl in Hhint. subst hint.
    now apply Permutation_sym, Permutation_length_1_inv in Hperm.
  - intros g -> Hg. apply Htwo.
    unfold hints, hint_candidates.
    destruct (parity_hint_one secret_number) as (s & -> & _).
    rewrite !length_app. simpl.
    unfold proximity_hint.
    destruct (Z.ltb_spec g secret_number); [simpl; lia|].
    destruct (Z.gtb_spec g secret_number); [simpl; lia|lia].
Qed.

(** ** Choosing the difficulty *)

Lemma difficulty_levels (level : string) :
  (exists st, difficulty level DIFFICULTIES = Some st) <->
  In level ["easy"; "medium"; "hard"].
Proof.
  unfold DIFFICULTIES; simpl. split.
  - intros (st & H).
    destruct (String.eqb_spec level "easy"); [auto|].
    destruct (String.eqb_spec level "medium"); [auto|].
    destruct (String.eqb_spec level "hard"); [auto|discriminate].
  - intros [<-|[<-|[<-|[]]]]; eexists; reflexivity.
Qed.

Section Choice.

Context {py : Builtins}.

Lemma print_levels_after (table : list (string * settings)) (w : world) :
  print_levels table w = (Ret tt, after 0 0 (map level_line table) w).
Proof.
  revert w; induction table as [|[level st] table IH]; intros w; simpl.
  - unfold ret. now rewrite after_0.
  - rewrite (bind_ret _ _ _ _ _ (print_after _ _)), IH.
    now rewrite after_after.
Qed.

Lemma choice_menu_shown (line : string) (w : world) :
  stdin w (cursor w) = Some line ->
  (print (nl ++ "--- Choose Difficulty ---") ;;
   print_levels DIFFICULTIES ;;
   input "Enter difficulty (Easy/Medium/Hard): ")%py w
  = (Ret line, after 1 0 difficulty_menu w).
Proof.
  intros H.
  rewrite (bind_ret _ _ _ _ _ (print_after _ _)).
  rewrite (bind_ret _ _ _ _ _ (print_levels_after _ _)).
  rewrite after_after.
  rewrite input_line with (line := line)
    by (cbn; now rewrite Nat.add_0_r).
  now rewrite after_after.
Qed.

Lemma get_difficulty_choice_unfold (fuel : nat) (w : world) :
  get_difficulty_choice (S fuel) w
  = bind (print (nl ++ "--- Choose Difficulty ---") ;;
          print_levels DIFFICULTIES ;;
          input "Enter difficulty (Easy/Medium/Hard): ")%py
         (fun line =>
            match difficulty (py_lower line) DIFFICULTIES with
            | Some _ => ret (py_lower line)
            | None => print invalid_choice_msg ;; get_difficulty_choice fuel
            end)%py w.
Proof. simpl. now rewrite !bind_assoc. Qed.

Lemma get_difficulty_choice_take (fuel : nat) (line : string) (st : settings)
  (w : world) :
  stdin w (cursor w) = Some line ->
  difficulty (py_lower line) DIFFICULTIES = Some st ->
  get_difficulty_choice (S fuel) w
  = (Ret (py_lower line), after 1 0 difficulty_menu w).
Proof.
  intros Hl Hd. rewrite get_difficulty_choice_unfold.
  rewrite (bind_ret _ _ _ _ _ (choice_menu_shown line w Hl)).
  now rewrite Hd.
Qed.

Lemma get_difficulty_choice_again (fuel : nat) (line : string) (w : world) :
  stdin w (cursor w) = Some line ->
  difficulty (py_lower line) DIFFICULTIES = None ->
  get_difficulty_choice (S fuel) w
  = get_difficulty_choice fuel
      (after 1 0 (difficulty_menu ++ [invalid_choice_msg]) w).
Proof.
  intros Hl Hd. rewrite get_difficulty_choice_unfold.
  rewrite (bind_ret _ _ _ _ _ (choice_menu_shown line w Hl)).
  rewrite Hd. rewrite (bind_ret _ _ _ _ _ (print_after _ _)).
  now rewrite after_after.
Qed.

Lemma get_difficulty_choice_eof (fuel : nat) (w : world) :
  stdin w (cursor w) = None ->
  get_difficulty_choice (S fuel) w
  = (Raise EOFError, after 0 0 difficulty_menu w).
Proof.
  intros Hl. rewrite get_difficulty_choice_unfold.
  unfold bind at 1.
  rewrite (bind_ret _ _ _ _ _ (print_after _ _)).
  rewrite (bind_ret _ _ _ _ _ (print_levels_after _ _)).
  rewrite after_after.
  rewrite input_eof by (cbn; now rewrite Nat.add_0_r).
  now rewrite after_after.
Qed.

Lemma rechoices_cons_app (l : string) (rest : list string) (tail : list string) :
  ((difficulty_menu ++ [invalid_choice_msg]) ++ rechoices rest ++ tail)%list
  = (rechoices (l :: rest) ++ tail)%list.
Proof. cbn [rechoices]. now rewrite <- !app_assoc. Qed.

Lemma get_difficulty_choice_returns (fuel : nat) (choice : string)
  (w w' : world) :
  get_difficulty_choice fuel w = (Ret choice, w') ->
  exists (rejected : list string) (line : string),
    next_lines w (rejected ++ [line])%list /\
    Forall (fun l => difficulty (py_lower l) DIFFICULTIES = None) rejected /\
    choice = py_lower line /\
    (exists st, difficulty choice DIFFICULTIES = Some st) /\
    (length rejected < fuel)%nat /\
    w' = after (S (length rejected)) 0 (rechoices rejected ++ difficulty_menu) w.
Proof.
  revert w; induction fuel as [|fuel IH]; intros w H; [discriminate|].
  destruct (stdin w (cursor w)) as [l|] eqn:Hl.
  - destruct (difficulty (py_lower l) DIFFICULTIES) as [st|] eqn:Hd.
    + rewrite (get_difficulty_choice_take _ _ _ _ Hl Hd) in H.
      injection H as <- <-.
      exists [], l; repeat split; eauto with arith.
      intros [|i] line Hi; simpl in Hi.
      * injection Hi as <-. now rewrite Nat.add_0_r.
      * now destruct i.
    + rewrite (get_difficulty_choice_again _ _ _ Hl Hd) in H.
      destruct (IH _ H) as (rej & line & Hn & Hr & Hc & Hv & Hlen & ->).
      exists (l :: rej), line; repeat split; auto with arith.
      * intros [|i] x Hi; simpl in Hi.
        -- injection Hi as <-. now rewrite Nat.add_0_r.
        -- specialize (Hn i x Hi). simpl in Hn.
           now replace (cursor w + S i)%nat with (cursor w + 1 + i)%nat by lia.
      * rewrite after_after. apply after_eq; [reflexivity|reflexivity|].
        apply rechoices_cons_app.
  - rewrite (get_difficulty_choice_eof _ _ Hl) in H. discriminate.
Qed.

Lemma get_difficulty_choice_reaches (fuel : nat) (w : world)
  (rejected : list string) (line : string) (st : settings) :
  next_lines w (rejected ++ [line])%list ->
  Forall (fun l => difficulty (py_lower l) DIFFICULTIES = None) rejected ->
  difficulty (py_lower line) DIFFICULTIES = Some st ->
  (length rejected < fuel)%nat ->
  get_difficulty_choice fuel w
  = (Ret (py_lower line),
     after (S (length rejected)) 0 (rechoices rejected ++ difficulty_menu) w).
Proof.
  revert w fuel; induction rejected as [|l rej IH]; intros w fuel Hn Hr Ha Hf;
    (destruct fuel as [|fuel]; [simpl in Hf; lia|]).
  - destruct (next_lines_cons w line [] 0 [] Hn) as [Hl _].
    now rewrite (get_difficulty_choice_take _ _ _ _ Hl Ha).
  - simpl app in Hn.
    destruct (next_lines_cons w l _ 0 (difficulty_menu ++ [invalid_choice_msg]) Hn)
      as [Hl Hn'].
    inversion Hr as [|? ? Hrl Hr']; subst.
    rewrite (get_difficulty_choice_again _ _ _ Hl Hrl).
    rewrite (IH _ fuel Hn' Hr' Ha) by (simpl in Hf; lia).
    rewrite after_after, (rechoices_cons_app l). reflexivity.
Qed.

(** X6. [get_difficulty_choice] returns only one of "easy", "medium" and
    "hard", so that looking the choice up in [DIFFICULTIES] cannot fail: it
    returns the lower-cased form of the first line whose lower-cased form is
    one of the three; for each line before it the menu was shown and
    "Invalid choice" printed.  Such a line is always reached when the lines
    before it are there to be read. *)
Theorem difficulty_choice_valid :
  (forall (fuel : nat) (choice : string) (w w' : world),
     get_difficulty_choice fuel w = (Ret choice, w') ->
     In choice ["easy"; "medium"; "hard"] /\
     (exists st, difficulty_settings choice w' = (Ret st, w')) /\
     exists (rejected : list string) (line : string),
       next_lines w (rejected ++ [line])%list /\
       Forall (fun l => ~ In (py_lower l) ["easy"; "medium"; "hard"]) rejected /\
       choice = py_lower line /\
       cursor w' = (cursor w + length rejected + 1)%nat /\
       stdout w' = (stdout w ++ rechoices rejected ++ difficulty_menu)%list) /\
  (forall (fuel : nat) (w : world) (rejected : list string) (line : string),
     next_lines w (rejected ++ [line])%list ->
     Forall (fun l => ~ In (py_lower l) ["easy"; "medium"; "hard"]) rejected ->
     In (py_lower line) ["easy"; "medium"; "hard"] ->
     (length rejected < fuel)%nat ->
     fst (get_difficulty_choice fuel w) = Ret (py_lower line)).
Proof.
  split.
  - intros fuel choice w w' H.
    apply get_difficulty_choice_returns in H
      as (rej & line & Hn & Hr & Hc & (st & Hv) & _ & ->).
    split; [apply difficulty_levels; eauto|].
    split; [exists st; unfold difficulty_settings; now rewrite Hv|].
    exists rej, line. repeat split; auto.
    + eapply Forall_impl; [|exact Hr]. intros l Hl Hin.
      apply difficulty_levels in Hin as (s & Hs). congruence.
    + cbn. lia.
  - intros fuel w rej line Hn Hr Hin Hf.
    apply difficulty_levels in Hin as (st & Hst).
    rewrite (get_difficulty_choice_reaches fuel w rej line st); auto.
    eapply Forall_impl; [|exact Hr]. intros l Hl.
    destruct (difficulty (py_lower l) DIFFICULTIES) eqn:E; [|reflexivity].
    destruct Hl. apply difficulty_levels; eauto.
Qed.

End Choice.

Lemma difficulty_choice_valid_witness :
  fst (get_difficulty_choice (py := AsciiText.builtins) 3
         (start ["expert"; ""; "HARD"] None [] []))
  = Ret "hard".
Proof.
  apply (proj2 (difficulty_choice_valid (py := AsciiText.builtins))
           3%nat (start ["expert"; ""; "HARD"] None [] [])
           ["expert"; ""] "HARD").
  - intros i line H; exact H.
  - repeat constructor; simpl; intuition discriminate.
  - simpl; auto.
  - simpl; lia.
Defined.

(** ** Showing the leaderboard *)

Section Table.

Context {py : Builtins}.

Lemma print_rows_after (i : nat) (scores : list json) (w : world) :
  print_rows i scores w
  = (rows_outcome i scores, after 0 0 (row_texts i scores) w).
Proof.
  revert i w; induction scores as [|x rest IH]; intros i w; simpl.
  - unfold ret. now rewrite after_0.
  - unfold bind at 1, lift.
    destruct (leaderboard_row i x) as [row| | |]; simpl;
      try (now rewrite after_0).
    rewrite (bind_ret _ _ _ _ _ (print_after _ _)), IH.
    now rewrite after_after.
Qed.

Lemma displayable_row (i : nat) (name level : string) (attempts : Z)
  (date : string) :
  leaderboard_row i (make_score name level attempts date)
  = Ret (score_row i name level attempts date).
Proof. reflexivity. Qed.

Lemma displayable_rows (i : nat) (scores : list json) :
  Forall displayable scores ->
  rows_outcome i scores = Ret tt /\
  length (row_texts i scores) = length scores /\
  forall k name level attempts date,
    nth_error scores k = Some (make_score name level attempts date) ->
    nth_error (row_texts i scores) k
    = Some (score_row (i + k) name level attempts date).
Proof.
  intros H. revert i.
  induction H as [|x rest (n & l & a & d & ->) _ IH]; intros i.
  - repeat split. intros [|k]; discriminate.
  - destruct (IH (S i)) as (Ho & Hlen & Hnth).
    cbn [rows_outcome row_texts]. rewrite displayable_row.
    cbn [rbind length]. repeat split; auto.
    intros [|k] name level attempts date Hk; cbn [nth_error] in *.
    + injection Hk as <- <- <- <-. now rewrite Nat.add_0_r.
    + rewrite (Hnth k _ _ _ _ Hk). f_equal. f_equal. lia.
Qed.

(** How [display_leaderboard] runs: the banner, the table, and, unless a
    record could not be formatted, the closing line and the wait for
    Enter. *)
Lemma display_leaderboard_run (scores : list json) (w : world) :
  display_leaderboard scores w
  = match rows_outcome 0 (firstn 10 scores) with
    | Ret _ =>
        match stdin w (cursor w) with
        | Some _ => (Ret tt, after 1 0 (banner ++ table scores ++ closing) w)
        | None =>
            (Raise EOFError, after 0 0 (banner ++ table scores ++ closing) w)
        end
    | Raise e => (Raise e, after 0 0 (banner ++ table scores) w)
    | OutOfFuel => (OutOfFuel, after 0 0 (banner ++ table scores) w)
    | Unmodelled => (Unmodelled, after 0 0 (banner ++ table scores) w)
    end.
Proof.
  unfold display_leaderboard, clear_screen.
  unfold bind at 1, ret at 1.
  rewrite (bind_ret _ _ _ _ _ (print_after _ _)).
  rewrite (bind_ret _ _ _ _ _ (print_after _ _)).
  rewrite (bind_ret _ _ _ _ _ (print_after _ _)).
  rewrite !after_after.
  assert (Htable :
    forall v,
      (match scores with
       | [] => print (nl ++ "No scores recorded yet. Be the first to play!")
       | _ => (print leaderboard_header ;; print (repeat_str "-" 60) ;;
               print_rows 0 (firstn 10 scores))%py
       end) v
      = (rows_outcome 0 (firstn 10 scores), after 0 0 (table scores) v)).
  { intros v. destruct scores as [|x rest].
    - now rewrite print_after.
    - rewrite (bind_ret _ _ _ _ _ (print_after _ _)).
      rewrite (bind_ret _ _ _ _ _ (print_after _ _)).
      rewrite print_rows_after, !after_after. reflexivity. }
  unfold bind at 1. rewrite Htable, after_after.
  destruct (rows_outcome 0 (firstn 10 scores)) as [[]| | |]; try reflexivity.
  rewrite (bind_ret _ _ _ _ _ (print_after _ _)), after_after.
  destruct (stdin w (cursor w)) as [line|] eqn:Hl.
  - match goal with
    | |- bind (input _) _ ?v = _ =>
        assert (Hin : stdin v (cursor v) = Some line)
          by (cbn; now rewrite Nat.add_0_r)
    end.
    rewrite (bind_ret _ _ _ _ _ (input_line _ _ _ Hin)).
    unfold ret. rewrite after_after. f_equal.
    apply after_eq; [reflexivity|reflexivity|].
    unfold closing. now rewrite <- !app_assoc.
  - match goal with
    | |- bind (input _) _ ?v = _ =>
        assert (Hin : stdin v (cursor v) = None)
          by (cbn; now rewrite Nat.add_0_r)
    end.
    unfold bind. rewrite (input_eof _ _ Hin).
    rewrite after_after. f_equal.
    apply after_eq; [reflexivity|reflexivity|].
    unfold closing. now rewrite <- !app_assoc.
Qed.

(** X7. Of a leaderboard made of records that [play_game] saved,
    [display_leaderboard] shows the first ten and no more, one row each,
    numbered from 1 in the order of the list, under the header; of an empty
    leaderboard it shows the line "No scores recorded yet" instead of a
    table.  It then waits for a line, and raises [EOFError] when there is
    none. *)
Theorem display_top_ten (scores : list json) (w : world) :
  Forall displayable scores ->
  exists rows,
    length rows = Nat.min 10 (length scores) /\
    (forall k name level attempts date,
       (k < 10)%nat ->
       nth_error scores k = Some (make_score name level attempts date) ->
       nth_error rows k = Some (score_row k name level attempts date)) /\
    stdout (snd (display_leaderboard scores w))
    = (stdout w ++ banner
         ++ match scores with
            | [] => [no_scores_msg]
            | _ => leaderboard_header :: repeat_str "-" 60 :: rows
            end
         ++ closing)%list /\
    fst (display_leaderboard scores w)
    = match stdin w (cursor w) with
      | Some _ => Ret tt
      | None => Raise EOFError
      end.
Proof.
  intros H.
  assert (H10 : Forall displayable (firstn 10 scores)).
  { rewrite <- (firstn_skipn 10 scores) in H.
    now apply Forall_app in H as [H _]. }
  destruct (displayable_rows 0 (firstn 10 scores) H10) as (Ho & Hlen & Hnth).
  exists (row_texts 0 (firstn 10 scores)).
  split; [now rewrite Hlen, length_firstn|].
  split.
  - intros k name level attempts date Hk Hs.
    apply (Hnth k). rewrite nth_error_firstn.
    destruct (Nat.ltb_spec k 10); [exact Hs|lia].
  - rewrite display_leaderboard_run, Ho.
    destruct (stdin w (cursor w)); split; try reflexivity;
      cbn [snd stdout after]; unfold table; now destruct scores.
Qed.

(** X8. Records after the tenth have no part in what [display_leaderboard]
    does: it neither shows nor examines them, so that it runs on a list as
    it runs on the first ten of it. *)
Theorem display_ignores_rest (scores : list json) (w : world) :
  display_leaderboard scores w = display_leaderboard (firstn 10 scores) w.
Proof.
  rewrite !display_leaderboard_run.
  rewrite firstn_firstn, Nat.min_id.
  assert (Ht : table (firstn 10 scores) = table scores).
  { unfold table. destruct scores as [|x rest]; [reflexivity|].
    change (firstn 10 (x :: rest)) with (x :: firstn 9 rest).
    change (firstn 10 (x :: firstn 9 rest))
      with (x :: firstn 9 (firstn 9 rest)).
    now rewrite firstn_firstn, Nat.min_id. }
  now rewrite Ht.
Qed.

Lemma rows_stop (i : nat) (good rest : list json) (bad : json) (e : exn) :
  Forall displayable good ->
  subscript bad "name" = Raise e ->
  rows_outcome i (good ++ bad :: rest) = Raise e /\
  row_texts i (good ++ bad :: rest) = row_texts i good.
Proof.
  intros Hg Hb. revert i.
  induction Hg as [|x good (n & l & a & d & ->) _ IH]; intros i.
  - cbn [app rows_outcome row_texts]. unfold leaderboard_row.
    rewrite Hb. split; reflexivity.
  - destruct (IH (S i)) as [Ho Ht].
    cbn [app rows_outcome row_texts]. rewrite displayable_row.
    cbn [rbind]. now rewrite Ho, Ht.
Qed.

(** X9. A record without a ['name'] among the first ten stops
    [display_leaderboard], although [load_high_scores] lets such a record
    through when it has its ['attempts']: the rows of the records before it
    are printed, then [KeyError] is raised ([TypeError] when the item is
    not an object), and the closing line is not reached. *)
Theorem display_stops_at_nameless (good rest : list json) (bad : json)
  (e : exn) (w : world) :
  Forall displayable good -> (length good < 10)%nat ->
  subscript bad "name" = Raise e ->
  display_leaderboard (good ++ bad :: rest) w
  = (Raise e,
     after 0 0 (banner ++ leaderboard_header :: repeat_str "-" 60
                  :: row_texts 0 good) w) /\
  length (row_texts 0 good) = length good /\
  (e = KeyError <->
   exists fields, bad = JObj fields /\ lookup "name" fields = None).
Proof.
  intros Hg Hlen Hb.
  assert (E : firstn 10 (good ++ bad :: rest)
              = (good ++ bad :: firstn (9 - length good) rest)%list).
  { rewrite firstn_app.
    rewrite firstn_all2 by lia.
    replace (10 - length good)%nat with (S (9 - length good)) by lia.
    reflexivity. }
  destruct (rows_stop 0 good (firstn (9 - length good) rest) bad e Hg Hb)
    as [Ho Ht].
  split; [|split].
  - rewrite display_leaderboard_run, E, Ho.
    unfold table. rewrite E, Ht. now destruct good.
  - exact (proj1 (proj2 (displayable_rows 0 good Hg))).
  - unfold subscript in Hb. destruct bad as [| | | | | |fields];
      try (injection Hb as <-; split; [discriminate|intros (f & [=] & _)]).
    destruct (lookup "name" fields) eqn:El; [discriminate|].
    injection Hb as <-. split; eauto.
Qed.

End Table.

Lemma display_top_ten_witness :
  exists rows,
    length rows
    = Nat.min 10 (length [make_score "ann" "easy" 3 "2024-01-01"]) /\
    (forall k name level attempts date,
       (k < 10)%nat ->
       nth_error [make_score "ann" "easy" 3 "2024-01-01"] k
       = Some (make_score name level attempts date) ->
       nth_error rows k
       = Some (score_row (py := AsciiText.builtins) k name level attempts date)) /\
    stdout (snd (display_leaderboard (py := AsciiText.builtins)
                   [make_score "ann" "easy" 3 "2024-01-01"]
                   (start [""] None [] [])))
    = (stdout (start [""] None [] []) ++ banner
         ++ (leaderboard_header (py := AsciiText.builtins)
               :: repeat_str "-" 60 :: rows)
         ++ closing)%list /\
    fst (display_leaderboard (py := AsciiText.builtins)
           [make_score "ann" "easy" 3 "2024-01-01"]
           (start [""] None [] []))
    = match stdin (start [""] None [] []) (cursor (start [""] None [] [])) with
      | Some _ => Ret tt
      | None => Raise EOFError
      end.
Proof.
  apply (display_top_ten (py := AsciiText.builtins)
           [make_score "ann" "easy" 3 "2024-01-01"] (start [""] None [] [])).
  repeat constructor. now exists "ann", "easy", 3, "2024-01-01".
Defined.

Lemma display_stops_at_nameless_witness :
  display_leaderboard (py := AsciiText.builtins)
    ([make_score "ann" "easy" 3 "2024-01-01"]
       ++ JObj [("attempts", JInt 4)] :: [])
    (start [""] None [] [])
  = (Raise KeyError,
     after 0 0 (banner ++ leaderboard_header (py := AsciiText.builtins)
                  :: repeat_str "-" 60
                  :: row_texts (py := AsciiText.builtins) 0
                       [make_score "ann" "easy" 3 "2024-01-01"])
           (start [""] None [] [])).
Proof.
  apply (display_stops_at_nameless (py := AsciiText.builtins)
           [make_score "ann" "easy" 3 "2024-01-01"] []
           (JObj [("attempts", JInt 4)]) KeyError (start [""] None [] [])).
  - repeat constructor. now exists "ann", "easy", 3, "2024-01-01".
  - simpl; lia.
  - reflexivity.
Defined.

(** ** Frames: what a run leaves alone *)

Lemma later_refl (w : world) : later w w.
Proof.
  exists 0%nat, 0%nat, []. split; [now rewrite after_0|]. intros i Hi; lia.
Qed.

Lemma later_trans (w1 w2 w3 : world) : later w1 w2 -> later w2 w3 -> later w1 w3.
Proof.
  intros (k & d & o & -> & H1) (k' & d' & o' & -> & H2).
  exists (k + k')%nat, (d + d')%nat, (o ++ o')%list.
  split; [apply after_after|].
  intros i Hi. destruct (Nat.lt_ge_cases i k) as [Hlt|Hge]; [now apply H1|].
  specialize (H2 (i - k)%nat ltac:(lia)). cbn in H2.
  now replace (cursor w1 + k + (i - k))%nat with (cursor w1 + i)%nat in H2
    by lia.
Qed.

Lemma later_after_0 (d : nat) (out : list string) (w : world) :
  later w (after 0 d out w).
Proof. exists 0%nat, d, out. split; [reflexivity|]. intros i Hi; lia. Qed.

Lemma later_read (d : nat) (out : list string) (line : string) (w : world) :
  stdin w (cursor w) = Some line -> later w (after 1 d out w).
Proof.
  intros H. exists 1%nat, d, out. split; [reflexivity|].
  intros i Hi. replace i with 0%nat by lia. rewrite Nat.add_0_r, H.
  discriminate.
Qed.

Lemma later_same_input (w w' : world) : later w w' -> same_input w w'.
Proof.
  intros (k & d & o & -> & H). repeat split; cbn; [lia|].
  intros n [Hn Hc].
  destruct (Nat.le_gt_cases (cursor w + k) n) as [|Hlt]; [assumption|].
  exfalso. apply (H (n - cursor w)%nat); [lia|].
  now replace (cursor w + (n - cursor w))%nat with n by lia.
Qed.

Lemma later_store (w w' : world) :
  later w w' -> file w' = file w /\ faults w' = faults w.
Proof. intros (k & d & o & -> & _). split; reflexivity. Qed.

Lemma same_input_refl (w : world) : same_input w w.
Proof. repeat split; auto. now intros n [_ H]. Qed.

Lemma same_input_trans (w1 w2 w3 : world) :
  same_input w1 w2 -> same_input w2 w3 -> same_input w1 w3.
Proof.
  intros (Hs & Ht & Hc & He) (Hs' & Ht' & Hc' & He').
  repeat split; try congruence; [lia|].
  intros n [Hn Hle]. apply He'. split; [now rewrite Hs|].
  apply He. now split.
Qed.

Lemma calm_mild {A : Type} (n b : nat) (w : world) (r : result A) :
  calm n b w r -> mild r.
Proof. now intros [H _]. Qed.

Lemma calm_shift {A : Type} (n b : nat) (w w1 : world) (r : result A) :
  same_input w w1 -> calm n b w1 r -> calm n b w r.
Proof.
  intros (Hs & _ & Hc & He) [Hm Hf]. split; [exact Hm|].
  intros E [[Hn Hle] Hb]. apply (Hf E). split.
  - split; [now rewrite Hs|]. apply He. now split.
  - lia.
Qed.

Lemma calm_mono {A : Type} (n b b' : nat) (w : world) (r : result A) :
  (b' <= b)%nat -> calm n b w r -> calm n b' w r.
Proof.
  intros Hb [Hm Hf]. split; [exact Hm|].
  intros E [He Hlt]. apply (Hf E). split; [exact He|lia].
Qed.

Lemma calm_step {A : Type} (n b d : nat) (out : list string) (line : string)
  (w : world) (r : result A) :
  stdin w (cursor w) = Some line ->
  calm n b (after 1 d out w) r -> calm n (S b) w r.
Proof.
  intros Hl [Hm Hf]. split; [exact Hm|].
  intros E [[Hn Hle] Hb]. apply (Hf E).
  assert (cursor w <> n) by (intros E'; rewrite E' in Hl; congruence).
  repeat split; cbn; [exact Hn|lia|lia].
Qed.

Lemma calm_ret {A : Type} (n b : nat) (w : world) (a : A) : calm n b w (Ret a).
Proof. split; [exact I|discriminate]. Qed.

Lemma calm_eof {A : Type} (n b : nat) (w : world) :
  calm n b w (@Raise A EOFError).
Proof. split; [reflexivity|discriminate]. Qed.

Lemma calm_no_fuel {A : Type} (n : nat) (w : world) :
  calm n 0 w (@OutOfFuel A).
Proof. split; [exact I|]. intros _ [_ H]. lia. Qed.

Lemma bind_raise {A B : Type} (m : M A) (k : A -> M B) (w w1 : world)
  (e : exn) :
  m w = (Raise e, w1) -> bind m k w = (Raise e, w1).
Proof. unfold bind; now intros ->. Qed.

Lemma bind_out_of_fuel {A B : Type} (m : M A) (k : A -> M B) (w w1 : world) :
  m w = (OutOfFuel, w1) -> bind m k w = (OutOfFuel, w1).
Proof. unfold bind; now intros ->. Qed.

Lemma bind_unmodelled {A B : Type} (m : M A) (k : A -> M B) (w w1 : world) :
  m w = (Unmodelled, w1) -> bind m k w = (Unmodelled, w1).
Proof. unfold bind; now intros ->. Qed.

(** ** Tame computations *)

Lemma tame_returns {A : Type} (n b : nat) (P : A -> Prop) (m : M A) :
  (forall w, exists a d out, m w = (Ret a, after 0 d out w) /\ P a) ->
  tame n b P m.
Proof.
  intros H w. destruct (H w) as (a & d & out & -> & Ha). cbn [fst snd].
  split; [apply calm_ret|]. split; [apply later_after_0|].
  now intros a' [= <-].
Qed.

Lemma tame_ret {A : Type} (n b : nat) (P : A -> Prop) (a : A) :
  P a -> tame n b P (ret a).
Proof.
  intros Ha. apply tame_returns. intros w. exists a, 0%nat, [].
  now rewrite after_0.
Qed.

Lemma tame_print (n b : nat) (s : string) : tame n b (fun _ => True) (print s).
Proof.
  apply tame_returns. intros w. exists tt, 0%nat, [s].
  now rewrite print_after.
Qed.

Lemma tame_input (n b : nat) (prompt : string) :
  tame n b (fun _ => True) (input prompt).
Proof.
  intros w. destruct (stdin w (cursor w)) as [line|] eqn:Hl.
  - rewrite (input_line _ _ _ Hl). cbn [fst snd].
    split; [apply calm_ret|]. split; [now apply later_read with line|auto].
  - rewrite (input_eof _ _ Hl). cbn [fst snd].
    split; [apply calm_eof|]. split; [apply later_after_0|discriminate].
Qed.

Lemma tame_bind {A B : Type} (n b : nat) (P : A -> Prop) (Q : B -> Prop)
  (m : M A) (k : A -> M B) :
  tame n b P m -> (forall a, P a -> tame n b Q (k a)) ->
  tame n b Q (bind m k).
Proof.
  intros Hm Hk w. destruct (Hm w) as (Hc & Hl & HP). unfold bind.
  destruct (m w) as [[a|e| |] w1]; cbn [fst snd] in *.
  - destruct (Hk a (HP a eq_refl) w1) as (Hc' & Hl' & HQ).
    split; [|split].
    + eapply calm_shift; [apply later_same_input; exact Hl|exact Hc'].
    + now apply later_trans with w1.
    + exact HQ.
  - destruct Hc as [Hm' _]. cbn in Hm'. subst e.
    split; [apply calm_eof|]. split; [exact Hl|discriminate].
  - destruct Hc as [_ Hf].
    split; [split; [exact I|intros _; now apply Hf]|].
    split; [exact Hl|discriminate].
  - now destruct Hc as [[] _].
Qed.

Lemma tame_post {A : Type} (n b : nat) (P Q : A -> Prop) (m : M A) :
  tame n b P m -> (forall w a, fst (m w) = Ret a -> Q a) -> tame n b Q m.
Proof.
  intros H HQ w. destruct (H w) as (Hc & Hl & _).
  split; [exact Hc|]. split; [exact Hl|]. intros a. apply HQ.
Qed.

Lemma tame_mono {A : Type} (n b b' : nat) (P : A -> Prop) (m : M A) :
  (b' <= b)%nat -> tame n b P m -> tame n b' P m.
Proof.
  intros Hb H w. destruct (H w) as (Hc & Hl & HP).
  split; [now apply calm_mono with b|]. now split.
Qed.

Lemma difficulty_tries (level : string) (st : settings) :
  difficulty level DIFFICULTIES = Some st -> 0 < tries st /\ range st = 100.
Proof.
  intros H.
  assert (Hin : In level ["easy"; "medium"; "hard"])
    by (apply difficulty_levels; eauto).
  destruct Hin as [<-|[<-|[<-|[]]]]; injection H as <-; split;
    reflexivity.
Qed.

Section Tame.

Context {py : Builtins}.

Variables n : nat.

Lemma tame_player_name (b : nat) :
  tame n b (fun name => name <> ""%string) get_player_name.
Proof.
  unfold get_player_name.
  eapply tame_bind; [apply tame_input|]. intros line _.
  apply tame_ret. destruct (String.eqb_spec (py_strip line) ""); [|assumption].
  discriminate.
Qed.

Lemma tame_difficulty_choice (fuel : nat) :
  tame n fuel (fun choice => exists st, difficulty choice DIFFICULTIES = Some st)
       (get_difficulty_choice fuel).
Proof.
  induction fuel as [|fuel IH]; intros w.
  - cbn [get_difficulty_choice out_of_fuel lift fst snd].
    split; [apply calm_no_fuel|]. split; [apply later_refl|discriminate].
  - destruct (stdin w (cursor w)) as [line|] eqn:Hl.
    + destruct (difficulty (py_lower line) DIFFICULTIES) as [st|] eqn:Hd.
      * rewrite (get_difficulty_choice_take _ _ _ _ Hl Hd). cbn [fst snd].
        split; [apply calm_ret|]. split; [now apply later_read with line|].
        intros a [= <-]. eauto.
      * rewrite (get_difficulty_choice_again _ _ _ Hl Hd).
        destruct (IH (after 1 0 (difficulty_menu ++ [invalid_choice_msg]) w))
          as (Hc & Hla & HP).
        split; [now apply calm_step with (line := line) in Hc|].
        split; [|exact HP].
        eapply later_trans; [|exact Hla]. now apply later_read with line.
    + rewrite (get_difficulty_choice_eof _ _ Hl). cbn [fst snd].
      split; [apply calm_eof|]. split; [apply later_after_0|discriminate].
Qed.

Lemma tame_user_guess (fuel : nat) (max_range : Z) :
  tame n fuel (fun _ => True) (get_user_guess fuel max_range).
Proof.
  induction fuel as [|fuel IH]; intros w.
  - cbn [get_user_guess out_of_fuel lift fst snd].
    split; [apply calm_no_fuel|]. split; [apply later_refl|discriminate].
  - destruct (stdin w (cursor w)) as [line|] eqn:Hl.
    + destruct (accepted max_range line) as [g|] eqn:Ha.
      * rewrite (get_user_guess_take _ _ _ _ _ Hl Ha). cbn [fst snd].
        split; [apply calm_ret|]. split; [now apply later_read with line|auto].
      * rewrite (get_user_guess_again _ _ _ _ Hl Ha).
        match goal with
        | |- context [get_user_guess fuel max_range ?v] =>
            destruct (IH v) as (Hc & Hla & HP)
        end.
        split; [now apply calm_step with (line := line) in Hc|].
        split; [|exact HP].
        eapply later_trans; [|exact Hla]. now apply later_read with line.
    + rewrite (get_user_guess_eof _ _ _ Hl). cbn [fst snd].
      split; [apply calm_eof|]. split; [apply later_after_0|discriminate].
Qed.

Lemma tame_generate_hint (b : nat) (secret_number attempts : Z)
  (last : option Z) :
  tame n b (fun _ => True) (generate_hint secret_number attempts last).
Proof.
  apply tame_returns. intros w.
  destruct (generate_hint_returns secret_number attempts last w) as (h & E).
  exists h. do 2 eexists. split; [exact E|exact I].
Qed.

Lemma tame_settings (b : nat) (level : string) (st : settings) :
  difficulty level DIFFICULTIES = Some st ->
  tame n b (fun st' => st' = st) (difficulty_settings level).
Proof.
  intros H. unfold difficulty_settings. rewrite H. now apply tame_ret.
Qed.

Lemma tame_secret_number (b : nat) (level : string) (st : settings) :
  difficulty level DIFFICULTIES = Some st ->
  tame n b (fun _ => True) (generate_secret_number level).
Proof.
  intros H. apply tame_returns. intros w.
  destruct (difficulty_tries level st H) as [_ Hr].
  destruct (randint_returns 1 (range st) w) as (r & _ & E); [lia|].
  exists (1 + r), 1%nat, []. split; [|exact I].
  unfold generate_secret_number, difficulty_settings. rewrite H. exact E.
Qed.

Lemma tame_guess_round (budget : nat) (player_name : string)
  (secret_number max_attempts max_range : Z) (st : session) :
  tame n budget (round_post secret_number st)
       (guess_round budget player_name secret_number max_attempts max_range
                    st).
Proof.
  apply tame_post with (P := fun _ => True).
  - unfold guess_round.
    eapply tame_bind; [apply tame_print|]. intros _ _.
    eapply tame_bind; [apply tame_user_guess|]. intros guess _. cbv zeta.
    destruct (guess =? secret_number).
    + eapply tame_bind; [apply tame_print|]. intros _ _. now apply tame_ret.
    + eapply tame_bind; [apply tame_print|]. intros _ _.
      eapply tame_bind with (P := fun _ => True).
      * destruct (hint_due _ _); [|now apply tame_ret].
        eapply tame_bind; [apply tame_generate_hint|]. intros h _.
        apply tame_print.
      * intros _ _. now apply tame_ret.
  - intros w [sig st'] E.
    destruct (guess_round budget player_name secret_number max_attempts
                          max_range st w) as [r w'] eqn:Er.
    cbn [fst] in E. subst r.
    destruct (guess_round_returns _ _ _ _ _ _ _ _ _ _ Er)
      as (rej & line & g & d & tail & _ & _ & _ & Hn & Hg & _ & Hcase).
    split; [exact Hn|]. cbn [fst snd].
    destruct Hcase as [(-> & -> & Hw & _)|(Hne & -> & Hw & _)].
    + left. auto.
    + right. repeat split; auto. now exists g.
Qed.

Lemma guess_round_reads (budget : nat) (player_name : string)
  (secret_number max_attempts max_range : Z) (st : session)
  (r : signal * session) (w w' : world) :
  guess_round budget player_name secret_number max_attempts max_range st w
  = (Ret r, w') ->
  (cursor w < cursor w')%nat.
Proof.
  destruct r as [sig st']. intros E.
  destruct (guess_round_returns _ _ _ _ _ _ _ _ _ _ E)
    as (rej & line & g & d & tail & _ & _ & _ & _ & _ & -> & _).
  cbn. lia.
Qed.

Lemma tame_guess_loop (fuel budget : nat) (player_name : string)
  (secret_number max_attempts max_range : Z) (st : session) :
  open_session secret_number st -> attempts_made st <= max_attempts ->
  tame n (Nat.min fuel budget) (loop_post secret_number max_attempts st)
       (guess_loop fuel budget player_name secret_number max_attempts
                   max_range st).
Proof.
  revert st. induction fuel as [|fuel IH]; intros st [Hw Hg] Hle w.
  - destruct (Z.lt_ge_cases (attempts_made st) max_attempts) as [Hlt|Hge].
    + cbn [guess_loop]. destruct (Z.ltb_spec (attempts_made st) max_attempts);
        [|lia].
      cbn [out_of_fuel lift fst snd].
      split; [apply calm_no_fuel|]. split; [apply later_refl|discriminate].
    + rewrite guess_loop_done by lia. cbn [fst snd].
      split; [apply calm_ret|]. split; [apply later_refl|].
      intros a [= <-]. right. repeat split; auto. lia.
  - destruct (Z.lt_ge_cases (attempts_made st) max_attempts) as [Hlt|Hge].
    + rewrite guess_loop_step by assumption.
      destruct (tame_guess_round budget player_name secret_number max_attempts
                  max_range st w) as (Hc & Hl & HP).
      pose proof (fun r w' =>
                    guess_round_reads budget player_name secret_number
                      max_attempts max_range st r w w') as Hread.
      unfold bind.
      destruct (guess_round budget player_name secret_number max_attempts
                            max_range st w) as [[[sig st']|e| |] w1];
        cbn [fst snd] in *.
      * destruct (HP _ eq_refl) as (Hn & Hcase). cbn [fst snd] in Hn, Hcase.
        specialize (Hread _ _ eq_refl).
        destruct Hcase as [(-> & Hw' & Hg')|(-> & Hw' & g & Hg' & Hne)].
        -- cbn [ret fst snd]. split; [apply calm_ret|]. split; [exact Hl|].
           intros a [= <-]. left. repeat split; auto; lia.
        -- assert (Ho : open_session secret_number st').
           { split; [congruence|]. rewrite Hg'. intros [= <-]. now apply Hne. }
           destruct (IH st' Ho ltac:(lia) w1) as (Hc' & Hl' & HP').
           pose proof (later_same_input _ _ Hl) as (Hs1 & _ & _ & He1).
           split; [|split].
           ++ destruct Hc' as [Hm Hf]. split; [exact Hm|].
              intros E [[Hn0 Hle0] Hb]. apply (Hf E).
              assert (cursor w1 <= n)%nat by (apply He1; now split).
              split; [split; [now rewrite Hs1|assumption]|lia].
           ++ now apply later_trans with w1.
           ++ intros a Ha. destruct (HP' a Ha)
                as [(Hwa & Hga & Hna)|(Hwa & Hna & Hfin)].
              ** left. repeat split; auto; lia.
              ** right. repeat split; auto. right.
                 destruct Hfin as [->|Hfin]; [now exists g|exact Hfin].
      * destruct Hc as [Hm' _]. cbn in Hm'. subst e.
        split; [apply calm_eof|]. split; [exact Hl|discriminate].
      * destruct Hc as [_ Hf].
        split; [|split; [exact Hl|discriminate]].
        split; [exact I|]. intros _ [He Hb]. apply (Hf eq_refl).
        split; [exact He|lia].
      * now destruct Hc as [[] _].
    + rewrite guess_loop_done by lia. cbn [fst snd].
      split; [apply calm_ret|]. split; [apply later_refl|].
      intros a [= <-]. right. repeat split; auto. lia.
Qed.

End Tame.

Section Outcome.

Context {py : Builtins}.

(** X10. A round of guesses that starts afresh ends won exactly when its
    last guess is the secret number, and then within the attempts allowed;
    it ends lost only when all the attempts were used, the last of them on
    a wrong guess.  Nothing but the input, the output and the random
    generator is touched while it runs, and the only exception that leaves
    it is [EOFError]. *)
Theorem round_won_or_spent (fuel budget : nat) (player_name : string)
  (secret_number max_attempts max_range : Z) (w : world) :
  0 < max_attempts ->
  let run := guess_loop fuel budget player_name secret_number max_attempts
                        max_range (mkSession 0 None false) w in
  later w (snd run) /\ mild (fst run) /\
  forall final, fst run = Ret final ->
    (game_won final = true <-> last_guess final = Some secret_number) /\
    (game_won final = true -> 1 <= attempts_made final <= max_attempts) /\
    (game_won final = false ->
     attempts_made final = max_attempts /\
     exists g, last_guess final = Some g /\ g <> secret_number).
Proof.
  intros Hmax run.
  destruct (tame_guess_loop 0 fuel budget player_name secret_number max_attempts
              max_range (mkSession 0 None false)
              ltac:(split; [reflexivity|discriminate])
              ltac:(cbn; lia) w) as (Hc & Hl & HP).
  split; [exact Hl|]. split; [exact (calm_mild _ _ _ _ Hc)|].
  intros final E.
  destruct (HP final E) as [(Hw & Hg & Hn)|(Hw & Hn & Hfin)]; cbn in Hn.
  - repeat split; auto; try lia; try congruence.
  - assert (Hg : exists g, last_guess final = Some g /\ g <> secret_number).
    { destruct Hfin as [->|Hfin]; [cbn in Hn; lia|exact Hfin]. }
    destruct Hg as (g & Hg & Hne).
    repeat split; try congruence; eauto.
Qed.

End Outcome.

Lemma round_won_or_spent_witness :
  let run := guess_loop (py := AsciiText.builtins) 5 5 "bob" 7 5 100
                        (mkSession 0 None false)
                        (start ["3"; "7"] None [] []) in
  later (start ["3"; "7"] None [] []) (snd run) /\ mild (fst run) /\
  forall final, fst run = Ret final ->
    (game_won final = true <-> last_guess final = Some 7) /\
    (game_won final = true -> 1 <= attempts_made final <= 5) /\
    (game_won final = false ->
     attempts_made final = 5 /\
     exists g, last_guess final = Some g /\ g <> 7).
Proof.
  apply (round_won_or_spent (py := AsciiText.builtins) 5 5 "bob" 7 5 100
           (start ["3"; "7"] None [] [])).
  lia.
Defined.

(** ** A game and the leaderboard file *)

Lemma save_input (score : json) (w : world) :
  same_input w (snd (save_high_score score w)).
Proof.
  assert (H : forall w1 : world,
             stdin w1 = stdin w -> cursor w1 = cursor w ->
             today w1 = today w -> same_input w w1).
  { intros w1 Hs Hc Ht. repeat split; auto; [lia|].
    intros n [_ Hn]. lia. }
  destruct (load_high_scores w) as [r w1] eqn:El.
  destruct (load_frame _ _ _ El) as (_ & Hf & out & ->).
  destruct r as [scores|e| |].
  - destruct (sorted_by attempts_key (scores ++ [score])) as [merged|e| |] eqn:Es.
    + destruct (faults w) as [|[f|] rest] eqn:Ef.
      * rewrite (save_written _ _ _ _ _ El Es) by now left.
        apply H; cbn; rewrite ?Nat.add_0_r; reflexivity.
      * rewrite (save_faulted _ _ _ _ _ f rest El Es Ef). apply H; cbn; rewrite ?Nat.add_0_r; reflexivity.
      * rewrite (save_written _ _ _ _ _ El Es) by (right; eauto).
        apply H; cbn; rewrite ?Nat.add_0_r; reflexivity.
    + unfold save_high_score. rewrite (bind_ret _ _ _ _ _ El).
      unfold bind, lift. rewrite Es. apply H; cbn; rewrite ?Nat.add_0_r; reflexivity.
    + unfold save_high_score. rewrite (bind_ret _ _ _ _ _ El).
      unfold bind, lift. rewrite Es. apply H; cbn; rewrite ?Nat.add_0_r; reflexivity.
    + unfold save_high_score. rewrite (bind_ret _ _ _ _ _ El).
      unfold bind, lift. rewrite Es. apply H; cbn; rewrite ?Nat.add_0_r; reflexivity.
  - unfold save_high_score, bind. rewrite El. apply H; cbn; rewrite ?Nat.add_0_r; reflexivity.
  - unfold save_high_score, bind. rewrite El. apply H; cbn; rewrite ?Nat.add_0_r; reflexivity.
  - unfold save_high_score, bind. rewrite El. apply H; cbn; rewrite ?Nat.add_0_r; reflexivity.
Qed.

Lemma displayable_int_keyed (x : json) : displayable x -> int_keyed x.
Proof. intros (n & l & a & d & ->). apply make_score_int_keyed. Qed.

Lemma load_made (w : world) :
  board_made (file w) ->
  exists l out,
    load_high_scores w = (Ret l, after 0 0 out w) /\ Forall displayable l.
Proof.
  intros Hb. destruct (file w) as [[|v|msg|]|] eqn:Hf; try now destruct Hb.
  - rewrite (load_undecodable w Hf). do 2 eexists. split; [reflexivity|].
    constructor.
  - destruct Hb as (l & -> & Hl).
    destruct (sorted_by_int l) as (l' & E & Hp & _).
    { eapply Forall_impl; [|exact Hl]. exact displayable_int_keyed. }
    rewrite (load_document w _ Hf). unfold py_sorted; cbn [iterate rbind].
    rewrite E.
    exists l', []. rewrite after_0. split; [reflexivity|].
    eapply Permutation_Forall; eauto.
  - rewrite (load_absent w Hf). exists [], []. rewrite after_0.
    split; [reflexivity|constructor].
Qed.

Lemma save_made (score : json) (w : world) :
  board_made (file w) -> displayable score ->
  exists w', save_high_score score w = (Ret tt, w') /\ board_made (file w').
Proof.
  intros Hb Hd.
  destruct (load_made w Hb) as (scores & out & Hl & Hscores).
  assert (Hall : Forall displayable (scores ++ [score]))
    by (apply Forall_app; split; [exact Hscores|now constructor]).
  destruct (sorted_by_int (scores ++ [score])) as (merged & Hs & Hp & _).
  { eapply Forall_impl; [|exact Hall]. exact displayable_int_keyed. }
  assert (Hm : Forall displayable merged)
    by (eapply Permutation_Forall; eauto).
  destruct (faults w) as [|[f|] rest] eqn:Hf.
  - rewrite (save_written _ _ _ _ _ Hl Hs) by now left.
    eexists; split; [reflexivity|]. simpl. eauto.
  - rewrite (save_faulted _ _ _ _ _ f rest Hl Hs Hf).
    eexists; split; [reflexivity|]. simpl.
    destruct f; simpl; [exact Hb|].
    now rewrite (load_readable _ _ _ _ Hl).
  - rewrite (save_written _ _ _ _ _ Hl Hs) by (right; eauto).
    eexists; split; [reflexivity|]. simpl. eauto.
Qed.

Lemma ends_step {A : Type} (n b : nat) (w0 : world) (P : A -> Prop)
  (m : M A) (k : A -> M unit) :
  tame n b P m -> (forall a, P a -> ends_game n b w0 (k a)) ->
  ends_game n b w0 (bind m k).
Proof.
  intros Hm Hk w Hw. destruct (Hm w) as (Hc & Hl & HP). unfold bind.
  destruct (m w) as [[a|e| |] w1]; cbn [fst snd] in *.
  - apply (Hk a (HP a eq_refl) w1). now apply later_trans with w.
  - left. split; [now apply later_trans with w|].
    destruct Hc as [Hm' _]. cbn in Hm'. subst e. apply calm_eof.
  - left. split; [now apply later_trans with w|].
    apply calm_shift with w; [now apply later_same_input|].
    destruct Hc as [_ Hf]. split; [exact I|intros _; now apply Hf].
  - now destruct Hc as [[] _].
Qed.

Lemma ends_tame (n b : nat) (w0 : world) (P : unit -> Prop) (m : M unit) :
  tame n b P m -> ends_game n b w0 m.
Proof.
  intros Hm w Hw. destruct (Hm w) as (Hc & Hl & _). left.
  split; [now apply later_trans with w|].
  apply calm_shift with w; [now apply later_same_input|exact Hc].
Qed.

Lemma ends_saving (n b : nat) (w0 : world) (name level : string)
  (st : settings) (attempts : Z) (msg : string) (rest : M unit) :
  name <> ""%string -> difficulty level DIFFICULTIES = Some st ->
  1 <= attempts <= tries st ->
  tame n b (fun _ => True) rest ->
  ends_game n b w0
    ((date <- date_today ;;
      save_high_score (make_score name level attempts date) ;;
      print msg) ;;
     rest)%py.
Proof.
  intros Hname Hst Hn Hrest w Hw.
  pose proof (later_same_input _ _ Hw) as Hi.
  assert (Ht : today w = today w0) by apply Hi.
  rewrite bind_assoc.
  rewrite (bind_ret date_today _ w w (today w) eq_refl).
  rewrite bind_assoc. rewrite Ht.
  pose proof (save_input (make_score name level attempts (today w0)) w) as Hsi.
  destruct (save_high_score (make_score name level attempts (today w0)) w)
    as [r1 w2] eqn:Es.
  cbn [snd] in Hsi.
  right. exists name, level, st, attempts, w.
  repeat (split; [assumption|]). cbv zeta. rewrite Es. cbn [fst snd].
  destruct r1 as [[]|e| |];
    [rewrite (bind_ret _ _ _ _ _ Es)|rewrite (bind_raise _ _ _ _ _ Es)
    |rewrite (bind_out_of_fuel _ _ _ _ Es)
    |rewrite (bind_unmodelled _ _ _ _ Es)]; cbn [fst snd].
  - assert (Hp : tame n b (fun _ => True) (print msg ;; rest)%py)
      by (eapply tame_bind; [apply tame_print|intros _ _; exact Hrest]).
    destruct (Hp w2) as (Hc & Hl & _).
    split; [exact Hl|].
    apply calm_shift with w2; [|exact Hc].
    apply same_input_trans with w; assumption.
  - split; [apply later_refl|reflexivity].
  - split; [apply later_refl|reflexivity].
  - split; [apply later_refl|reflexivity].
Qed.

Section Play.

Context {py : Builtins}.

Lemma play_game_ends (n budget : nat) (w0 : world) :
  ends_game n budget w0 (play_game budget).
Proof.
  unfold play_game, clear_screen.
  eapply ends_step; [now apply tame_ret with (P := fun _ => True)|].
  intros _ _.
  eapply ends_step; [apply tame_print|]. intros _ _.
  eapply ends_step; [apply tame_print|]. intros _ _.
  eapply ends_step; [apply tame_print|]. intros _ _.
  eapply ends_step; [apply tame_player_name|]. intros name Hname.
  eapply ends_step; [apply tame_difficulty_choice|]. intros choice (st & Hst).
  eapply ends_step; [apply (tame_settings _ _ _ _ Hst)|]. intros st' ->.
  eapply ends_step; [apply (tame_secret_number _ _ _ _ Hst)|].
  intros secret _. cbv zeta.
  eapply ends_step; [apply tame_print|]. intros _ _.
  eapply ends_step; [apply tame_print|]. intros _ _.
  destruct (difficulty_tries _ _ Hst) as [Htries _].
  eapply ends_step.
  { apply tame_mono with (b := Nat.min budget budget);
      [now rewrite Nat.min_id|].
    apply tame_guess_loop; [split; [reflexivity|discriminate]|cbn; lia]. }
  intros final [(Hw & Hg & Hn)|(Hw & Hn & _)]; rewrite Hw; cbn [negb].
  - eapply ends_step; [now apply tame_ret with (P := fun _ => True)|].
    intros _ _. cbn in Hn.
    apply ends_saving with st; auto; [lia|].
    eapply tame_bind; [apply tame_input|]. intros _ _. now apply tame_ret.
  - apply ends_tame with (P := fun _ => True).
    eapply tame_bind; [apply tame_print|]. intros _ _.
    eapply tame_bind; [now apply tame_ret with (P := fun _ => True)|].
    intros _ _.
    eapply tame_bind; [apply tame_input|]. intros _ _. now apply tame_ret.
Qed.

(** X11. A game changes the leaderboard file in one way only: by one call
    of [save_high_score], with a record whose name is not empty, whose
    difficulty is one of the three levels, whose attempts lie between 1
    and the tries of that level and whose date is today's.  Before and
    after that call, and in a game without it, the file and the fate of
    the coming writes are left as they are. *)
Theorem game_saves_once (budget : nat) (w : world) :
  later w (snd (play_game budget w)) \/
  exists name level st attempts w1,
    name <> ""%string /\ difficulty level DIFFICULTIES = Some st /\
    1 <= attempts <= tries st /\ later w w1 /\
    later (snd (save_high_score
                  (make_score name level attempts (today w)) w1))
          (snd (play_game budget w)).
Proof.
  destruct (play_game_ends 0 budget w w (later_refl w))
    as [[H _]|(name & level & st & a & w1 & Hn & Hs & Ha & Hl & Hl' & _)].
  - now left.
  - right. exists name, level, st, a, w1. auto.
Qed.

End Play.

(** ** The whole program: what can end it *)

Lemma eof_shift (n b : nat) (w w1 : world) :
  same_input w w1 -> eof_at n w /\ (n - cursor w < b)%nat ->
  eof_at n w1 /\ (n - cursor w1 < b)%nat.
Proof.
  intros (Hs & _ & Hc & He) [[Hn Hle] Hb]. split.
  - split; [now rewrite Hs|]. apply He. now split.
  - lia.
Qed.

Lemma tame_steady {A : Type} (n b : nat) (P : A -> Prop) (m : M A) :
  tame n b P m -> steady n b m.
Proof.
  intros H w. destruct (H w) as ([_ Hf] & Hl & _).
  split; [now apply later_same_input|exact Hf].
Qed.

Lemma steady_bind {A B : Type} (n b : nat) (m : M A) (k : A -> M B) :
  steady n b m -> (forall a, steady n b (k a)) -> steady n b (bind m k).
Proof.
  intros Hm Hk w. destruct (Hm w) as [Hi Hf]. unfold bind.
  destruct (m w) as [[a|e| |] w1]; cbn [fst snd] in *.
  - destruct (Hk a w1) as [Hi' Hf']. split.
    + now apply same_input_trans with w1.
    + intros E H. apply (Hf' E). now apply eof_shift with w.
  - split; [exact Hi|discriminate].
  - split; [exact Hi|]. intros _. now apply Hf.
  - split; [exact Hi|discriminate].
Qed.

Lemma steady_ret {A : Type} (n b : nat) (a : A) : steady n b (ret a).
Proof. apply tame_steady with (P := fun _ => True). now apply tame_ret. Qed.

Lemma steady_print (n b : nat) (s : string) : steady n b (print s).
Proof. eapply tame_steady. apply tame_print. Qed.

Lemma steady_input (n b : nat) (s : string) : steady n b (input s).
Proof. eapply tame_steady. apply tame_input. Qed.

Lemma steady_load (n b : nat) : steady n b load_high_scores.
Proof.
  intros w. pose proof (load_no_fuel w) as Hf.
  destruct (load_high_scores w) as [r w'] eqn:E.
  destruct (load_frame _ _ _ E) as (_ & _ & out & ->). cbn [fst snd] in *.
  split; [|intros ->; now destruct Hf].
  apply later_same_input, later_after_0.
Qed.

Lemma steady_save (n b : nat) (score : json) :
  steady n b (save_high_score score).
Proof.
  intros w. split; [apply save_input|].
  intros E. now destruct (save_no_fuel score w).
Qed.

Lemma rbind_fuel {A B : Type} (r : result A) (k : A -> result B) :
  r <> OutOfFuel -> (forall a, k a <> OutOfFuel) -> rbind r k <> OutOfFuel.
Proof. destruct r; simpl; auto; discriminate. Qed.

Lemma tame_keeps {A : Type} (n b : nat) (P : A -> Prop) (m : M A) :
  tame n b P m -> keeps_board P m.
Proof.
  intros H w Hb. destruct (H w) as ([Hm _] & Hl & HP).
  split; [exact Hm|]. split; [|exact HP].
  now rewrite (proj1 (later_store _ _ Hl)).
Qed.

Lemma keeps_bind {A B : Type} (P : A -> Prop) (Q : B -> Prop) (m : M A)
  (k : A -> M B) :
  keeps_board P m -> (forall a, P a -> keeps_board Q (k a)) ->
  keeps_board Q (bind m k).
Proof.
  intros Hm Hk w Hb. destruct (Hm w Hb) as (Hmild & Hb' & HP). unfold bind.
  destruct (m w) as [[a|e| |] w1]; cbn [fst snd] in *.
  - exact (Hk a (HP a eq_refl) w1 Hb').
  - split; [exact Hmild|]. split; [exact Hb'|discriminate].
  - split; [exact I|]. split; [exact Hb'|discriminate].
  - destruct Hmild.
Qed.

Lemma keeps_load : keeps_board (Forall displayable) load_high_scores.
Proof.
  intros w Hb. destruct (load_made w Hb) as (l & out & -> & Hl).
  cbn [fst snd]. split; [exact I|]. split; [exact Hb|].
  now intros a [= <-].
Qed.

Section Program.

Context {py : Builtins}.

Lemma leaderboard_row_fuel (i : nat) (score : json) :
  leaderboard_row i score <> OutOfFuel.
Proof.
  assert (Hs : forall k, subscript score k <> OutOfFuel).
  { intros k. unfold subscript. destruct score; try discriminate.
    destruct (lookup k fields); discriminate. }
  assert (Hc : forall w v, format_cell w v <> OutOfFuel)
    by (intros w v; destruct v; discriminate).
  unfold leaderboard_row. cbv zeta.
  repeat (apply rbind_fuel; [auto|intros ?]); try discriminate.
  destruct a1; discriminate.
Qed.

Lemma rows_outcome_fuel (i : nat) (scores : list json) :
  rows_outcome i scores <> OutOfFuel.
Proof.
  revert i; induction scores as [|x rest IH]; intros i; cbn [rows_outcome].
  - discriminate.
  - apply rbind_fuel; [apply leaderboard_row_fuel|intros _; apply IH].
Qed.

Lemma steady_display (n b : nat) (scores : list json) :
  steady n b (display_leaderboard scores).
Proof.
  intros w. rewrite display_leaderboard_run.
  pose proof (rows_outcome_fuel 0 (firstn 10 scores)) as Hf.
  destruct (rows_outcome 0 (firstn 10 scores)) as [[]|e| |];
    [|cbn [fst snd]; split;
      [apply later_same_input, later_after_0|discriminate]
     |now destruct Hf
     |cbn [fst snd]; split;
      [apply later_same_input, later_after_0|discriminate]].
  destruct (stdin w (cursor w)) as [line|] eqn:Hl; cbn [fst snd].
  - split; [|discriminate]. apply later_same_input.
    now apply later_read with line.
  - split; [|discriminate]. apply later_same_input, later_after_0.
Qed.

Lemma keeps_display (scores : list json) :
  Forall displayable scores ->
  keeps_board (fun _ => True) (display_leaderboard scores).
Proof.
  intros Hs w Hb. rewrite display_leaderboard_run.
  assert (H10 : Forall displayable (firstn 10 scores)).
  { rewrite <- (firstn_skipn 10 scores) in Hs.
    now apply Forall_app in Hs as [Hs _]. }
  rewrite (proj1 (displayable_rows 0 _ H10)).
  destruct (stdin w (cursor w)); cbn [fst snd]; repeat split; auto.
Qed.

Lemma steady_play (n budget : nat) : steady n budget (play_game budget).
Proof.
  intros w.
  destruct (play_game_ends n budget w w (later_refl w))
    as [[Hl [_ Hf]]
       |(name & level & st & a & w1 & _ & _ & _ & Hl & Hl' & Hr)].
  - split; [now apply later_same_input|exact Hf].
  - cbv zeta in Hl', Hr.
    pose proof (steady_save n budget
                  (make_score name level a (today w)) w1) as [Hi _].
    split.
    + apply same_input_trans with w1; [now apply later_same_input|].
      eapply same_input_trans; [exact Hi|now apply later_same_input].
    + intros E.
      pose proof (save_no_fuel (make_score name level a (today w)) w1)
        as Hnf.
      destruct (fst (save_high_score (make_score name level a (today w)) w1))
        as [[]|e| |].
      * now apply Hr.
      * rewrite E in Hr. discriminate.
      * now destruct Hnf.
      * rewrite E in Hr. discriminate.
Qed.

Lemma keeps_play (budget : nat) :
  keeps_board (fun _ => True) (play_game budget).
Proof.
  intros w Hb.
  destruct (play_game_ends 0 budget w w (later_refl w))
    as [[Hl [Hm _]]
       |(name & level & st & a & w1 & _ & _ & _ & Hl & Hl' & Hr)].
  - split; [exact Hm|]. split; [|auto].
    now rewrite (proj1 (later_store _ _ Hl)).
  - cbv zeta in Hl', Hr.
    destruct (save_made (make_score name level a (today w)) w1)
      as (w2 & Es & Hb2).
    { now rewrite (proj1 (later_store _ _ Hl)). }
    { now exists name, level, a, (today w). }
    rewrite Es in Hl', Hr. cbn [fst snd] in Hl', Hr.
    split; [exact (proj1 Hr)|]. split; [|auto].
    now rewrite (proj1 (later_store _ _ Hl')).
Qed.

(** What [menu_round] does with the choice it read. *)
Lemma steady_menu_choice (n budget : nat) (high_scores : list json)
  (choice : string) :
  steady n budget
    (if String.eqb choice "1" then
       play_game budget ;;
       ret (Continue, high_scores)
     else if String.eqb choice "2" then
       display_leaderboard high_scores ;;
       high_scores <- load_high_scores ;;
       ret (Continue, high_scores)
     else if String.eqb choice "3" then
       print "Thanks for playing! Goodbye." ;;
       ret (Break, high_scores)
     else
       print "Invalid choice. Please enter 1, 2, or 3." ;;
       input "Press Enter to try again..." ;;
       ret (Continue, high_scores))%py.
Proof.
  destruct (String.eqb choice "1");
    [|destruct (String.eqb choice "2"); [|destruct (String.eqb choice "3")]].
  - apply steady_bind; [apply steady_play|intros; apply steady_ret].
  - apply steady_bind; [apply steady_display|intros _].
    apply steady_bind; [apply steady_load|intros; apply steady_ret].
  - apply steady_bind; [apply steady_print|intros; apply steady_ret].
  - apply steady_bind; [apply steady_print|intros _].
    apply steady_bind; [apply steady_input|intros; apply steady_ret].
Qed.

Lemma keeps_menu_choice (budget : nat) (high_scores : list json)
  (choice : string) :
  Forall displayable high_scores ->
  keeps_board (fun r => Forall displayable (snd r))
    (if String.eqb choice "1" then
       play_game budget ;;
       ret (Continue, high_scores)
     else if String.eqb choice "2" then
       display_leaderboard high_scores ;;
       high_scores <- load_high_scores ;;
       ret (Continue, high_scores)
     else if String.eqb choice "3" then
       print "Thanks for playing! Goodbye." ;;
       ret (Break, high_scores)
     else
       print "Invalid choice. Please enter 1, 2, or 3." ;;
       input "Press Enter to try again..." ;;
       ret (Continue, high_scores))%py.
Proof.
  intros Hs.
  assert (Hret : forall (sig : signal) (l : list json),
             Forall displayable l ->
             keeps_board (fun r : signal * list json =>
                            Forall displayable (snd r)) (ret (sig, l))).
  { intros sig l Hl. apply tame_keeps with (n := 0%nat) (b := 0%nat).
    now apply tame_ret. }
  destruct (String.eqb choice "1");
    [|destruct (String.eqb choice "2"); [|destruct (String.eqb choice "3")]].
  - eapply keeps_bind; [apply keeps_play|intros _ _; now apply Hret].
  - eapply keeps_bind; [now apply keeps_display|intros _ _].
    eapply keeps_bind; [apply keeps_load|intros l Hl; now apply Hret].
  - eapply keeps_bind;
      [apply tame_keeps with (n := 0%nat) (b := 0%nat); apply tame_print|].
    intros _ _; now apply Hret.
  - eapply keeps_bind;
      [apply tame_keeps with (n := 0%nat) (b := 0%nat); apply tame_print|].
    intros _ _.
    eapply keeps_bind;
      [apply tame_keeps with (n := 0%nat) (b := 0%nat); apply tame_input|].
    intros _ _; now apply Hret.
Qed.

Lemma steady_menu_round (n budget : nat) (high_scores : list json) :
  steady n budget (menu_round budget high_scores).
Proof.
  unfold menu_round, clear_screen.
  apply steady_bind; [apply steady_ret|intros _].
  apply steady_bind; [apply steady_print|intros _].
  apply steady_bind; [apply steady_print|intros _].
  apply steady_bind; [apply steady_print|intros _].
  apply steady_bind; [apply steady_print|intros _].
  apply steady_bind; [apply steady_input|intros choice].
  apply steady_menu_choice.
Qed.

Lemma keeps_menu_round (budget : nat) (high_scores : list json) :
  Forall displayable high_scores ->
  keeps_board (fun r => Forall displayable (snd r))
              (menu_round budget high_scores).
Proof.
  intros Hs. unfold menu_round, clear_screen.
  eapply keeps_bind;
    [apply tame_keeps with (n := 0%nat) (b := 0%nat) (P := fun _ => True);
     now apply tame_ret|intros _ _].
  do 4 (eapply keeps_bind;
          [apply tame_keeps with (n := 0%nat) (b := 0%nat); apply tame_print
          |intros _ _]).
  eapply keeps_bind;
    [apply tame_keeps with (n := 0%nat) (b := 0%nat); apply tame_input|].
  intros choice _. now apply keeps_menu_choice.
Qed.

(** A pass through the menu that ends normally has read a line. *)
Lemma menu_round_reads (budget : nat) (high_scores : list json)
  (r : signal * list json) (w w' : world) :
  menu_round budget high_scores w = (Ret r, w') ->
  (cursor w < cursor w')%nat.
Proof.
  intros H. unfold menu_round, clear_screen in H.
  unfold bind at 1, ret at 1 in H.
  rewrite (bind_ret _ _ _ _ _ (print_after _ _)) in H.
  rewrite (bind_ret _ _ _ _ _ (print_after _ _)) in H.
  rewrite (bind_ret _ _ _ _ _ (print_after _ _)) in H.
  rewrite (bind_ret _ _ _ _ _ (print_after _ _)) in H.
  rewrite !after_after in H.
  destruct (stdin w (cursor w)) as [choice|] eqn:Hl.
  - match type of H with
    | bind (input _) _ ?v = _ =>
        assert (Hin : stdin v (cursor v) = Some choice)
          by (cbn; now rewrite Nat.add_0_r)
    end.
    rewrite (bind_ret _ _ _ _ _ (input_line _ _ _ Hin)) in H.
    rewrite after_after in H.
    match type of H with
    | ?m ?v = _ =>
        pose proof (proj1 (steady_menu_choice 0 budget high_scores choice v))
          as (_ & _ & Hc & _)
    end.
    rewrite H in Hc. cbn in Hc. lia.
  - match type of H with
    | bind (input _) _ ?v = _ =>
        assert (Hin : stdin v (cursor v) = None)
          by (cbn; now rewrite Nat.add_0_r)
    end.
    rewrite (bind_raise _ _ _ _ _ (input_eof _ _ Hin)) in H. discriminate.
Qed.

Lemma menu_loop_ends (n fuel budget : nat) (high_scores : list json)
  (w : world) :
  eof_at n w -> (n - cursor w < fuel)%nat -> (n - cursor w < budget)%nat ->
  fst (menu_loop fuel budget high_scores w) <> OutOfFuel.
Proof.
  revert high_scores w.
  induction fuel as [|fuel IH]; intros hs w He Hf Hb; [lia|].
  cbn [menu_loop].
  destruct (steady_menu_round n budget hs w) as [Hi Ho].
  pose proof (fun r w' => menu_round_reads budget hs r w w') as Hread.
  unfold bind.
  destruct (menu_round budget hs w) as [[[[|] hs']|e| |] w1];
    cbn [fst snd] in *; try discriminate.
  - specialize (Hread _ _ eq_refl).
    destruct (eof_shift n budget w w1 Hi (conj He Hb)) as [He1 Hb1].
    apply IH; auto. destruct He1 as [_ Hle1]. lia.
  - intros _. apply (Ho eq_refl). now split.
Qed.

Lemma keeps_menu_loop (fuel budget : nat) (high_scores : list json) :
  Forall displayable high_scores ->
  keeps_board (fun _ => True) (menu_loop fuel budget high_scores).
Proof.
  revert high_scores. induction fuel as [|fuel IH]; intros hs Hs.
  - intros w Hb. cbn. auto.
  - cbn [menu_loop]. eapply keeps_bind; [now apply keeps_menu_round|].
    intros [[|] hs'] Hs'; cbn [snd] in Hs'.
    + now apply IH.
    + apply tame_keeps with (n := 0%nat) (b := 0%nat). now apply tame_ret.
Qed.

(** X12. Started on a leaderboard file that holds nothing but records of
    [play_game] (or on none, or on one that [json.load] cannot decode), the
    program raises no exception but [EOFError], whatever is typed, whatever
    the random generator draws and whichever writes fail; and it leaves
    such a file behind.  The file has to be one that can be read: when
    [open] refuses it, the [OSError] leaves the first load, which no
    handler surrounds, and ends the program before the menu is shown; so
    does the [UnicodeDecodeError] of a file that is not text. *)
Theorem program_only_stops_at_eof (budget : nat) (w : world) :
  (board_made (file w) ->
   mild (fst (main_menu budget w)) /\
   (forall e, fst (main_menu budget w) = Raise e -> e = EOFError) /\
   board_made (file (snd (main_menu budget w)))) /\
  (forall msg, file w = Some (Forbidden msg) ->
               main_menu budget w = (Raise (OSError msg), w)) /\
  (file w = Some Garbled ->
   main_menu budget w = (Raise UnicodeDecodeError, w)).
Proof.
  repeat apply conj.
  - intros Hb.
    assert (H : keeps_board (fun _ => True) (main_menu budget)).
    { unfold main_menu. eapply keeps_bind; [apply keeps_load|].
      intros hs Hs. now apply keeps_menu_loop. }
    destruct (H w Hb) as (Hm & Hb' & _).
    split; [exact Hm|]. split; [|exact Hb'].
    intros e E. rewrite E in Hm. exact Hm.
  - intros msg Hf. unfold main_menu.
    now rewrite (bind_raise _ _ _ _ _ (load_forbidden w msg Hf)).
  - intros Hf. unfold main_menu.
    now rewrite (bind_raise _ _ _ _ _ (load_garbled w Hf)).
Qed.

(** X13. The program ends when the input does.  Started on a leaderboard
    file that holds nothing but records of [play_game] (or on none, or on
    one that [json.load] cannot decode), on an input that ends at line [n],
    and with a step budget larger than the number of lines left, the run
    of [main_menu] ends: it returns, or it raises [EOFError] where a line
    was asked for after the last.  Every pass of each of its loops reads a
    line. *)
Theorem program_ends_with_input (budget n : nat) (w : world) :
  board_made (file w) ->
  stdin w n = None -> (cursor w <= n)%nat -> (n - cursor w < budget)%nat ->
  fst (main_menu budget w) = Ret tt \/
  fst (main_menu budget w) = Raise EOFError.
Proof.
  intros Hboard Hn Hle Hb.
  assert (Hfuel : fst (main_menu budget w) <> OutOfFuel).
  { unfold main_menu.
    destruct (steady_load n budget w) as [Hi Ho].
    unfold bind.
    destruct (load_high_scores w) as [[hs|e| |] w1]; cbn [fst snd] in *;
      try discriminate.
    - destruct (eof_shift n budget w w1 Hi (conj (conj Hn Hle) Hb))
        as [He1 Hb1].
      now apply menu_loop_ends with n.
    - intros _. apply (Ho eq_refl). now repeat split. }
  assert (H : keeps_board (fun _ => True) (main_menu budget)).
  { unfold main_menu. eapply keeps_bind; [apply keeps_load|].
    intros hs Hs. now apply keeps_menu_loop. }
  destruct (H w Hboard) as (Hm & _ & _).
  destruct (fst (main_menu budget w)) as [[]|e| |]; cbn in Hm.
  - now left.
  - right. now subst e.
  - now destruct Hfuel.
  - destruct Hm.
Qed.

End Program.

Lemma program_only_stops_at_eof_witness :
  let w := start ["2"; ""; "1"; "ann"; "easy"; "50"]
                 (Some (Document (JArr [make_score "bob" "hard" 2 "2024-01-02"])))
                 [] [49%nat] in
  mild (fst (main_menu (py := AsciiText.builtins) 10 w)) /\
  (forall e, fst (main_menu (py := AsciiText.builtins) 10 w) = Raise e ->
             e = EOFError) /\
  board_made (file (snd (main_menu (py := AsciiText.builtins) 10 w))).
Proof.
  intros w.
  apply (proj1 (program_only_stops_at_eof (py := AsciiText.builtins) 10 w)).
  cbn. eexists; split; [reflexivity|].
  repeat constructor. now exists "bob", "hard", 2, "2024-01-02".
Defined.

Lemma program_ends_with_input_witness :
  let w := start ["1"; "ann"; "easy"; "50"] None [] [49%nat] in
  fst (main_menu (py := AsciiText.builtins) 10 w) = Ret tt \/
  fst (main_menu (py := AsciiText.builtins) 10 w) = Raise EOFError.
Proof.
  intros w.
  apply (program_ends_with_input (py := AsciiText.builtins) 10 4 w);
    [exact I|reflexivity|cbn; lia|cbn; lia].
Defined.

(** ** Viewing the leaderboard from the menu *)

Lemma load_by_file (w1 w2 : world) :
  file w1 = file w2 ->
  fst (load_high_scores w1) = fst (load_high_scores w2) /\
  exists out,
    snd (load_high_scores w2) = after 0 0 out w2 /\
    (out = [] \/ out = [warning_msg]).
Proof.
  intros H. destruct (file w2) as [[|v|msg|]|] eqn:Hf.
  - rewrite (load_undecodable w1 H), (load_undecodable w2 Hf).
    split; [reflexivity|]. exists [warning_msg]. auto.
  - rewrite (load_document w1 v H), (load_document w2 v Hf).
    split; [reflexivity|]. exists []. rewrite after_0. auto.
  - rewrite (load_forbidden w1 msg H), (load_forbidden w2 msg Hf).
    split; [reflexivity|]. exists []. rewrite after_0. auto.
  - rewrite (load_garbled w1 H), (load_garbled w2 Hf).
    split; [reflexivity|]. exists []. rewrite after_0. auto.
  - rewrite (load_absent w1 H), (load_absent w2 Hf).
    split; [reflexivity|]. exists []. rewrite after_0. auto.
Qed.

Section View.

Context {py : Builtins}.

(** X14. "View Leaderboard" shows the list the menu holds in memory, not
    what the file holds: the table printed is made from the list loaded
    at the start or at the previous view, and only afterwards is the file
    loaded again, for the next view.  As a game does not refresh the list
    (it saves to the file only), a score just won is missing from the
    first view after the game. *)
Theorem view_shows_list_in_memory (budget : nat)
  (high_scores reloaded : list json) (sig : signal) (w w' : world) :
  stdin w (cursor w) = Some "2"%string ->
  menu_round budget high_scores w = (Ret (sig, reloaded), w') ->
  sig = Continue /\
  fst (load_high_scores w) = Ret reloaded /\
  file w' = file w /\
  exists out,
    stdout w'
    = (stdout w ++ menu_lines ++ banner ++ table high_scores ++ closing
         ++ out)%list /\
    (out = [] \/ out = [warning_msg]).
Proof.
  intros Hl H. unfold menu_round, clear_screen in H.
  unfold bind at 1, ret at 1 in H.
  rewrite (bind_ret _ _ _ _ _ (print_after _ _)) in H.
  rewrite (bind_ret _ _ _ _ _ (print_after _ _)) in H.
  rewrite (bind_ret _ _ _ _ _ (print_after _ _)) in H.
  rewrite (bind_ret _ _ _ _ _ (print_after _ _)) in H.
  rewrite !after_after in H.
  match type of H with
  | bind (input _) _ ?v = _ =>
      assert (Hin : stdin v (cursor v) = Some "2"%string)
        by (cbn; now rewrite Nat.add_0_r)
  end.
  rewrite (bind_ret _ _ _ _ _ (input_line _ _ _ Hin)) in H.
  rewrite after_after in H.
  cbn [String.eqb Ascii.eqb Bool.eqb] in H.
  apply bind_ret_inv in H as ([] & w1 & Ed & H).
  apply bind_ret_inv in H as (hs' & w2 & El & H).
  injection H as <- <- <-.
  rewrite display_leaderboard_run in Ed.
  destruct (rows_outcome 0 (firstn 10 high_scores)) as [[]|e| |];
    try discriminate.
  match type of Ed with
  | context [stdin ?v (cursor ?v)] => destruct (stdin v (cursor v))
  end; [|discriminate].
  injection Ed as <-. rewrite after_after in El.
  match type of El with
  | load_high_scores ?v = _ =>
      destruct (load_by_file w v eq_refl) as (Hr & out & Hs & Hout)
  end.
  rewrite El in Hr, Hs. cbn [fst snd] in Hr, Hs. subst w2.
  split; [reflexivity|]. split; [exact Hr|]. split; [reflexivity|].
  exists out. split; [|exact Hout].
  cbn [stdout after]. unfold menu_lines, banner.
  generalize (table high_scores), closing. intros t c.
  simpl. rewrite <- (app_assoc (stdout w)). simpl.
  now rewrite <- (app_assoc t c out).
Qed.

End View.

Lemma view_shows_list_in_memory_witness :
  let held := [] in
  let saved := [make_score "ann" "easy" 3 "2024-01-01"] in
  let w := start ["2"; ""] (Some (Document (JArr saved))) [] [] in
  let w' := snd (menu_round (py := AsciiText.builtins) 5 held w) in
  Continue = Continue /\
  fst (load_high_scores w) = Ret saved /\
  file w' = file w /\
  exists out,
    stdout w'
    = (stdout w ++ menu_lines ++ banner
         ++ table (py := AsciiText.builtins) held ++ closing ++ out)%list /\
    (out = [] \/ out = [warning_msg]).
Proof.
  intros held saved w w'.
  apply (view_shows_list_in_memory (py := AsciiText.builtins) 5 held saved
           Continue w w').
  - reflexivity.
  - vm_compute. reflexivity.
Defined.
